(** * Oat: shared-memory dataflow components

    A shallow embedding of the parts of the Oat sources that the
    specification talks about: the frame buffer (FrameBuffer.cpp), the
    decorator's processing step (Decorator.cpp), the driver loops of the
    recorder and of the position socket (main.cpp), the shared-memory demo
    client (matclient.cpp), Position2D (Position2D.h), the configuration of
    the difference detector (DifferenceDetector.cpp) and the command line
    helper extractConfigFileKey (ProgramOptions.cpp).

    Stateful code is written in a small state monad over a record holding
    the members of the C++ object together with the trace of the calls it
    makes on its endpoints ([io]). *)

From Stdlib Require Import ZArith String Bool Lia PrimFloat.
From stdpp Require Import base list strings gmap.

(** The newline character of the C++ string literals. *)
Definition nl : string := String (Ascii.ascii_of_nat 10) EmptyString.

(** ** A state monad for member functions *)

Definition M (S A : Type) : Type := S -> A * S.

Definition ret {S A : Type} (a : A) : M S A := fun s => (a, s).

Definition bind {S A B : Type} (m : M S A) (k : A -> M S B) : M S B :=
  fun s => let (a, s') := m s in k a s'.

Definition get {S : Type} : M S S := fun s => (s, s).

Definition modify {S : Type} (f : S -> S) : M S unit := fun s => (tt, f s).

Notation "x <- m ;; k" := (bind m (fun x => k))
  (at level 65, m at next level, right associativity).
Notation "m ;;; k" := (bind m (fun _ => k))
  (at level 65, right associativity).

(** ** Endpoints of a node *)

(** Modelled from the spec: the enumeration oat::NodeState is declared in
    Node.h, which is not among the sources; the spec lists the states
    UNDEFINED, BOUND and END, and the code only ever compares with END. *)
Inductive NodeState : Type := UNDEFINED | BOUND | END.

Definition at_END (s : NodeState) : bool :=
  match s with END => true | _ => false end.

(** The endpoints a component talks to. *)
Inductive Port : Type :=
| FrameSrc
| PoseSrc (i : nat)
| FrameSnk.

#[global] Instance Port_eq_dec : EqDecision Port.
Proof. solve_decision. Defined.

(** std::cv_status, the result of condition_variable::wait_for. *)
Inductive cv_status : Type := no_timeout | timeout.

(** The calls a component makes on its surroundings, in program order. *)
Inductive Event : Type :=
| EvWait (p : Port) (r : NodeState)   (* p.wait() returned r *)
| EvRead (p : Port)                   (* clone / copyTo / retrieve *)
| EvWrite (p : Port)                  (* copyTo into the sink's shared frame *)
| EvPost (p : Port)                   (* p.post() *)
| EvNotify                            (* cv_.notify_one() *)
| EvWaitFor (ms : Z) (r : cv_status)  (* cv_.wait_for(lk, msec(ms)) gave r *)
| EvStderr (msg : string)             (* std::cerr << msg *)
| EvStdout (msg : string)             (* std::cout << msg *)
| EvShow (n : nat).                   (* showBufferState / cv::imshow *)

Module Source.

(** Modelled from the spec: Source<T> (Source.h is not among the sources).
    The consumer endpoint sees the payload object of the node, [shared],
    and the samples its sink has still to publish, [upcoming]; once these
    are exhausted the sink has departed and wait reports END.  wait makes
    the next sample the shared payload, clone / copyTo / retrieve give the
    shared payload, post releases it. *)
Record t (T : Type) : Type := mk { shared : T; upcoming : list T }.
Arguments mk {T}.
Arguments shared {T}.
Arguments upcoming {T}.

Definition wait {T : Type} (s : t T) : NodeState * t T :=
  match upcoming s with
  | [] => (END, s)
  | x :: rest => (BOUND, mk x rest)
  end.

Definition clone {T : Type} (s : t T) : T := shared s.

Definition post {T : Type} (s : t T) : t T := s.

End Source.

Module Sink.

(** Modelled from the spec: Sink<T> (Sink.h is not among the sources).
    The producer endpoint; [published] is the sequence of samples handed
    to the consumers of the node so far.  wait returns once every consumer
    has released the previous sample; post publishes the content of the
    shared payload. *)
Record t (T : Type) : Type := mk { published : list T }.
Arguments mk {T}.
Arguments published {T}.

Definition wait {T : Type} (k : t T) : t T := k.

Definition post {T : Type} (payload : T) (k : t T) : t T :=
  mk (published k ++ [payload]).

End Sink.

(** ** The handshake discipline, as a checker over traces

    [port_check p held tr] follows the events of port [p] in [tr].  [held]
    says whether the component is inside the critical section of [p].  A
    wait that does not return END enters it, a post leaves it, a read or a
    write is allowed only inside, and a wait is not allowed inside.  The
    result is the final value of [held], or [None] where the discipline is
    broken. *)
Fixpoint port_check (p : Port) (held : bool) (tr : list Event) : option bool :=
  match tr with
  | [] => Some held
  | EvWait q r :: tr' =>
      if bool_decide (q = p) then
        if held then None
        else port_check p (negb (at_END r)) tr'
      else port_check p held tr'
  | EvRead q :: tr' | EvWrite q :: tr' =>
      if bool_decide (q = p) then
        if held then port_check p held tr' else None
      else port_check p held tr'
  | EvPost q :: tr' =>
      if bool_decide (q = p) then
        if held then port_check p false tr' else None
      else port_check p held tr'
  | _ :: tr' => port_check p held tr'
  end.

(** Number of waits on [p] that did not return END, and of posts on [p]. *)
Definition is_ok_wait (p : Port) (e : Event) : bool :=
  match e with
  | EvWait q r => bool_decide (q = p) && negb (at_END r)
  | _ => false
  end.

Definition is_post (p : Port) (e : Event) : bool :=
  match e with
  | EvPost q => bool_decide (q = p)
  | _ => false
  end.

Definition count_ok_waits (p : Port) (tr : list Event) : nat :=
  length (List.filter (is_ok_wait p) tr).

Definition count_posts (p : Port) (tr : list Event) : nat :=
  length (List.filter (is_post p) tr).

(** A trace keeps the discipline on every port, and ends outside every
    critical section. *)
Definition disciplined (tr : list Event) : Prop :=
  forall p : Port, port_check p false tr = Some false.

(** Number of waits on [p], whatever they returned. *)
Definition is_wait (p : Port) (e : Event) : bool :=
  match e with
  | EvWait q _ => bool_decide (q = p)
  | _ => false
  end.

Definition count_waits (p : Port) (tr : list Event) : nat :=
  length (List.filter (is_wait p) tr).

(** ** boost::lockfree::spsc_queue

    [buffer_] is declared in FrameBuffer.h, which is not among the sources;
    FrameBuffer.cpp uses it through push (with a boolean result),
    read_available and consume_one, the interface of
    boost::lockfree::spsc_queue with a fixed capacity.  The queue is
    modelled by the list of its elements, oldest first.  push appends the
    element and returns true unless the queue holds [capacity] elements, in
    which case it leaves the queue as it is and returns false. *)
Module spsc_queue.

Definition push {T : Type} (capacity : nat) (x : T) (q : list T)
  : bool * list T :=
  if length q <? capacity then (true, q ++ [x]) else (false, q).

Definition read_available {T : Type} (q : list T) : nat := length q.

Definition consume_one {T : Type} (q : list T) : option T * list T :=
  match q with
  | [] => (None, [])
  | x :: rest => (Some x, rest)
  end.

End spsc_queue.

(** ** FrameBuffer (src/buffer/FrameBuffer.cpp) *)

Module FrameBuffer.

Section WithFrame.

Context {Frame : Type}.

(** Buffer::BUFFSIZE, the capacity of the ring (declared in Buffer.h). *)
Variable BUFFSIZE : nat.

(** Whether the translation unit is compiled with NDEBUG. *)
Variable NDEBUG : bool.

(** The members FrameBuffer.cpp uses, and the trace of its calls. *)
Record t : Type := mk {
  source_ : Source.t Frame;
  sink_ : Sink.t Frame;
  shared_frame_ : Frame;
  buffer_ : list Frame;
  sink_running_ : bool;
  io : list Event
}.

Definition set_source_ (x : Source.t Frame) (b : t) : t :=
  mk x (sink_ b) (shared_frame_ b) (buffer_ b) (sink_running_ b) (io b).

Definition set_sink_ (x : Sink.t Frame) (b : t) : t :=
  mk (source_ b) x (shared_frame_ b) (buffer_ b) (sink_running_ b) (io b).

Definition set_shared_frame_ (x : Frame) (b : t) : t :=
  mk (source_ b) (sink_ b) x (buffer_ b) (sink_running_ b) (io b).

Definition set_buffer_ (x : list Frame) (b : t) : t :=
  mk (source_ b) (sink_ b) (shared_frame_ b) x (sink_running_ b) (io b).

Definition set_sink_running_ (x : bool) (b : t) : t :=
  mk (source_ b) (sink_ b) (shared_frame_ b) (buffer_ b) x (io b).

Definition set_io (x : list Event) (b : t) : t :=
  mk (source_ b) (sink_ b) (shared_frame_ b) (buffer_ b) (sink_running_ b) x.

Definition emit (e : Event) : M t unit :=
  modify (fun b => set_io (io b ++ [e]) b).

(** source_.wait() *)
Definition source_wait : M t NodeState :=
  b <- get ;;
  let (r, s) := Source.wait (source_ b) in
  modify (set_source_ s) ;;; emit (EvWait FrameSrc r) ;;; ret r.

(** source_.clone() *)
Definition source_clone : M t Frame :=
  b <- get ;;
  emit (EvRead FrameSrc) ;;; ret (Source.clone (source_ b)).

(** source_.post() *)
Definition source_post : M t unit :=
  b <- get ;;
  modify (set_source_ (Source.post (source_ b))) ;;; emit (EvPost FrameSrc).

(** buffer_.push(frame) *)
Definition buffer_push (frame : Frame) : M t bool :=
  b <- get ;;
  let (ok, q) := spsc_queue.push BUFFSIZE frame (buffer_ b) in
  modify (set_buffer_ q) ;;; ret ok.

(** showBufferState(buffer_, BUFFSIZE), compiled in without NDEBUG. *)
Definition showBufferState : M t unit :=
  b <- get ;;
  emit (EvShow (spsc_queue.read_available (buffer_ b))).

(** bool FrameBuffer::push() *)
Definition push : M t bool :=
  st <- source_wait ;;
  if at_END st then ret true
  else
    frame <- source_clone ;;
    ok <- buffer_push frame ;;
    (if negb ok then emit (EvStderr ("Buffer overrun." ++ nl)%string)
     else ret tt) ;;;
    source_post ;;;
    emit EvNotify ;;;
    (if NDEBUG then ret tt else showBufferState) ;;;
    ret false.

(** sink_.wait() *)
Definition sink_wait : M t unit :=
  b <- get ;;
  modify (set_sink_ (Sink.wait (sink_ b))) ;;;
  emit (EvWait FrameSnk BOUND).

(** sink_.post() *)
Definition sink_post : M t unit :=
  b <- get ;;
  modify (set_sink_ (Sink.post (shared_frame_ b) (sink_ b))) ;;;
  emit (EvPost FrameSnk).

(** frame.copyTo(shared_frame_) *)
Definition copyTo_shared_frame_ (frame : Frame) : M t unit :=
  modify (set_shared_frame_ frame) ;;; emit (EvWrite FrameSnk).

(** buffer_.consume_one(f) *)
Definition buffer_consume_one (f : Frame -> M t unit) : M t bool :=
  b <- get ;;
  let (x, q) := spsc_queue.consume_one (buffer_ b) in
  modify (set_buffer_ q) ;;;
  match x with
  | Some frame => f frame ;;; ret true
  | None => ret false
  end.

(** The body of the inner loop of pop. *)
Definition publish_one : M t unit :=
  sink_wait ;;;
  buffer_consume_one (fun frame => copyTo_shared_frame_ frame) ;;;
  sink_post.

(** cv_.wait_for(lk, msec(ms)); what it returns is up to the scheduler. *)
Definition cv_wait_for (ms : Z) (r : cv_status) : M t cv_status :=
  emit (EvWaitFor ms r) ;;; ret r.

(** Where the thread running FrameBuffer::pop stands: at the test of the
    outer loop, at the test of the inner loop, or returned. *)
Inductive PopPc : Type := AtOuterTest | AtInnerTest | Returned.

(** One step of void FrameBuffer::pop(): from one loop test to the next.
    [cv] is the result of wait_for, should this step call it. *)
Definition pop_step (cv : cv_status) (pc : PopPc) : M t PopPc :=
  match pc with
  | AtOuterTest =>
      b <- get ;;
      if sink_running_ b then
        r <- cv_wait_for 10 cv ;;
        match r with
        | timeout => ret AtOuterTest
        | no_timeout => ret AtInnerTest
        end
      else ret Returned
  | AtInnerTest =>
      b <- get ;;
      if 0 <? spsc_queue.read_available (buffer_ b) then
        publish_one ;;; ret AtInnerTest
      else ret AtOuterTest
  | Returned => ret Returned
  end.

(** The pop thread running on its own for a number of steps. *)
Fixpoint pop_steps (cvs : list cv_status) (pc : PopPc) : M t PopPc :=
  match cvs with
  | [] => ret pc
  | cv :: cvs' => pc' <- pop_step cv pc ;; pop_steps cvs' pc'
  end.

(** void FrameBuffer::pop(), from its entry, on its own: one step for each
    entry of [cvs].  The result says where the thread stands then. *)
Definition pop (cvs : list cv_status) : M t PopPc :=
  pop_steps cvs AtOuterTest.

(** *** Runs of the two threads

    The thread calling push and the thread running pop share the ring and
    nothing else that either of them writes.  A run is a sequence of
    actions: a call of push, a step of pop, or the owner of the buffer
    clearing [sink_running_] (done outside FrameBuffer.cpp). *)
Inductive Action : Type :=
| CallPush
| StepPop (cv : cv_status)
| ClearRunning.

Definition step (a : Action) (s : PopPc * t) : PopPc * t :=
  match a with
  | CallPush => (fst s, snd (push (snd s)))
  | StepPop cv => pop_step cv (fst s) (snd s)
  | ClearRunning => (fst s, set_sink_running_ false (snd s))
  end.

Definition exec (run : list Action) (s : PopPc * t) : PopPc * t :=
  fold_left (fun s a => step a s) run s.

(** The samples the push calls of a run take from upstream, each with
    whether the ring accepted it. *)
Definition offer (a : Action) (s : PopPc * t) : list (Frame * bool) :=
  match a with
  | CallPush =>
      match Source.upcoming (source_ (snd s)) with
      | [] => []
      | x :: _ => [(x, length (buffer_ (snd s)) <? BUFFSIZE)]
      end
  | _ => []
  end.

Fixpoint offered (run : list Action) (s : PopPc * t) : list (Frame * bool) :=
  match run with
  | [] => []
  | a :: run' => offer a s ++ offered run' (step a s)
  end.

Definition produced (run : list Action) (s : PopPc * t) : list Frame :=
  map fst (offered run s).

Definition kept (run : list Action) (s : PopPc * t) : list Frame :=
  map fst (List.filter snd (offered run s)).

Definition dropped (run : list Action) (s : PopPc * t) : list Frame :=
  map fst (List.filter (fun o => negb (snd o)) (offered run s)).

(** The overruns a trace reports on std::cerr. *)
Definition is_overrun (e : Event) : bool :=
  match e with
  | EvStderr msg => String.eqb msg ("Buffer overrun." ++ nl)%string
  | _ => false
  end.

Definition overruns_reported (tr : list Event) : nat :=
  length (List.filter is_overrun tr).

(** What the debug build prints at the end of push. *)
Definition debug_trace (ring : list Frame) : list Event :=
  if NDEBUG then [] else [EvShow (length ring)].

(** The events of one pass through the inner loop of pop. *)
Definition publish_trace : list Event :=
  [EvWait FrameSnk BOUND; EvWrite FrameSnk; EvPost FrameSnk].

(** A buffer as connectToNode leaves it: ring empty, nothing published. *)
Definition connected (up : Source.t Frame) (slot : Frame) : t :=
  mk up (Sink.mk []) slot [] true [].

End WithFrame.

Arguments t : clear implicits.

End FrameBuffer.


(** ** Decorator::process (src/decorator/Decorator.cpp) *)

Module Decorator.

Section WithPayloads.

Context {Frame Pose Drawing : Type}.

(** Decorator::decorate draws on the frame with OpenCV, using and updating
    the drawing members of the decorator (history frame, options); it
    touches no endpoint. *)
Variable decorate : Frame -> list Pose -> Drawing -> Frame * Drawing.

Record t : Type := mk {
  frame_source_ : Source.t Frame;
  pose_sources_ : list (Source.t Pose);
  frame_sink_ : Sink.t Frame;
  shared_frame_ : Frame;
  drawing : Drawing;
  io : list Event
}.

Definition set_frame_source_ (x : Source.t Frame) (d : t) : t :=
  mk x (pose_sources_ d) (frame_sink_ d) (shared_frame_ d) (drawing d) (io d).

Definition set_pose_sources_ (x : list (Source.t Pose)) (d : t) : t :=
  mk (frame_source_ d) x (frame_sink_ d) (shared_frame_ d) (drawing d) (io d).

Definition set_frame_sink_ (x : Sink.t Frame) (d : t) : t :=
  mk (frame_source_ d) (pose_sources_ d) x (shared_frame_ d) (drawing d) (io d).

Definition set_shared_frame_ (x : Frame) (d : t) : t :=
  mk (frame_source_ d) (pose_sources_ d) (frame_sink_ d) x (drawing d) (io d).

Definition set_drawing (x : Drawing) (d : t) : t :=
  mk (frame_source_ d) (pose_sources_ d) (frame_sink_ d) (shared_frame_ d) x
     (io d).

Definition set_io (x : list Event) (d : t) : t :=
  mk (frame_source_ d) (pose_sources_ d) (frame_sink_ d) (shared_frame_ d)
     (drawing d) x.

Definition emit (e : Event) : M t unit :=
  modify (fun d => set_io (io d ++ [e]) d).

(** frame_source_.wait() *)
Definition frame_source_wait : M t NodeState :=
  d <- get ;;
  let (r, s) := Source.wait (frame_source_ d) in
  modify (set_frame_source_ s) ;;; emit (EvWait FrameSrc r) ;;; ret r.

(** frame_source_.copyTo(frame) *)
Definition frame_source_copyTo : M t Frame :=
  d <- get ;;
  emit (EvRead FrameSrc) ;;; ret (Source.clone (frame_source_ d)).

(** frame_source_.post() *)
Definition frame_source_post : M t unit :=
  d <- get ;;
  modify (set_frame_source_ (Source.post (frame_source_ d))) ;;;
  emit (EvPost FrameSrc).

(** pose_sources_[i].source->wait(); the loop keeps [i] below the size of
    the vector, the other branch is there to make the function total. *)
Definition pose_source_wait (i : nat) : M t NodeState :=
  d <- get ;;
  match pose_sources_ d !! i with
  | Some src =>
      let (r, s) := Source.wait src in
      modify (set_pose_sources_ (<[i := s]> (pose_sources_ d))) ;;;
      emit (EvWait (PoseSrc i) r) ;;; ret r
  | None => ret END
  end.

(** pose_sources_[i].source->clone() *)
Definition pose_source_clone (i : nat) : M t (option Pose) :=
  d <- get ;;
  emit (EvRead (PoseSrc i)) ;;;
  ret (Source.clone <$> pose_sources_ d !! i).

(** pose_sources_[i].source->post() *)
Definition pose_source_post (i : nat) : M t unit :=
  d <- get ;;
  modify (set_pose_sources_
            (alter Source.post i (pose_sources_ d))) ;;;
  emit (EvPost (PoseSrc i)).

(** The loop over the pose sources: [n] sources are left, the next one
    has index [i].  The result is [None] where the function returns 1
    from inside the loop. *)
Fixpoint get_poses (n i : nat) (poses : list Pose)
  : M t (option (list Pose)) :=
  match n with
  | 0 => ret (Some poses)
  | S n' =>
      st <- pose_source_wait i ;;
      if at_END st then ret None
      else
        p <- pose_source_clone i ;;
        pose_source_post i ;;;
        get_poses n' (S i) (poses ++ option_list p)
  end.

(** frame_sink_.wait() *)
Definition frame_sink_wait : M t unit :=
  d <- get ;;
  modify (set_frame_sink_ (Sink.wait (frame_sink_ d))) ;;;
  emit (EvWait FrameSnk BOUND).

(** frame.copyTo(shared_frame_) *)
Definition copyTo_shared_frame_ (frame : Frame) : M t unit :=
  modify (set_shared_frame_ frame) ;;; emit (EvWrite FrameSnk).

(** frame_sink_.post() *)
Definition frame_sink_post : M t unit :=
  d <- get ;;
  modify (set_frame_sink_ (Sink.post (shared_frame_ d) (frame_sink_ d))) ;;;
  emit (EvPost FrameSnk).

(** decorate(frame, poses) *)
Definition call_decorate (frame : Frame) (poses : list Pose) : M t Frame :=
  d <- get ;;
  let (frame', dr) := decorate frame poses (drawing d) in
  modify (set_drawing dr) ;;; ret frame'.

(** int Decorator::process() *)
Definition process : M t Z :=
  st <- frame_source_wait ;;
  if at_END st then ret 1%Z
  else
    frame <- frame_source_copyTo ;;
    frame_source_post ;;;
    d <- get ;;
    got <- get_poses (length (pose_sources_ d)) 0 [] ;;
    match got with
    | None => ret 1%Z
    | Some poses =>
        frame' <- call_decorate frame poses ;;
        frame_sink_wait ;;;
        copyTo_shared_frame_ frame' ;;;
        frame_sink_post ;;;
        ret 0%Z
    end.

End WithPayloads.

Arguments t : clear implicits.

End Decorator.

(** ** Exceptions *)

Inductive Exception : Type :=
| runtime_error (what : string)
| cv_Exception (what : string)
| bad_any_cast
| unknown_exception.

Inductive Result (A : Type) : Type :=
| Normal (a : A)
| Thrown (e : Exception).
Arguments Normal {A}.
Arguments Thrown {A}.

Definition throws {A : Type} (r : Result A) : bool :=
  match r with Thrown _ => true | Normal _ => false end.

Definition throws_runtime_error {A : Type} (r : Result A) : bool :=
  match r with Thrown (runtime_error _) => true | _ => false end.

(** ** The driver loops (src/recorder/main.cpp, src/positionsocket/main.cpp) *)

Module Driver.

(** SIGINT *)
Definition SIGINT : Z := 2.

(** volatile sig_atomic_t quit = 0; volatile sig_atomic_t source_eof = 0; *)
Record Globals : Type := mkGlobals { quit : Z; source_eof : Z }.

Definition initial_globals : Globals := mkGlobals 0 0.

(** void sigHandler(int s) { quit = 1; } *)
Definition sigHandler (s : Z) (g : Globals) : Globals :=
  mkGlobals 1 (source_eof g).

(** What the process does with SIGINT: the default action, which kills
    it, or a handler installed with std::signal. *)
Inductive Disposition : Type :=
| SIG_DFL
| Handler (h : Z -> Globals -> Globals).

(** Delivery of SIGINT; [None] where the process is killed. *)
Definition deliver_SIGINT (d : Disposition) (g : Globals) : option Globals :=
  match d with
  | SIG_DFL => None
  | Handler h => Some (h SIGINT g)
  end.

(** How a run of the loop ends. *)
Inductive RunEnd (Component : Type) : Type :=
| LoopExit (calls : nat) (g : Globals) (c : Component)
| Raised (calls : nat) (e : Exception)
| Killed (calls : nat).
Arguments LoopExit {Component}.
Arguments Raised {Component}.
Arguments Killed {Component}.

Section Loop.

Context {Component : Type}.

(** recorder->writeStreams() in the recorder, sock->process() in the
    position socket: the call either returns the end-of-stream signal
    (non-zero at end of stream) or throws. *)
Variable process : Component -> Result Z * Component.

(** void run(...) { while (!quit && !source_eof) { source_eof = process(); } }

    [sigs] is the schedule of the run: one entry for each call of the
    loop body, saying whether a SIGINT is delivered while that call is
    under way.  [None] means that the schedule ends with the loop still
    running.  [calls] counts the calls made so far. *)
Fixpoint run (d : Disposition) (sigs : list bool) (calls : nat)
  (g : Globals) (c : Component) : option (RunEnd Component) :=
  if negb (quit g =? 0)%Z || negb (source_eof g =? 0)%Z then
    Some (LoopExit calls g c)
  else
    match sigs with
    | [] => None
    | sig :: sigs' =>
        match (if sig then deliver_SIGINT d g else Some g) with
        | None => Some (Killed calls)
        | Some g' =>
            match process c with
            | (Normal v, c') =>
                run d sigs' (S calls) (mkGlobals (quit g') v) c'
            | (Thrown e, _) => Some (Raised (S calls) e)
            end
        end
    end.

(** oat::whoMessage and oat::whoError of IOFormat.h, which is not among
    the sources. *)
Variable whoMessage : string -> string -> string.
Variable whoError : string -> string -> string.

(** main, from std::signal(SIGINT, sigHandler) to its end, for a command
    line that gets as far as the loop: the option parsing in between does
    not touch the globals.  [early] says whether a SIGINT arrives before
    the loop is entered.  The result is the exit status and what the try
    block around the loop writes (the handlers are those of the recorder;
    the position socket has one more, for errors of the TOML parser). *)
Definition main (name : string) (early : bool) (sigs : list bool)
  (c : Component) : option (Z * list Event) :=
  let d := Handler sigHandler in
  match (if early then deliver_SIGINT d initial_globals
         else Some initial_globals) with
  | None => Some ((-1)%Z, [])
  | Some g =>
      match run d sigs 0 g c with
      | None => None
      | Some (LoopExit _ _ _) =>
          Some (0%Z, [EvStdout (whoMessage name ("Exiting." ++ nl)%string)])
      | Some (Raised _ (runtime_error what)) =>
          Some ((-1)%Z, [EvStderr (whoError name what ++ nl)%string])
      | Some (Raised _ (cv_Exception what)) =>
          Some ((-1)%Z, [EvStderr (whoError name what ++ nl)%string])
      | Some (Raised _ _) =>
          Some ((-1)%Z,
                [EvStderr (whoError name ("Unknown exception." ++ nl))%string])
      | Some (Killed _) => Some ((-1)%Z, [])
      end
  end.

(** The outcome of call number [k] of process, counted from 0, when the
    loop starts from component [c] and no earlier call throws. *)
Fixpoint nth_call (k : nat) (c : Component) : Result Z * Component :=
  match k with
  | 0 => process c
  | S k' => nth_call k' (snd (process c))
  end.

End Loop.

End Driver.

(** ** The demo client (experiments/src/matclient.cpp) *)

Module Matclient.

Section WithMat.

Context {Mat : Type}.

(** The global [quit], the source, the local matrix and the trace. *)
Record t : Type := mk {
  quit : Z;
  source : Source.t Mat;
  local : Mat;
  io : list Event
}.

(** void sigHandler(int s) { quit = 1; } *)
Definition sigHandler (s : Z) (m : t) : t :=
  mk 1 (source m) (local m) (io m).

Definition emit (e : Event) : M t unit :=
  modify (fun m => mk (quit m) (source m) (local m) (io m ++ [e])).

(** source.wait(); the caller does not look at a result. *)
Definition source_wait : M t unit :=
  m <- get ;;
  let (r, s) := Source.wait (source m) in
  modify (fun m => mk (quit m) s (local m) (io m)) ;;;
  emit (EvWait FrameSrc r).

(** local = source.cloneFrame(); *)
Definition clone_to_local : M t unit :=
  m <- get ;;
  modify (fun m => mk (quit m) (source m) (Source.clone (source m)) (io m)) ;;;
  emit (EvRead FrameSrc).

(** source.post(); *)
Definition source_post : M t unit :=
  m <- get ;;
  modify (fun m => mk (quit m) (Source.post (source m)) (local m) (io m)) ;;;
  emit (EvPost FrameSrc).

(** The body of the while loop; [sig] says whether SIGINT is delivered
    while the body runs (the handler is installed by then). *)
Definition loop_body (sig : bool) : M t unit :=
  clone_to_local ;;;
  source_post ;;;
  emit (EvShow 0) ;;;
  (if sig then modify (sigHandler Driver.SIGINT) else ret tt) ;;;
  source_wait.

(** The events of one pass through the loop whose wait returns [r]. *)
Definition pass_trace (r : NodeState) : list Event :=
  [EvRead FrameSrc; EvPost FrameSrc; EvShow 0; EvWait FrameSrc r].

(** while (!quit) { ... }; the result is [false] where the schedule ends
    with the loop still running. *)
Fixpoint loop (sigs : list bool) : M t bool :=
  m <- get ;;
  if negb (quit m =? 0)%Z then ret true
  else
    match sigs with
    | [] => ret false
    | sig :: sigs' => loop_body sig ;;; loop sigs'
    end.

(** main, from std::signal(SIGINT, sigHandler) on, with no exception
    thrown by the source: the wait before the loop, the loop, return 0.
    [early] says whether a SIGINT arrives before the loop is entered. *)
Definition main (early : bool) (sigs : list bool) : M t (option Z) :=
  (if early then modify (sigHandler Driver.SIGINT) else ret tt) ;;;
  source_wait ;;;
  done <- loop sigs ;;
  ret (if done then Some 0%Z else None).

End WithMat.

Arguments t : clear implicits.

End Matclient.

(** ** Position2D (lib/datatypes/Position2D.h) *)

Module Position2D.

(** cv::Point2d *)
Definition Point2D : Type := (float * float)%type.

(** cv::Matx33f and cv::Matx33d, by rows. *)
Record Matx33 (T : Type) : Type := mkMatx33 {
  m00 : T; m01 : T; m02 : T;
  m10 : T; m11 : T; m12 : T;
  m20 : T; m21 : T; m22 : T
}.
Arguments mkMatx33 {T}.
Arguments m00 {T}.
Arguments m01 {T}.
Arguments m02 {T}.
Arguments m10 {T}.
Arguments m11 {T}.
Arguments m12 {T}.
Arguments m20 {T}.
Arguments m21 {T}.
Arguments m22 {T}.

Section WithOpenCV.

(** The members of the base class Position and the type float. *)
Context {Position float32 : Type}.

(** The enumerators of Position.h, which is not among the sources. *)
Variable PIXELS : Z.
Variable WORLD : Z.

(** Conversion of a float to a double. *)
Variable to_double : float32 -> float.

(** What cv::perspectiveTransform does to one point, with a matrix of
    floats and with a matrix of doubles. *)
Variable transform32 : Matx33 float32 -> Point2D -> Point2D.
Variable transform64 : Matx33 float -> Point2D -> Point2D.

Record t : Type := mk {
  base : Position;
  coord_system : Z;
  homography_valid : bool;
  homography : Matx33 float32;
  position_valid : bool;
  position : Point2D;
  velocity_valid : bool;
  velocity : Point2D;
  head_direction_valid : bool;
  head_direction : Point2D
}.

Definition set_position (x : Point2D) (p : t) : t :=
  mk (base p) (coord_system p) (homography_valid p) (homography p)
     (position_valid p) x (velocity_valid p) (velocity p)
     (head_direction_valid p) (head_direction p).

Definition set_velocity (x : Point2D) (p : t) : t :=
  mk (base p) (coord_system p) (homography_valid p) (homography p)
     (position_valid p) (position p) (velocity_valid p) x
     (head_direction_valid p) (head_direction p).

Definition set_coord_system (x : Z) (p : t) : t :=
  mk (base p) x (homography_valid p) (homography p)
     (position_valid p) (position p) (velocity_valid p) (velocity p)
     (head_direction_valid p) (head_direction p).

(** cv::perspectiveTransform(src, dst, m): one output point per input. *)
Definition perspectiveTransform {T : Type}
  (f : Matx33 T -> Point2D -> Point2D) (src : list Point2D) (m : Matx33 T)
  : list Point2D :=
  map (f m) src.

(** cv::Matx33d vel_homo = homography; *)
Definition widen (m : Matx33 float32) : Matx33 float :=
  mkMatx33 (to_double (m00 m)) (to_double (m01 m)) (to_double (m02 m))
           (to_double (m10 m)) (to_double (m11 m)) (to_double (m12 m))
           (to_double (m20 m)) (to_double (m21 m)) (to_double (m22 m)).

(** vel_homo(0,2) = v; *)
Definition set_02 {T : Type} (v : T) (m : Matx33 T) : Matx33 T :=
  mkMatx33 (m00 m) (m01 m) v (m10 m) (m11 m) (m12 m) (m20 m) (m21 m) (m22 m).

(** vel_homo(1,2) = v; *)
Definition set_12 {T : Type} (v : T) (m : Matx33 T) : Matx33 T :=
  mkMatx33 (m00 m) (m01 m) (m02 m) (m10 m) (m11 m) v (m20 m) (m21 m) (m22 m).

(** v[0], for a vector that holds one element; [d] stands in where it
    holds none. *)
Definition first (d : Point2D) (v : list Point2D) : Point2D :=
  match v with
  | x :: _ => x
  | [] => d
  end.

(** Position2D convertToWorldCoordinates(); the state is [*this]. *)
Definition convertToWorldCoordinates : M t t :=
  this <- get ;;
  if (coord_system this =? PIXELS)%Z && homography_valid this then
    let world_position := this in
    let in_positions := [position this] in
    let out_positions :=
      perspectiveTransform transform32 in_positions (homography this) in
    let world_position :=
      set_position (first (position this) out_positions) world_position in
    let vel_homo := widen (homography this) in
    let vel_homo := set_02 0%float vel_homo in
    let vel_homo := set_12 0%float vel_homo in
    let in_velocities := [velocity this] in
    let out_velocities :=
      perspectiveTransform transform64 in_velocities vel_homo in
    let world_position :=
      set_velocity (first (velocity this) out_velocities) world_position in
    let world_position := set_coord_system WORLD world_position in
    ret world_position
  else ret this.

End WithOpenCV.

Arguments t : clear implicits.

End Position2D.

(** ** DifferenceDetector::applyConfiguration
       (src/positiondetector/DifferenceDetector.cpp) *)

Module DifferenceDetector.

(** What a lookup of the configuration helpers does: it stores a value in
    its output argument and returns true, or it finds nothing, leaves the
    output argument alone and returns false, or it throws. *)
Inductive Lookup (A : Type) : Type :=
| Found (a : A)
| Absent
| Fails (e : Exception).
Arguments Found {A}.
Arguments Absent {A}.
Arguments Fails {A}.

Section WithConfig.

Context {variables_map OptionTable : Type}.

(** oat::config::getNumericValue<int>(vm, table, key, out, min),
    oat::config::getArray<double, 2>(vm, table, key, out) and
    oat::config::getValue<bool>(vm, table, key, out): templates of the
    configuration helpers, which are not among the sources. *)
Variable getNumericValue_int :
  variables_map -> OptionTable -> string -> Z -> Lookup Z.
Variable getArray_double_2 :
  variables_map -> OptionTable -> string -> Lookup (list float).
Variable getValue_bool :
  variables_map -> OptionTable -> string -> Lookup bool.

(** Conversion of a double to an int. *)
Variable double_to_int : float -> Z.

(** The members applyConfiguration and set_blur_size write. *)
Record t : Type := mk {
  difference_intensity_threshold_ : Z;
  blur_on_ : bool;
  blur_size_ : Z * Z;
  min_object_area_ : float;
  max_object_area_ : float;
  dummy0_ : Z;
  dummy1_ : Z;
  tuning_on_ : bool
}.

Definition set_threshold (x : Z) (d : t) : t :=
  mk x (blur_on_ d) (blur_size_ d) (min_object_area_ d) (max_object_area_ d)
     (dummy0_ d) (dummy1_ d) (tuning_on_ d).

Definition set_blur (on : bool) (size : Z * Z) (d : t) : t :=
  mk (difference_intensity_threshold_ d) on size (min_object_area_ d)
     (max_object_area_ d) (dummy0_ d) (dummy1_ d) (tuning_on_ d).

Definition set_areas (lo hi : float) (d : t) : t :=
  mk (difference_intensity_threshold_ d) (blur_on_ d) (blur_size_ d) lo hi
     (dummy0_ d) (dummy1_ d) (tuning_on_ d).

Definition set_dummies (x y : Z) (d : t) : t :=
  mk (difference_intensity_threshold_ d) (blur_on_ d) (blur_size_ d)
     (min_object_area_ d) (max_object_area_ d) x y (tuning_on_ d).

Definition set_tuning_on_ (x : bool) (d : t) : t :=
  mk (difference_intensity_threshold_ d) (blur_on_ d) (blur_size_ d)
     (min_object_area_ d) (max_object_area_ d) (dummy0_ d) (dummy1_ d) x.

(** void DifferenceDetector::set_blur_size(int value) *)
Definition set_blur_size (value : Z) : M t unit :=
  d <- get ;;
  if (0 <? value)%Z then modify (set_blur true (value, value))
  else modify (set_blur false (blur_size_ d)).

(** a >= b on doubles *)
Definition double_ge (a b : float) : bool := PrimFloat.leb b a.

(** area[i]; [0] stands in where the vector is too short. *)
Definition at_index (area : list float) (i : nat) : float :=
  nth i area 0%float.

(** Sequencing of statements that may throw. *)
Definition andthen {S A B : Type} (m : M S (Result A))
  (k : A -> M S (Result B)) : M S (Result B) :=
  r <- m ;;
  match r with
  | Normal a => k a
  | Thrown e => ret (Thrown e)
  end.

(** The four blocks of applyConfiguration. *)
Definition configure_threshold (vm : variables_map) (tab : OptionTable)
  : M t (Result unit) :=
  match getNumericValue_int vm tab "diff-threshold" 0 with
  | Found v => modify (set_threshold v) ;;; ret (Normal tt)
  | Absent => ret (Normal tt)
  | Fails e => ret (Thrown e)
  end.

Definition configure_blur (vm : variables_map) (tab : OptionTable)
  : M t (Result unit) :=
  match getNumericValue_int vm tab "blur" 0 with
  | Found blur => set_blur_size blur ;;; ret (Normal tt)
  | Absent => ret (Normal tt)
  | Fails e => ret (Thrown e)
  end.

Definition configure_area (vm : variables_map) (tab : OptionTable)
  : M t (Result unit) :=
  match getArray_double_2 vm tab "area" with
  | Found area =>
      modify (set_areas (at_index area 0) (at_index area 1)) ;;;
      d <- get ;;
      modify (set_dummies (double_to_int (min_object_area_ d))
                          (double_to_int (max_object_area_ d))) ;;;
      d <- get ;;
      if double_ge (min_object_area_ d) (max_object_area_ d) then
        ret (Thrown (runtime_error "Max area should be larger than min area."))
      else ret (Normal tt)
  | Absent => ret (Normal tt)
  | Fails e => ret (Thrown e)
  end.

Definition configure_tune (vm : variables_map) (tab : OptionTable)
  : M t (Result unit) :=
  match getValue_bool vm tab "tune" with
  | Found v => modify (set_tuning_on_ v) ;;; ret (Normal tt)
  | Absent => ret (Normal tt)
  | Fails e => ret (Thrown e)
  end.

(** void DifferenceDetector::applyConfiguration(vm, config_table) *)
Definition applyConfiguration (vm : variables_map) (tab : OptionTable)
  : M t (Result unit) :=
  andthen (configure_threshold vm tab) (fun _ =>
  andthen (configure_blur vm tab) (fun _ =>
  andthen (configure_area vm tab) (fun _ =>
  configure_tune vm tab))).

End WithConfig.

End DifferenceDetector.

(** ** extractConfigFileKey (lib/utility/ProgramOptions.cpp) *)

Module ProgramOptions.

(** boost::program_options::variable_value: empty, or holding a value of
    some type; the type that matters here is std::vector<std::string>. *)
Inductive variable_value : Type :=
| empty_value
| strings_value (v : list string)
| other_value.

(** variable_value::empty() *)
Definition empty (v : variable_value) : bool :=
  match v with empty_value => true | _ => false end.

(** variable_value::as<std::vector<std::string> >() *)
Definition as_strings (v : variable_value) : Result (list string) :=
  match v with
  | strings_value l => Normal l
  | _ => Thrown bad_any_cast
  end.

(** map[key] on a const variables_map: the stored value, or an empty one. *)
Definition at_key (map : gmap string variable_value) (key : string)
  : variable_value :=
  default empty_value (map !! key).

(** std::vector<std::string> extractConfigFileKey(const po::variables_map map);
    the state is the map of the caller. *)
Definition extractConfigFileKey
  : M (gmap string variable_value) (Result (list string)) :=
  map <- get ;;
  let ret_ : list string := [] in
  if negb (empty (at_key map "config")) then
    match as_strings (at_key map "config") with
    | Normal ret_ =>
        if negb (length ret_ =? 2) then
          ret (Thrown (runtime_error
                 ("Configuration must be supplied as file key pair." ++ nl)))
        else ret (Normal ret_)
    | Thrown e => ret (Thrown e)
    end
  else ret (Normal ret_).

End ProgramOptions.

(** ** The sample code of the decorator (src/decorator/Decorator.cpp) *)

Module SampleCode.

(** oat::Frame as the drawing code uses it: a matrix of [rows] by [cols]
    pixels, [at_ r c] being the pixel in row [r] and column [c], and the
    sample count of the frame (a uint64_t). *)
Record Frame (Pixel : Type) : Type := mkFrame {
  rows : Z;
  cols : Z;
  sample_count : Z;
  at_ : Z -> Z -> Pixel
}.
Arguments mkFrame {Pixel}.
Arguments rows {Pixel}.
Arguments cols {Pixel}.
Arguments sample_count {Pixel}.
Arguments at_ {Pixel}.

(** Two frames of the same size that carry the same sample count. *)
Definition same_shape {Pixel : Type} (f g : Frame Pixel) : Prop :=
  rows f = rows g /\ cols f = cols g /\ sample_count f = sample_count g.

(** encode_bit_size_ = std::ceil(param.cols / 3 / sizeof(uint64_t) / 8);
    the statement of Decorator::connectToNode that sets the side of the
    squares of the code.  The number of columns is an integer, so the
    divisions are integer divisions and std::ceil changes nothing. *)
Definition encode_bit_size (cols : Z) : Z := cols / 3 / 8 / 8.

(** The values of a 32-bit int. *)
Definition int_range (z : Z) : Prop := (- 2 ^ 31 <= z < 2 ^ 31)%Z.

Section WithPixel.

Context {Pixel : Type} `{EqDecision Pixel}.

(** oat::RGB<oat::Roygbiv>::white() and the pixel of cv::Mat::zeros, in
    the type of the frame. *)
Variable white : Pixel.
Variable zero : Pixel.

(** The message of the cv::Exception that a range outside the matrix
    raises. *)
Variable bad_range : string.

(** frame.colRange(column, column + n).rowRange(0, n): OpenCV asserts
    0 <= start <= end <= cols for the columns and 0 <= 0 <= n <= rows for
    the rows. *)
Definition sub_square_ok (column n : Z) (f : Frame Pixel) : bool :=
  (0 <=? column)%Z && (column <=? column + n)%Z && (column + n <=? cols f)%Z
  && (0 <=? n)%Z && (n <=? rows f)%Z.

(** m.copyTo(sub_square) for a matrix [m] of [n] by [n] pixels [v]: the
    square shares its pixels with the frame. *)
Definition copy_to_square (v : Pixel) (column n : Z) (f : Frame Pixel)
  : Frame Pixel :=
  mkFrame (rows f) (cols f) (sample_count f)
    (fun r c =>
       if (0 <=? r)%Z && (r <? n)%Z && (column <=? c)%Z && (c <? column + n)%Z
       then v else at_ f r c).

(** The for loop of encodeSampleNumber with [left] passes to go. *)
Fixpoint encode_squares (left : nat) (sample_count column n : Z)
  (f : Frame Pixel) : Result unit * Frame Pixel :=
  match left with
  | 0 => (Normal tt, f)
  | S left' =>
      if sub_square_ok column n f then
        let v := if (Z.land sample_count 1 =? 0)%Z then zero else white in
        encode_squares left' (Z.shiftr sample_count 1) (column + n) n
          (copy_to_square v column n f)
      else (Thrown (cv_Exception bad_range), f)
  end.

(** void Decorator::encodeSampleNumber(oat::Frame &frame); [n] is the
    member encode_bit_size_, the state is the frame.  The source computes
    64 * encode_bit_size_ and the column in int; the definition computes
    them in Z and so describes the calls in which these stay in the range
    of int ([int_range]; beyond it the arithmetic of the source
    overflows). *)
Definition encodeSampleNumber (n : Z) : M (Frame Pixel) (Result unit) :=
  frame <- get ;;
  let sample_count := sample_count frame in
  let column := (cols frame - 64 * n)%Z in
  if (column <? 0)%Z then
    ret (Thrown (runtime_error
           ("Binary counter is too large for frame. "
            ++ "Use more x-dim pixels or turn binary counter off.")))
  else
    fun frame => encode_squares 64 sample_count column n frame.

(** Reading the code back, as a consumer of the decorated frames does it:
    one pixel of the top row per square, least significant bit first.
    This is not part of the sources. *)
Fixpoint read_squares (left : nat) (column n : Z) (f : Frame Pixel) : Z :=
  match left with
  | 0 => 0%Z
  | S left' =>
      ((if bool_decide (at_ f 0 column = white) then 1 else 0)
       + 2 * read_squares left' (column + n) n f)%Z
  end.

Definition decodeSampleNumber (n : Z) (f : Frame Pixel) : Z :=
  read_squares 64 (cols f - 64 * n) n f.

(** The members of the decorator that decorate reads. *)
Record Flags : Type := mkFlags {
  decorate_position_ : bool;
  print_region_ : bool;
  print_timestamp_ : bool;
  print_sample_number_ : bool;
  encode_sample_number_ : bool;
  encode_bit_size_ : Z
}.

Context {Pose History : Type}.

(** drawPose, printRegion, printTimeStamp and printSampleNumber draw on
    the frame with OpenCV; drawPose also draws on the history frame of the
    decorator, and printTimeStamp reads the time of day. *)
Variable drawPose :
  list Pose -> Frame Pixel * History -> Frame Pixel * History.
Variable printRegion : list Pose -> Frame Pixel -> Frame Pixel.
Variable printTimeStamp : Z -> Frame Pixel -> Frame Pixel.
Variable printSampleNumber : Frame Pixel -> Frame Pixel.

(** A step that works on the frame alone. *)
Definition on_frame {A : Type} (m : M (Frame Pixel) A)
  : M (Frame Pixel * History) A :=
  fun s => let (a, f) := m (fst s) in (a, (f, snd s)).

(** void Decorator::decorate(oat::Frame &frame,
                             const std::vector<oat::Pose> &poses);
    the state is the frame and the history frame, [raw_time] is what
    std::time gives. *)
Definition decorate (fl : Flags) (raw_time : Z) (poses : list Pose)
  : M (Frame Pixel * History) (Result unit) :=
  (if decorate_position_ fl then
     modify (drawPose poses) ;;;
     (if print_region_ fl then on_frame (modify (printRegion poses))
      else ret tt)
   else ret tt) ;;;
  (if print_timestamp_ fl then on_frame (modify (printTimeStamp raw_time))
   else ret tt) ;;;
  (if print_sample_number_ fl then on_frame (modify printSampleNumber)
   else ret tt) ;;;
  (if encode_sample_number_ fl
   then on_frame (encodeSampleNumber (encode_bit_size_ fl))
   else ret (Normal tt)).

End WithPixel.

End SampleCode.

(** ** Decorator::process and the exceptions of decorate
       (src/decorator/Decorator.cpp)

    [Decorator.process] describes the calls of process in which decorate
    returns.  Here decorate may throw, as encodeSampleNumber does on a
    frame that its squares do not fit. *)

Module DecoratorThrowing.

Section WithPayloads.

Context {Frame Pose Drawing : Type}.

(** decorate(frame, poses): what it leaves of the frame and of the drawing
    members, and whether it returned or threw (encodeSampleNumber
    throws). *)
Variable decorate : list Pose -> M (Frame * Drawing) (Result unit).

(** decorate(frame, poses) as process calls it, with no handler around the
    call.  The frame is a local of process: where decorate throws, what it
    drew on the frame is lost, while the drawing members keep what it
    wrote. *)
Definition call_decorate (frame : Frame) (poses : list Pose)
  : M (Decorator.t Frame Pose Drawing) (Result Frame) :=
  d <- get ;;
  let (r, s) := decorate poses (frame, Decorator.drawing d) in
  modify (Decorator.set_drawing (snd s)) ;;;
  ret (match r with
       | Normal _ => Normal (fst s)
       | Thrown e => Thrown e
       end).

(** int Decorator::process(); an exception of decorate leaves the function
    at the call. *)
Definition process : M (Decorator.t Frame Pose Drawing) (Result Z) :=
  st <- Decorator.frame_source_wait ;;
  if at_END st then ret (Normal 1%Z)
  else
    frame <- Decorator.frame_source_copyTo ;;
    Decorator.frame_source_post ;;;
    d <- get ;;
    got <- Decorator.get_poses (length (Decorator.pose_sources_ d)) 0 [] ;;
    match got with
    | None => ret (Normal 1%Z)
    | Some poses =>
        r <- call_decorate frame poses ;;
        match r with
        | Thrown e => ret (Thrown e)
        | Normal frame' =>
            Decorator.frame_sink_wait ;;;
            Decorator.copyTo_shared_frame_ frame' ;;;
            Decorator.frame_sink_post ;;;
            ret (Normal 0%Z)
        end
    end.

End WithPayloads.

End DecoratorThrowing.

(** ** More of the difference detector
       (src/positiondetector/DifferenceDetector.cpp) *)

Module DifferenceDetectorImages.

(** The blur is either off or has a kernel of positive size, which is
    what cv::blur asks for. *)
Definition blur_consistent (d : DifferenceDetector.t) : Prop :=
  DifferenceDetector.blur_on_ d = true ->
  (0 < fst (DifferenceDetector.blur_size_ d))%Z
  /\ (0 < snd (DifferenceDetector.blur_size_ d))%Z.

(** void diffDetectorBlurSliderChangedCallback(int value, void *object) *)
Definition diffDetectorBlurSliderChangedCallback (value : Z)
  : M DifferenceDetector.t unit :=
  DifferenceDetector.set_blur_size value.

Section WithOpenCV.

Context {Mat : Type}.

(** cv::absdiff(a, b, dst), cv::threshold(src, dst, thresh, maxval,
    cv::THRESH_BINARY) and cv::blur(src, dst, ksize), as functions from
    their inputs to [dst]. *)
Variable absdiff : Mat -> Mat -> Mat.
Variable threshold_binary : Mat -> Z -> Z -> Mat.
Variable blur : Mat -> Z * Z -> Mat.

(** The detector with the images applyThreshold works on. *)
Record t : Type := mk {
  params : DifferenceDetector.t;
  last_image_set_ : bool;
  last_image_ : Mat;
  threshold_frame_ : Mat
}.

(** void DifferenceDetector::applyThreshold(cv::Mat &frame) *)
Definition applyThreshold (frame : Mat) : M t unit :=
  d <- get ;;
  if last_image_set_ d then
    let threshold_frame := absdiff frame (last_image_ d) in
    let threshold_frame :=
      threshold_binary threshold_frame
        (DifferenceDetector.difference_intensity_threshold_ (params d)) 255 in
    let threshold_frame :=
      if DifferenceDetector.blur_on_ (params d)
      then blur threshold_frame (DifferenceDetector.blur_size_ (params d))
      else threshold_frame in
    modify (fun d => mk (params d) (last_image_set_ d) frame threshold_frame)
  else
    modify (fun d => mk (params d) true frame frame).

(** applyThreshold on the frames of a stream, one after the other. *)
Fixpoint applyThreshold_each (frames : list Mat) : M t unit :=
  match frames with
  | [] => ret tt
  | frame :: frames' => applyThreshold frame ;;; applyThreshold_each frames'
  end.

End WithOpenCV.

Arguments t : clear implicits.

End DifferenceDetectorImages.

(** variables_map::count(key) != 0, for an option that takes a value. *)
Definition is_Some_bool {A : Type} (o : option A) : bool :=
  match o with Some _ => true | None => false end.

(** ** Viewer<T>::process (src/viewer/Viewer.cpp) *)

Module Viewer.

Section WithSample.

Context {T : Type}.

(** std::chrono::duration_cast<Milliseconds>, on a difference of two
    readings of the clock. *)
Variable to_milliseconds : Z -> Z.

(** The members process uses.  [sample_] is [None] until a sample has
    been retrieved. *)
Record t : Type := mk {
  source_ : Source.t T;
  sample_ : option T;
  tock_ : Z;
  min_update_period_ms : Z;
  display_complete_ : bool;
  io : list Event
}.

Definition emit (e : Event) : M t unit :=
  modify (fun v => mk (source_ v) (sample_ v) (tock_ v)
                      (min_update_period_ms v) (display_complete_ v)
                      (io v ++ [e])).

(** source_.wait() *)
Definition source_wait : M t NodeState :=
  v <- get ;;
  let (r, s) := Source.wait (source_ v) in
  modify (fun v => mk s (sample_ v) (tock_ v) (min_update_period_ms v)
                      (display_complete_ v) (io v)) ;;;
  emit (EvWait FrameSrc r) ;;; ret r.

(** sample_ = source_.retrieve(); *)
Definition retrieve_sample : M t unit :=
  modify (fun v => mk (source_ v) (Some (Source.clone (source_ v))) (tock_ v)
                      (min_update_period_ms v) (display_complete_ v) (io v)) ;;;
  emit (EvRead FrameSrc).

(** source_.post(); *)
Definition source_post : M t unit :=
  modify (fun v => mk (Source.post (source_ v)) (sample_ v) (tock_ v)
                      (min_update_period_ms v) (display_complete_ v) (io v)) ;;;
  emit (EvPost FrameSrc).

(** tock_ = Clock::now(); *)
Definition set_tock_ (now : Z) : M t unit :=
  modify (fun v => mk (source_ v) (sample_ v) now (min_update_period_ms v)
                      (display_complete_ v) (io v)).

(** bool refresh_needed
      = duration > min_update_period_ms && display_complete_; *)
Definition refresh_needed (now : Z) (v : t) : bool :=
  (min_update_period_ms v <? to_milliseconds (now - tock_ v))%Z
  && display_complete_ v.

(** int Viewer<T>::process(); [now1] and [now2] are the two readings of
    the clock the call makes. *)
Definition process (now1 now2 : Z) : M t Z :=
  st <- source_wait ;;
  if at_END st then ret 1%Z
  else
    v <- get ;;
    let refresh := refresh_needed now1 v in
    (if refresh then retrieve_sample else ret tt) ;;;
    source_post ;;;
    (if refresh then emit EvNotify ;;; set_tock_ now2 else ret tt) ;;;
    ret 0%Z.

End WithSample.

Arguments t : clear implicits.

End Viewer.

(** ** The command line of the recorder (src/recorder/main.cpp) *)

Module RecorderMain.

(** std::unique on a vector of strings, followed by the resize to what it
    returns: of every run of equal neighbours the first is kept.  [x] is
    the element kept last. *)
Fixpoint unique_after (x : string) (l : list string) : list string :=
  match l with
  | [] => [x]
  | y :: l' =>
      if String.eqb x y then unique_after x l' else x :: unique_after y l'
  end.

Definition unique (l : list string) : list string :=
  match l with
  | [] => []
  | x :: l' => unique_after x l'
  end.

(** No two neighbours of the list are equal. *)
Definition no_equal_neighbours (l : list string) : Prop :=
  forall (i : nat) (x y : string),
    l !! i = Some x -> l !! S i = Some y -> x <> y.

(** What the parser leaves in the variables map: whether a switch was
    given, and the value of an option that was given. *)
Record Options : Type := mkOptions {
  opt_help : bool;
  opt_version : bool;
  opt_filename : option string;
  opt_folder : option string;
  opt_date : bool;
  opt_allow_overwrite : bool;
  opt_position_sources : option (list string);
  opt_image_sources : option (list string);
  opt_frames_per_second : option Z
}.

(** The arguments main hands to the constructor of the recorder; [fps] is
    [None] where main leaves the variable uninitialised. *)
Record Settings : Type := mkSettings {
  position_sources : list string;
  frame_sources : list string;
  save_path : string;
  file_name : string;
  append_date : bool;
  fps : option Z;
  allow_overwrite : bool
}.

Section WithFormat.

(** oat::Error and oat::Warn of IOFormat.h, what printUsage prints and
    the text of the version. *)
Variable Error : string -> string.
Variable Warn : string -> string.
Variable usage : string.
Variable version_text : string.

Definition say (e : Event) : M (list Event) unit :=
  modify (fun out => out ++ [e]).

(** The removal of duplicates from one of the two lists of sources. *)
Definition remove_duplicates (warning : string) (sources : list string)
  : M (list Event) (list string) :=
  let kept := unique sources in
  if length kept <? length sources then
    say (EvStderr (Warn warning)) ;;; ret kept
  else ret sources.

(** main, from the parsed options to the construction of the recorder:
    the exit status where main returns first, the arguments of the
    constructor otherwise.  The state is what has been written. *)
Definition configure (o : Options) : M (list Event) (Z + Settings) :=
  if opt_help o then say (EvStdout usage) ;;; ret (inl 0%Z)
  else if opt_version o then say (EvStdout version_text) ;;; ret (inl 0%Z)
  else if negb (is_Some_bool (opt_position_sources o))
          && negb (is_Some_bool (opt_image_sources o)) then
    say (EvStdout usage) ;;;
    say (EvStderr (Error ("At least a single POSITION SOURCE or "
                          ++ "FRAME SOURCE must be specified." ++ nl))) ;;;
    ret (inl (-1)%Z)
  else
    save_path <-
      match opt_folder o with
      | Some p => ret p
      | None =>
          say (EvStderr (Warn ("Warning: Saving files to the current "
                               ++ "directory." ++ nl))) ;;;
          ret "."%string
      end ;;
    file_name <-
      match opt_filename o with
      | Some n => ret n
      | None =>
          say (EvStderr (Warn ("Warning: No base filename was provided."
                               ++ nl))) ;;;
          ret ""%string
      end ;;
    fps <-
      match opt_frames_per_second o, opt_image_sources o with
      | Some f, _ => ret (Some f)
      | None, Some _ =>
          say (EvStderr (Warn ("Warning: Video playback speed set to "
                               ++ "30 FPS." ++ nl))) ;;;
          ret (Some 30%Z)
      | None, None => ret None
      end ;;
    position_sources <-
      match opt_position_sources o with
      | Some l =>
          remove_duplicates
            ("Warning: duplicate position sources have been removed." ++ nl) l
      | None => ret []
      end ;;
    frame_sources <-
      match opt_image_sources o with
      | Some l =>
          remove_duplicates
            ("Warning: duplicate frame sources have been removed." ++ nl) l
      | None => ret []
      end ;;
    ret (inr (mkSettings position_sources frame_sources save_path file_name
                (opt_date o) fps (opt_allow_overwrite o))).

(** What the try block of main has after po::store and po::notify: the
    options, or the exception the parser threw (an unknown option, a value
    that does not parse), caught as a std::exception with its what() or by
    the handler for everything else. *)
Inductive Parsed : Type :=
| ParsedOptions (o : Options)
| ParserThrew (what : string)
| ParserThrewUnknown.

(** main, from the command line as the parser leaves it to the
    construction of the recorder, with the two handlers of the try
    block. *)
Definition main_to_recorder (p : Parsed) : M (list Event) (Z + Settings) :=
  match p with
  | ParsedOptions o => configure o
  | ParserThrew what =>
      say (EvStderr (Error what ++ nl)) ;;; ret (inl (-1)%Z)
  | ParserThrewUnknown =>
      say (EvStderr (Error ("Exception of unknown type." ++ nl))) ;;;
      ret (inl (-1)%Z)
  end.

End WithFormat.

End RecorderMain.

(** ** The command line of the position socket
       (src/positionsocket/main.cpp) *)

Module PositionSocketMain.

(** What the parser leaves in the variables map. *)
Record Options : Type := mkOptions {
  opt_help : bool;
  opt_version : bool;
  opt_type : option string;
  opt_positionsource : option string;
  opt_server : bool;
  opt_host : option string;
  opt_port : option Z;
  opt_config_file : option string;
  opt_config_key : option string
}.

(** The socket main creates: std::make_shared<UDPServer>(source, port) or
    std::make_shared<UDPClient>(source, host, port).  The port is [None]
    where main leaves the variable uninitialised; the host of a client is
    the empty string where none was given. *)
Inductive Socket : Type :=
| UDPServer (source : string) (port : option Z)
| UDPClient (source : string) (host : string) (port : option Z).

Section WithFormat.

Variable Error : string -> string.
Variable Warn : string -> string.
Variable usage : string.
Variable version_text : string.

Definition say (e : Event) : M (list Event) unit :=
  modify (fun out => out ++ [e]).

(** type_hash[type], with type_hash["udp"] = 'a': the character 'a' for
    "udp", and the character 0 that operator[] inserts for any other
    string. *)
Definition type_hash (type : string) : Z :=
  if String.eqb type "udp" then 97%Z else 0%Z.

(** main, from the parsed options to the creation of the socket. *)
Definition configure (o : Options) : M (list Event) (Z + Socket) :=
  if opt_help o then say (EvStdout usage) ;;; ret (inl 0%Z)
  else if opt_version o then say (EvStdout version_text) ;;; ret (inl 0%Z)
  else
    match opt_type o with
    | None =>
        say (EvStdout usage) ;;;
        say (EvStdout (Error ("A TYPE must be specified." ++ nl))) ;;;
        ret (inl (-1)%Z)
    | Some type =>
        match opt_positionsource o with
        | None =>
            say (EvStdout usage) ;;;
            say (EvStderr (Error ("A position SOURCE must be specified."
                                  ++ nl))) ;;;
            ret (inl (-1)%Z)
        | Some source =>
            let server_side := opt_server o in
            let host := default ""%string (opt_host o) in
            (if is_Some_bool (opt_host o) && server_side then
               say (EvStderr
                      (Warn ("Posisock role is server, but host address "
                             ++ "was specified. ")
                       ++ Warn ("Host address " ++ host
                                ++ " will be ignored." ++ nl)))
             else ret tt) ;;;
            if xorb (is_Some_bool (opt_config_file o))
                    (is_Some_bool (opt_config_key o)) then
              say (EvStdout usage) ;;;
              say (EvStderr (Error ("A config file must be supplied "
                                    ++ "with a corresponding config-key."
                                    ++ nl))) ;;;
              ret (inl (-1)%Z)
            else if (type_hash type =? 97)%Z then
              ret (inr (if server_side then UDPServer source (opt_port o)
                        else UDPClient source host (opt_port o)))
            else
              say (EvStdout usage) ;;;
              say (EvStderr (Error ("Invalid TYPE specified." ++ nl))) ;;;
              ret (inl (-1)%Z)
        end
    end.

End WithFormat.

End PositionSocketMain.

(** ** Decorator::applyConfiguration (src/decorator/Decorator.cpp) *)

Module DecoratorConfig.

(** cv::Scalar *)
Definition Scalar : Type := (float * float * float * float)%type.

(** cv::subtract(a, b, dst) on two scalars, as a function to [dst]. *)
Definition subtract (a b : Scalar) : Scalar :=
  match a, b with
  | (a0, a1, a2, a3), (b0, b1, b2, b3) =>
      (PrimFloat.sub a0 b0, PrimFloat.sub a1 b1, PrimFloat.sub a2 b2,
       PrimFloat.sub a3 b3)
  end.

(** A statement built on a lookup of the configuration helpers: a value
    that is found is stored with [set]. *)
Definition apply_lookup {S A : Type} (l : DifferenceDetector.Lookup A)
  (set : A -> S -> S) : M S (Result unit) :=
  match l with
  | DifferenceDetector.Found v => modify (set v) ;;; ret (Normal tt)
  | DifferenceDetector.Absent => ret (Normal tt)
  | DifferenceDetector.Fails e => ret (Thrown e)
  end.

(** Statements one after the other, up to the first that throws. *)
Fixpoint run_all {S : Type} (steps : list (M S (Result unit)))
  : M S (Result unit) :=
  match steps with
  | [] => ret (Normal tt)
  | m :: rest => DifferenceDetector.andthen m (fun _ => run_all rest)
  end.

(** A statement leaves the part [f] of the state alone. *)
Definition preserves {S A B : Type} (f : S -> B) (m : M S A) : Prop :=
  forall s : S, f (snd (m s)) = f s.

Section WithConfig.

(** The type of a pose source and the table of the configuration file. *)
Context {PoseSource OptionTable : Type}.

(** oat::make_unique<oat::Source<oat::Pose>>(): a source not yet
    connected. *)
Variable new_source : PoseSource.

(** oat::config::getValue<bool>(vm, table, key, out),
    oat::config::getNumericValue<double>(vm, table, key, out, min),
    oat::config::getArray<double, 9>(vm, table, key, out) and
    oat::config::getArray<double>(vm, table, key, out). *)
Variable getValue_bool :
  gmap string ProgramOptions.variable_value -> OptionTable -> string
  -> DifferenceDetector.Lookup bool.
Variable getNumericValue_double :
  gmap string ProgramOptions.variable_value -> OptionTable -> string -> float
  -> DifferenceDetector.Lookup float.
Variable getArray_double_9 :
  gmap string ProgramOptions.variable_value -> OptionTable -> string
  -> DifferenceDetector.Lookup (list float).
Variable getArray_double :
  gmap string ProgramOptions.variable_value -> OptionTable -> string
  -> DifferenceDetector.Lookup (list float).

(** The members applyConfiguration writes. *)
Record t : Type := mk {
  pose_sources_ : list (string * PoseSource);
  decorate_position_ : bool;
  print_timestamp_ : bool;
  print_region_ : bool;
  print_sample_number_ : bool;
  encode_sample_number_ : bool;
  show_position_history_ : bool;
  font_scale_ : float;
  font_color_ : Scalar;
  marker_size_ : float;
  camera_matrix_ : Position2D.Matx33 float;
  dist_coeff_ : list float
}.

Definition set_pose_sources_ (x : list (string * PoseSource)) (d : t) : t :=
  mk x (decorate_position_ d) (print_timestamp_ d) (print_region_ d)
     (print_sample_number_ d) (encode_sample_number_ d)
     (show_position_history_ d) (font_scale_ d) (font_color_ d)
     (marker_size_ d) (camera_matrix_ d) (dist_coeff_ d).

Definition set_decorate_position_ (x : bool) (d : t) : t :=
  mk (pose_sources_ d) x (print_timestamp_ d) (print_region_ d)
     (print_sample_number_ d) (encode_sample_number_ d)
     (show_position_history_ d) (font_scale_ d) (font_color_ d)
     (marker_size_ d) (camera_matrix_ d) (dist_coeff_ d).

Definition set_print_timestamp_ (x : bool) (d : t) : t :=
  mk (pose_sources_ d) (decorate_position_ d) x (print_region_ d)
     (print_sample_number_ d) (encode_sample_number_ d)
     (show_position_history_ d) (font_scale_ d) (font_color_ d)
     (marker_size_ d) (camera_matrix_ d) (dist_coeff_ d).

Definition set_print_region_ (x : bool) (d : t) : t :=
  mk (pose_sources_ d) (decorate_position_ d) (print_timestamp_ d) x
     (print_sample_number_ d) (encode_sample_number_ d)
     (show_position_history_ d) (font_scale_ d) (font_color_ d)
     (marker_size_ d) (camera_matrix_ d) (dist_coeff_ d).

Definition set_print_sample_number_ (x : bool) (d : t) : t :=
  mk (pose_sources_ d) (decorate_position_ d) (print_timestamp_ d)
     (print_region_ d) x (encode_sample_number_ d)
     (show_position_history_ d) (font_scale_ d) (font_color_ d)
     (marker_size_ d) (camera_matrix_ d) (dist_coeff_ d).

Definition set_encode_sample_number_ (x : bool) (d : t) : t :=
  mk (pose_sources_ d) (decorate_position_ d) (print_timestamp_ d)
     (print_region_ d) (print_sample_number_ d) x
     (show_position_history_ d) (font_scale_ d) (font_color_ d)
     (marker_size_ d) (camera_matrix_ d) (dist_coeff_ d).

Definition set_show_position_history_ (x : bool) (d : t) : t :=
  mk (pose_sources_ d) (decorate_position_ d) (print_timestamp_ d)
     (print_region_ d) (print_sample_number_ d) (encode_sample_number_ d)
     x (font_scale_ d) (font_color_ d)
     (marker_size_ d) (camera_matrix_ d) (dist_coeff_ d).

Definition set_font_scale_ (x : float) (d : t) : t :=
  mk (pose_sources_ d) (decorate_position_ d) (print_timestamp_ d)
     (print_region_ d) (print_sample_number_ d) (encode_sample_number_ d)
     (show_position_history_ d) x (font_color_ d)
     (marker_size_ d) (camera_matrix_ d) (dist_coeff_ d).

Definition set_font_color_ (x : Scalar) (d : t) : t :=
  mk (pose_sources_ d) (decorate_position_ d) (print_timestamp_ d)
     (print_region_ d) (print_sample_number_ d) (encode_sample_number_ d)
     (show_position_history_ d) (font_scale_ d) x
     (marker_size_ d) (camera_matrix_ d) (dist_coeff_ d).

Definition set_marker_size_ (x : float) (d : t) : t :=
  mk (pose_sources_ d) (decorate_position_ d) (print_timestamp_ d)
     (print_region_ d) (print_sample_number_ d) (encode_sample_number_ d)
     (show_position_history_ d) (font_scale_ d) (font_color_ d)
     x (camera_matrix_ d) (dist_coeff_ d).

Definition set_camera_matrix_ (x : Position2D.Matx33 float) (d : t) : t :=
  mk (pose_sources_ d) (decorate_position_ d) (print_timestamp_ d)
     (print_region_ d) (print_sample_number_ d) (encode_sample_number_ d)
     (show_position_history_ d) (font_scale_ d) (font_color_ d)
     (marker_size_ d) x (dist_coeff_ d).

Definition set_dist_coeff_ (x : list float) (d : t) : t :=
  mk (pose_sources_ d) (decorate_position_ d) (print_timestamp_ d)
     (print_region_ d) (print_sample_number_ d) (encode_sample_number_ d)
     (show_position_history_ d) (font_scale_ d) (font_color_ d)
     (marker_size_ d) (camera_matrix_ d) x.

(** The loop that appends one named source for each address. *)
Definition push_back_sources (addrs : list string) (d : t) : t :=
  set_pose_sources_
    (pose_sources_ d ++ map (fun addr => (addr, new_source)) addrs) d.

(** The first block: the pose sources, from the command line only. *)
Definition configure_pose_sources
  (vm : gmap string ProgramOptions.variable_value) : M t (Result unit) :=
  match vm !! "pose-sources"%string with
  | Some value =>
      match ProgramOptions.as_strings value with
      | Normal p_source_addrs =>
          (if negb (length p_source_addrs =? 0) then
             modify (push_back_sources p_source_addrs)
           else modify (set_decorate_position_ false)) ;;;
          ret (Normal tt)
      | Thrown e => ret (Thrown e)
      end
  | None => ret (Normal tt)
  end.

(** cv::subtract(cv::Scalar(255, 255, 255), font_color_, font_color_); *)
Definition invert_font_color (d : t) : t :=
  set_font_color_ (subtract (255, 255, 255, 0)%float (font_color_ d)) d.

(** K[i]; [0] stands in where the vector is too short. *)
Definition at_index (K : list float) (i : nat) : float := nth i K 0%float.

(** The nine assignments to camera_matrix_. *)
Definition set_camera_from (K : list float) (d : t) : t :=
  set_camera_matrix_
    (Position2D.mkMatx33
       (at_index K 0) (at_index K 1) (at_index K 2)
       (at_index K 3) (at_index K 4) (at_index K 5)
       (at_index K 6) (at_index K 7) (at_index K 8)) d.

(** The last block: the distortion coefficients go straight into the
    member, and their number is looked at afterwards. *)
Definition configure_distortion
  (vm : gmap string ProgramOptions.variable_value) (tab : OptionTable)
  : M t (Result unit) :=
  match getArray_double vm tab "distortion-coeffs" with
  | DifferenceDetector.Found coeffs =>
      modify (set_dist_coeff_ coeffs) ;;;
      d <- get ;;
      if (length (dist_coeff_ d) <? 5) || (8 <? length (dist_coeff_ d)) then
        ret (Thrown (runtime_error
                       "Distortion coefficients consist of 5 to 8 values."))
      else ret (Normal tt)
  | DifferenceDetector.Absent => ret (Normal tt)
  | DifferenceDetector.Fails e => ret (Thrown e)
  end.

(** The statements of applyConfiguration, in order. *)
Definition statements
  (vm : gmap string ProgramOptions.variable_value) (tab : OptionTable)
  : list (M t (Result unit)) :=
  [ configure_pose_sources vm;
    apply_lookup (getValue_bool vm tab "timestamp") set_print_timestamp_;
    apply_lookup (getValue_bool vm tab "region") set_print_region_;
    apply_lookup (getValue_bool vm tab "sample") set_print_sample_number_;
    apply_lookup (getValue_bool vm tab "sample-code")
      set_encode_sample_number_;
    apply_lookup (getValue_bool vm tab "history") set_show_position_history_;
    apply_lookup (getNumericValue_double vm tab "font-scale" 0%float)
      set_font_scale_;
    apply_lookup (getValue_bool vm tab "invert-font")
      (fun _ => invert_font_color);
    apply_lookup (getNumericValue_double vm tab "marker-size" 0%float)
      set_marker_size_;
    apply_lookup (getArray_double_9 vm tab "camera-matrix") set_camera_from;
    configure_distortion vm tab ].

(** void Decorator::applyConfiguration(const po::variables_map &vm,
                                       const config::OptionTable &config_table) *)
Definition applyConfiguration
  (vm : gmap string ProgramOptions.variable_value) (tab : OptionTable)
  : M t (Result unit) :=
  run_all (statements vm tab).

End WithConfig.

End DecoratorConfig.

(** * Properties *)

(** ** The state monad *)

Lemma bind_run {S A B : Type} (m : M S A) (k : A -> M S B) (s : S) :
  bind m k s = k (fst (m s)) (snd (m s)).
Proof. unfold bind. destruct (m s); reflexivity. Qed.

(** ** The handshake checker *)

Lemma port_check_app (p : Port) (tr1 tr2 : list Event) (held : bool) :
  port_check p held (tr1 ++ tr2)
  = match port_check p held tr1 with
    | Some h => port_check p h tr2
    | None => None
    end.
Proof.
  revert held. induction tr1 as [|e tr1 IH]; intros held; [reflexivity|].
  destruct e; simpl; try apply IH;
    destruct (bool_decide (p0 = p)); try apply IH;
    destruct held; try apply IH; reflexivity.
Qed.

(** ** FrameBuffer *)

Section FrameBufferFacts.

Context {Frame : Type}.
Variable BUFFSIZE : nat.
Variable NDEBUG : bool.

Import FrameBuffer.

(** Unfolds the monadic code of the buffer down to record updates. *)
Ltac fb_unfold :=
  repeat progress
    (unfold FrameBuffer.push, FrameBuffer.pop_step, bind, get, modify, ret,
       emit, source_wait, source_clone, source_post, buffer_push,
       showBufferState, sink_wait, sink_post, copyTo_shared_frame_,
       buffer_consume_one, publish_one, cv_wait_for, Source.wait, Source.clone,
       Source.post, Sink.wait, Sink.post, set_io, set_source_, set_sink_,
       set_shared_frame_, set_buffer_, debug_trace, publish_trace,
       spsc_queue.read_available, spsc_queue.consume_one;
     simpl).

Lemma spsc_push_room {T : Type} (cap : nat) (x : T) (q : list T) :
  length q < cap -> spsc_queue.push cap x q = (true, q ++ [x]).
Proof.
  intros H. unfold spsc_queue.push. apply Nat.ltb_lt in H. rewrite H.
  reflexivity.
Qed.

Lemma spsc_push_full {T : Type} (cap : nat) (x : T) (q : list T) :
  cap <= length q -> spsc_queue.push cap x q = (false, q).
Proof.
  intros H. unfold spsc_queue.push. apply Nat.ltb_ge in H. rewrite H.
  reflexivity.
Qed.

Lemma push_at_END (b : FrameBuffer.t Frame) :
  Source.upcoming (source_ b) = [] ->
  push BUFFSIZE NDEBUG b = (true, set_io (io b ++ [EvWait FrameSrc END]) b).
Proof.
  intros Hup. destruct b as [[sh up] k slot ring run tr]. simpl in Hup.
  subst up. reflexivity.
Qed.

Lemma push_with_room (b : FrameBuffer.t Frame) (x : Frame) (rest : list Frame) :
  Source.upcoming (source_ b) = x :: rest ->
  length (buffer_ b) < BUFFSIZE ->
  push BUFFSIZE NDEBUG b
  = (false,
     mk (Source.mk x rest) (sink_ b) (shared_frame_ b) (buffer_ b ++ [x])
        (sink_running_ b)
        (io b ++ [EvWait FrameSrc BOUND; EvRead FrameSrc; EvPost FrameSrc;
                  EvNotify] ++ debug_trace NDEBUG (buffer_ b ++ [x]))).
Proof.
  intros Hup Hlen. destruct b as [[sh up] k slot ring run tr].
  simpl in Hup, Hlen. subst up.
  fb_unfold. rewrite (spsc_push_room _ _ _ Hlen).
  destruct NDEBUG; fb_unfold; rewrite <- !app_assoc; reflexivity.
Qed.

Lemma push_when_full (b : FrameBuffer.t Frame) (x : Frame) (rest : list Frame) :
  Source.upcoming (source_ b) = x :: rest ->
  BUFFSIZE <= length (buffer_ b) ->
  push BUFFSIZE NDEBUG b
  = (false,
     mk (Source.mk x rest) (sink_ b) (shared_frame_ b) (buffer_ b)
        (sink_running_ b)
        (io b ++ [EvWait FrameSrc BOUND; EvRead FrameSrc;
                  EvStderr ("Buffer overrun." ++ nl)%string;
                  EvPost FrameSrc; EvNotify]
             ++ debug_trace NDEBUG (buffer_ b))).
Proof.
  intros Hup Hlen. destruct b as [[sh up] k slot ring run tr].
  simpl in Hup, Hlen. subst up.
  fb_unfold. rewrite (spsc_push_full _ _ _ Hlen).
  destruct NDEBUG; fb_unfold; rewrite <- !app_assoc; reflexivity.
Qed.

Lemma pop_step_outer_stopped (cv : cv_status) (b : FrameBuffer.t Frame) :
  sink_running_ b = false -> pop_step cv AtOuterTest b = (Returned, b).
Proof.
  intros Hrun. destruct b as [src k slot ring run tr]. simpl in Hrun.
  subst run. reflexivity.
Qed.

Lemma pop_step_outer_running (cv : cv_status) (b : FrameBuffer.t Frame) :
  sink_running_ b = true ->
  pop_step cv AtOuterTest b
  = (match cv with timeout => AtOuterTest | no_timeout => AtInnerTest end,
     set_io (io b ++ [EvWaitFor 10 cv]) b).
Proof.
  intros Hrun. destruct b as [src k slot ring run tr]. simpl in Hrun.
  subst run. destruct cv; reflexivity.
Qed.

Lemma pop_step_inner_empty (cv : cv_status) (b : FrameBuffer.t Frame) :
  buffer_ b = [] -> pop_step cv AtInnerTest b = (AtOuterTest, b).
Proof.
  intros Hq. destruct b as [src k slot ring run tr]. simpl in Hq.
  subst ring. reflexivity.
Qed.

Lemma pop_step_inner_publish (cv : cv_status) (b : FrameBuffer.t Frame)
  (x : Frame) (q : list Frame) :
  buffer_ b = x :: q ->
  pop_step cv AtInnerTest b
  = (AtInnerTest,
     mk (source_ b) (Sink.mk (Sink.published (sink_ b) ++ [x])) x q
        (sink_running_ b) (io b ++ publish_trace)).
Proof.
  intros Hq. destruct b as [src k slot ring run tr]. simpl in Hq. subst ring.
  fb_unfold. rewrite <- !app_assoc. reflexivity.
Qed.

Lemma pop_step_returned (cv : cv_status) (b : FrameBuffer.t Frame) :
  pop_step cv Returned b = (Returned, b).
Proof. reflexivity. Qed.

Lemma pop_steps_cons (cv : cv_status) (cvs : list cv_status) (pc : PopPc)
  (b : FrameBuffer.t Frame) :
  pop_steps (cv :: cvs) pc b
  = pop_steps cvs (fst (pop_step cv pc b)) (snd (pop_step cv pc b)).
Proof.
  change (pop_steps (cv :: cvs) pc b)
    with (bind (pop_step cv pc) (fun pc' => pop_steps cvs pc') b).
  apply bind_run.
Qed.

Lemma pop_steps_one (cv : cv_status) (pc : PopPc) (b : FrameBuffer.t Frame) :
  pop_steps [cv] pc b = pop_step cv pc b.
Proof.
  rewrite pop_steps_cons. simpl. unfold ret. destruct (pop_step cv pc b).
  reflexivity.
Qed.

Lemma pop_steps_app (cvs1 cvs2 : list cv_status) (pc : PopPc)
  (b : FrameBuffer.t Frame) :
  pop_steps (cvs1 ++ cvs2) pc b
  = pop_steps cvs2 (fst (pop_steps cvs1 pc b)) (snd (pop_steps cvs1 pc b)).
Proof.
  revert pc b. induction cvs1 as [|cv cvs1 IH]; intros pc b; [reflexivity|].
  simpl app. rewrite !pop_steps_cons. apply IH.
Qed.

Lemma last_cons {T : Type} (x d : T) (q : list T) :
  List.last (x :: q) d = List.last q x.
Proof.
  revert x d. induction q as [|y q IH]; intros x d; [reflexivity|].
  change (List.last (x :: y :: q) d) with (List.last (y :: q) d).
  rewrite (IH y d), (IH y x). reflexivity.
Qed.

(** The inner loop of pop, left to itself, publishes the whole ring in
    order, one handshake per sample. *)
Lemma pop_drains (q : list Frame) :
  forall (cvs : list cv_status) (b : FrameBuffer.t Frame),
    length cvs = length q ->
    buffer_ b = q ->
    pop_steps cvs AtInnerTest b
    = (AtInnerTest,
       mk (source_ b) (Sink.mk (Sink.published (sink_ b) ++ q))
          (List.last q (shared_frame_ b)) [] (sink_running_ b)
          (io b ++ flat_map (fun _ => publish_trace) q)).
Proof.
  induction q as [|x q IH]; intros cvs b Hlen Hq.
  - destruct cvs; [|discriminate]. destruct b as [src [pub] slot ring run tr].
    simpl in Hq. subst ring. simpl. unfold ret. rewrite !app_nil_r.
    reflexivity.
  - destruct cvs as [|cv cvs]; [discriminate|]. simpl in Hlen.
    rewrite last_cons.
    rewrite pop_steps_cons, (pop_step_inner_publish cv b x q Hq).
    cbn [fst snd]. rewrite IH by (simpl; congruence). cbn.
    rewrite <- !app_assoc. reflexivity.
Qed.

(** *** Accounting over runs *)

Lemma overruns_reported_app (tr1 tr2 : list Event) :
  overruns_reported (tr1 ++ tr2)
  = overruns_reported tr1 + overruns_reported tr2.
Proof.
  unfold overruns_reported. rewrite List.filter_app, length_app. reflexivity.
Qed.

Lemma overruns_debug_trace (q : list Frame) :
  overruns_reported (debug_trace NDEBUG q) = 0.
Proof. unfold debug_trace. destruct NDEBUG; reflexivity. Qed.

(** Closes the three equations of the accounting lemmas. *)
Ltac accounted :=
  repeat split;
  rewrite ?overruns_reported_app, ?overruns_debug_trace, ?app_nil_r,
    <- ?app_assoc;
  try assumption; try reflexivity; try (simpl; lia).

Lemma step_accounts (a : Action) (s : PopPc * FrameBuffer.t Frame) :
  Sink.published (sink_ (snd (step BUFFSIZE NDEBUG a s)))
    ++ buffer_ (snd (step BUFFSIZE NDEBUG a s))
  = (Sink.published (sink_ (snd s)) ++ buffer_ (snd s))
    ++ map fst (List.filter snd (offer BUFFSIZE a s))
  /\ map fst (offer BUFFSIZE a s)
       ++ Source.upcoming (source_ (snd (step BUFFSIZE NDEBUG a s)))
     = Source.upcoming (source_ (snd s))
  /\ overruns_reported (io (snd (step BUFFSIZE NDEBUG a s)))
     = overruns_reported (io (snd s))
       + length (List.filter (fun o => negb (snd o)) (offer BUFFSIZE a s)).
Proof.
  destruct s as [pc b]. destruct a as [|cv|]; cbn [step offer fst snd].
  - destruct (Source.upcoming (source_ b)) as [|x rest] eqn:Hup.
    + rewrite (push_at_END b Hup). destruct b; simpl in *. accounted.
    + destruct (Nat.ltb_spec (length (buffer_ b)) BUFFSIZE) as [Hlt|Hge].
      * rewrite (push_with_room b x rest Hup Hlt).
        cbn [snd sink_ buffer_ source_ io Source.upcoming].
        simpl List.filter. simpl map. simpl length. accounted.
      * rewrite (push_when_full b x rest Hup Hge).
        cbn [snd sink_ buffer_ source_ io Source.upcoming].
        simpl List.filter. simpl map. simpl length. accounted.
  - simpl List.filter. simpl map. simpl length. destruct pc.
    + destruct (sink_running_ b) eqn:Hrun.
      * rewrite (pop_step_outer_running cv b Hrun). destruct b; simpl.
        accounted.
      * rewrite (pop_step_outer_stopped cv b Hrun). simpl. accounted.
    + destruct (buffer_ b) as [|x q] eqn:Hq.
      * rewrite (pop_step_inner_empty cv b Hq). simpl. rewrite Hq.
        accounted.
      * rewrite (pop_step_inner_publish cv b x q Hq). simpl. accounted.
    + rewrite pop_step_returned. simpl. accounted.
  - simpl List.filter. simpl map. simpl length. destruct b; simpl. accounted.
Qed.

Lemma exec_cons (a : Action) (run : list Action)
  (s : PopPc * FrameBuffer.t Frame) :
  exec BUFFSIZE NDEBUG (a :: run) s
  = exec BUFFSIZE NDEBUG run (step BUFFSIZE NDEBUG a s).
Proof. reflexivity. Qed.

Lemma exec_accounts (run : list Action) :
  forall s : PopPc * FrameBuffer.t Frame,
    Sink.published (sink_ (snd (exec BUFFSIZE NDEBUG run s)))
      ++ buffer_ (snd (exec BUFFSIZE NDEBUG run s))
    = (Sink.published (sink_ (snd s)) ++ buffer_ (snd s))
      ++ kept BUFFSIZE NDEBUG run s
    /\ produced BUFFSIZE NDEBUG run s
         ++ Source.upcoming (source_ (snd (exec BUFFSIZE NDEBUG run s)))
       = Source.upcoming (source_ (snd s))
    /\ overruns_reported (io (snd (exec BUFFSIZE NDEBUG run s)))
       = overruns_reported (io (snd s))
         + length (dropped BUFFSIZE NDEBUG run s).
Proof.
  induction run as [|a run IH]; intros s.
  - unfold kept, produced, dropped. simpl. accounted.
  - rewrite exec_cons.
    destruct (IH (step BUFFSIZE NDEBUG a s)) as (IH1 & IH2 & IH3).
    destruct (step_accounts a s) as (S1 & S2 & S3).
    unfold kept, produced, dropped in *. simpl offered.
    rewrite !List.filter_app, !map_app, !length_app, !length_map.
    rewrite IH1, IH3, S1, S3, <- S2, <- IH2. rewrite !length_map.
    rewrite <- !app_assoc. repeat split; lia.
Qed.

Lemma offered_split (run : list Action) (s : PopPc * FrameBuffer.t Frame) :
  length (produced BUFFSIZE NDEBUG run s)
  = length (kept BUFFSIZE NDEBUG run s)
    + length (dropped BUFFSIZE NDEBUG run s).
Proof.
  unfold produced, kept, dropped. rewrite !length_map.
  induction (offered BUFFSIZE NDEBUG run s) as [|[x [|]] l IH];
    simpl; lia.
Qed.

(** *** Overrun *)

(** C1 (amended).  When a sample arrives from the upstream source and the
    ring is full, push discards the incoming sample: the ring keeps its
    contents, the oldest value included.  No member of the buffer counts
    overruns; the overrun is reported by the line "Buffer overrun." on
    standard error.  Nothing is thrown: push posts to the source, notifies
    the pop thread and returns false, so the push loop goes on. *)
Theorem push_full_ring_rejects_sample
  (b : FrameBuffer.t Frame) (x : Frame) (rest : list Frame) :
  Source.upcoming (source_ b) = x :: rest ->
  length (buffer_ b) = BUFFSIZE ->
  fst (push BUFFSIZE NDEBUG b) = false
  /\ buffer_ (snd (push BUFFSIZE NDEBUG b)) = buffer_ b
  /\ sink_ (snd (push BUFFSIZE NDEBUG b)) = sink_ b
  /\ shared_frame_ (snd (push BUFFSIZE NDEBUG b)) = shared_frame_ b
  /\ sink_running_ (snd (push BUFFSIZE NDEBUG b)) = sink_running_ b
  /\ source_ (snd (push BUFFSIZE NDEBUG b)) = Source.mk x rest
  /\ io (snd (push BUFFSIZE NDEBUG b))
     = io b ++ [EvWait FrameSrc BOUND; EvRead FrameSrc;
                EvStderr ("Buffer overrun." ++ nl)%string;
                EvPost FrameSrc; EvNotify]
            ++ debug_trace NDEBUG (buffer_ b).
Proof.
  intros Hup Hfull.
  rewrite (push_when_full b x rest Hup) by lia.
  repeat split.
Qed.

(** *** Accounting *)

(** C2 (amended).  For every run of the buffer that starts with an empty
    ring, whatever the interleaving of push calls and pop steps: the
    number of samples taken from upstream equals the number copied
    downstream, plus the number of overruns reported, plus the number of
    samples still in the ring; the samples copied downstream followed by
    those still in the ring are the samples taken from upstream without
    the dropped ones, in the same order; the overruns reported are the
    dropped samples; and the samples taken are the first ones upstream
    had to offer. *)
Theorem buffer_run_accounting
  (up : Source.t Frame) (slot : Frame) (pc : PopPc) (run : list Action) :
  length (produced BUFFSIZE NDEBUG run (pc, connected up slot))
  = length (Sink.published
              (sink_ (snd (exec BUFFSIZE NDEBUG run (pc, connected up slot)))))
    + overruns_reported
        (io (snd (exec BUFFSIZE NDEBUG run (pc, connected up slot))))
    + length (buffer_ (snd (exec BUFFSIZE NDEBUG run (pc, connected up slot))))
  /\ Sink.published
       (sink_ (snd (exec BUFFSIZE NDEBUG run (pc, connected up slot))))
     ++ buffer_ (snd (exec BUFFSIZE NDEBUG run (pc, connected up slot)))
     = kept BUFFSIZE NDEBUG run (pc, connected up slot)
  /\ overruns_reported
       (io (snd (exec BUFFSIZE NDEBUG run (pc, connected up slot))))
     = length (dropped BUFFSIZE NDEBUG run (pc, connected up slot))
  /\ produced BUFFSIZE NDEBUG run (pc, connected up slot)
     ++ Source.upcoming
          (source_ (snd (exec BUFFSIZE NDEBUG run (pc, connected up slot))))
     = Source.upcoming up.
Proof.
  destruct (exec_accounts run (pc, connected up slot)) as (H1 & H2 & H3).
  pose proof (offered_split run (pc, connected up slot)) as Hsplit.
  simpl in H1, H2, H3.
  assert (Hk : length (kept BUFFSIZE NDEBUG run (pc, connected up slot))
               = length (Sink.published
                   (sink_ (snd (exec BUFFSIZE NDEBUG run
                                  (pc, connected up slot)))))
                 + length (buffer_ (snd (exec BUFFSIZE NDEBUG run
                                           (pc, connected up slot))))).
  { rewrite <- H1, length_app. reflexivity. }
  repeat split; try assumption. lia.
Qed.

(** Where the run ends with an empty ring, the equations hold without the
    ring. *)
Corollary drained_run_accounting
  (up : Source.t Frame) (slot : Frame) (pc : PopPc) (run : list Action) :
  buffer_ (snd (exec BUFFSIZE NDEBUG run (pc, connected up slot))) = [] ->
  length (produced BUFFSIZE NDEBUG run (pc, connected up slot))
  = length (Sink.published
              (sink_ (snd (exec BUFFSIZE NDEBUG run (pc, connected up slot)))))
    + length (dropped BUFFSIZE NDEBUG run (pc, connected up slot))
  /\ Sink.published
       (sink_ (snd (exec BUFFSIZE NDEBUG run (pc, connected up slot))))
     = kept BUFFSIZE NDEBUG run (pc, connected up slot).
Proof.
  intros Hq.
  destruct (exec_accounts run (pc, connected up slot)) as (H1 & H2 & H3).
  pose proof (offered_split run (pc, connected up slot)) as Hsplit.
  rewrite Hq, app_nil_r in H1. simpl in H1. rewrite <- H1 in *.
  split; [lia | reflexivity].
Qed.

(** *** End of stream and shutdown *)

(** C3 (amended).  If the upstream source reports END, push returns true
    to its caller and does nothing else: no member of the buffer changes,
    [sink_running_] stays as it is and the pop thread is not notified.
    Once [sink_running_] has been cleared (which push and pop never do),
    a pop thread at the test of its outer loop returns there and then and
    leaves the samples of the ring unpublished; a pop thread inside its
    publishing loop publishes the samples of the ring in order and then
    returns.  pop does nothing else on the downstream sink. *)
Theorem push_END_and_pop_shutdown
  (b : FrameBuffer.t Frame) (cv : cv_status) (cvs : list cv_status) :
  Source.upcoming (source_ b) = [] ->
  push BUFFSIZE NDEBUG b = (true, set_io (io b ++ [EvWait FrameSrc END]) b)
  /\ pop (cv :: cvs)
       (set_sink_running_ false (snd (push BUFFSIZE NDEBUG b)))
     = (Returned, set_sink_running_ false (snd (push BUFFSIZE NDEBUG b)))
  /\ pop_steps (replicate (length (buffer_ b) + 2) cv) AtInnerTest
       (set_sink_running_ false (snd (push BUFFSIZE NDEBUG b)))
     = (Returned,
        mk (source_ b) (Sink.mk (Sink.published (sink_ b) ++ buffer_ b))
           (List.last (buffer_ b) (shared_frame_ b)) [] false
           (io b ++ EvWait FrameSrc END
                 :: flat_map (fun _ => publish_trace) (buffer_ b))).
Proof.
  intros Hup. rewrite (push_at_END b Hup). split; [reflexivity|].
  cbn [snd]. unfold pop. split.
  - rewrite pop_steps_cons, pop_step_outer_stopped by reflexivity.
    cbn [fst snd]. induction cvs as [|cv' cvs' IH]; [reflexivity|].
    rewrite pop_steps_cons, pop_step_returned. exact IH.
  - replace (length (buffer_ b) + 2) with (length (buffer_ b) + (1 + 1))
      by lia.
    rewrite !replicate_add, !pop_steps_app.
    rewrite (pop_drains (buffer_ b)); [|apply length_replicate|reflexivity].
    cbn [fst snd replicate]. rewrite !pop_steps_one.
    rewrite pop_step_inner_empty by reflexivity. cbn [fst snd].
    rewrite pop_step_outer_stopped by reflexivity.
    cbn. rewrite <- app_assoc. reflexivity.
Qed.

(** *** Waking the pop thread *)



End FrameBufferFacts.

(** Witnesses and counterexamples, with natural numbers as frames and a
    ring of two. *)

Lemma push_full_ring_rejects_sample_witness :
  let b := FrameBuffer.mk (Source.mk 0 [3; 4]) (Sink.mk [])
             0 [1; 2] true [] in
  fst (FrameBuffer.push 2 true b) = false
  /\ FrameBuffer.buffer_ (snd (FrameBuffer.push 2 true b)) = [1; 2]
  /\ FrameBuffer.io (snd (FrameBuffer.push 2 true b))
     = [EvWait FrameSrc BOUND; EvRead FrameSrc;
        EvStderr ("Buffer overrun." ++ nl)%string; EvPost FrameSrc; EvNotify].
Proof.
  intros b.
  destruct (push_full_ring_rejects_sample 2 true b 3 [4] eq_refl eq_refl)
    as (H1 & H2 & _ & _ & _ & _ & H7).
  exact (conj H1 (conj H2 H7)).
Defined.

(** C1 as stated fails: with the ring [1; 2] full and sample 3 arriving,
    the oldest value 1 is still at the head of the ring after push, and
    the ring is not [2; 3]. *)
Lemma push_full_ring_keeps_oldest :
  let b := FrameBuffer.mk (Source.mk 0 [3; 4]) (Sink.mk [])
             0 [1; 2] true [] in
  length (FrameBuffer.buffer_ b) = 2
  /\ head (FrameBuffer.buffer_ (snd (FrameBuffer.push 2 true b))) = Some 1
  /\ FrameBuffer.buffer_ (snd (FrameBuffer.push 2 true b)) <> [2; 3].
Proof. simpl. repeat split. discriminate. Qed.

(** C2 as stated fails: sample 7 is taken from upstream and accepted by
    the ring while the pop thread is not waiting, so the notification is
    lost and the wait times out; upstream ends, the buffer is stopped and
    pop returns.  One sample was produced, none was copied downstream and
    none was dropped. *)
Lemma buffer_run_sample_left_in_ring :
  let s0 := (FrameBuffer.AtOuterTest,
             FrameBuffer.connected (Source.mk 0 [7]) 0) in
  let run := [FrameBuffer.CallPush; FrameBuffer.StepPop timeout;
              FrameBuffer.CallPush; FrameBuffer.ClearRunning;
              FrameBuffer.StepPop timeout] in
  fst (FrameBuffer.exec 2 true run s0) = FrameBuffer.Returned
  /\ length (FrameBuffer.produced 2 true run s0)
     <> length (Sink.published
                  (FrameBuffer.sink_ (snd (FrameBuffer.exec 2 true run s0))))
        + FrameBuffer.overruns_reported
            (FrameBuffer.io (snd (FrameBuffer.exec 2 true run s0)))
  /\ Sink.published
       (FrameBuffer.sink_ (snd (FrameBuffer.exec 2 true run s0)))
     <> FrameBuffer.kept 2 true run s0.
Proof. simpl. repeat split; discriminate. Qed.

Lemma push_END_and_pop_shutdown_witness :
  let b := FrameBuffer.mk (Source.mk 4 []) (Sink.mk [3]) 3 [5; 6] true [] in
  FrameBuffer.push 2 true b
  = (true, FrameBuffer.set_io [EvWait FrameSrc END] b)
  /\ FrameBuffer.pop [timeout]
       (FrameBuffer.set_sink_running_ false (snd (FrameBuffer.push 2 true b)))
     = (FrameBuffer.Returned,
        FrameBuffer.set_sink_running_ false (snd (FrameBuffer.push 2 true b))).
Proof.
  intros b.
  destruct (push_END_and_pop_shutdown 2 true b timeout [] eq_refl)
    as (H1 & H2 & _).
  exact (conj H1 H2).
Defined.

(** C3 as stated fails: upstream is at END with sample 5 in the ring and
    the pop thread at its outer test.  push returns true and leaves
    [sink_running_] set; once the flag is cleared, pop returns with the
    sample still in the ring and nothing published. *)
Lemma pop_returns_without_draining :
  let b := FrameBuffer.mk (Source.mk 4 []) (Sink.mk []) 0 [5] true [] in
  let run := [FrameBuffer.CallPush; FrameBuffer.ClearRunning;
              FrameBuffer.StepPop timeout] in
  fst (FrameBuffer.push 2 true b) = true
  /\ FrameBuffer.sink_running_ (snd (FrameBuffer.push 2 true b)) = true
  /\ fst (FrameBuffer.exec 2 true run (FrameBuffer.AtOuterTest, b))
     = FrameBuffer.Returned
  /\ FrameBuffer.buffer_
       (snd (FrameBuffer.exec 2 true run (FrameBuffer.AtOuterTest, b))) = [5]
  /\ Sink.published
       (FrameBuffer.sink_
          (snd (FrameBuffer.exec 2 true run (FrameBuffer.AtOuterTest, b))))
     = [].
Proof. simpl. repeat split. Qed.



(** ** The handshake in the consumers *)

Lemma disciplined_nil : disciplined [].
Proof. intros p. reflexivity. Qed.

Lemma disciplined_app (tr1 tr2 : list Event) :
  disciplined tr1 -> disciplined tr2 -> disciplined (tr1 ++ tr2).
Proof.
  intros H1 H2 p. rewrite port_check_app, (H1 p). apply H2.
Qed.

(** A wait that is not at END, one read and the post. *)
Lemma disciplined_consume (q : Port) (r : NodeState) :
  at_END r = false -> disciplined [EvWait q r; EvRead q; EvPost q].
Proof.
  intros Hr p. simpl. destruct (bool_decide (q = p)); [|reflexivity].
  rewrite Hr. reflexivity.
Qed.

(** A wait at END and nothing after it. *)
Lemma disciplined_end (q : Port) : disciplined [EvWait q END].
Proof. intros p. simpl. destruct (bool_decide (q = p)); reflexivity. Qed.

(** A wait of the sink, one write and the post. *)
Lemma disciplined_publish :
  disciplined [EvWait FrameSnk BOUND; EvWrite FrameSnk; EvPost FrameSnk].
Proof. intros p. simpl. destruct (bool_decide (FrameSnk = p)); reflexivity. Qed.

Lemma disciplined_skip (e : Event) (tr : list Event) :
  match e with
  | EvWait _ _ | EvRead _ | EvWrite _ | EvPost _ => False
  | _ => True
  end ->
  disciplined tr -> disciplined (e :: tr).
Proof. intros He H p. destruct e; try contradiction; apply H. Qed.

Create HintDb handshake.

#[local] Hint Resolve disciplined_nil disciplined_end disciplined_publish
  disciplined_app : handshake.

Section DecoratorFacts.

Context {Frame Pose Drawing : Type}.
Variable decorate : Frame -> list Pose -> Drawing -> Frame * Drawing.

Import Decorator.

(** Unfolds the monadic code of the decorator down to record updates. *)
Ltac dec_unfold :=
  repeat progress
    (unfold bind, get, modify, ret, emit, frame_source_wait,
       frame_source_copyTo, frame_source_post, pose_source_wait,
       pose_source_clone, pose_source_post, frame_sink_wait,
       copyTo_shared_frame_, frame_sink_post, call_decorate, Source.wait,
       Source.clone, Source.post, Sink.wait, Sink.post, set_io,
       set_frame_source_, set_pose_sources_, set_frame_sink_,
       set_shared_frame_, set_drawing;
     simpl).

Lemma get_poses_disciplined (n : nat) :
  forall (i : nat) (poses : list Pose) (d : Decorator.t Frame Pose Drawing),
  exists tr : list Event,
    io (snd (get_poses n i poses d)) = io d ++ tr /\ disciplined tr.
Proof.
  induction n as [|n IH]; intros i poses d.
  - exists []. simpl. rewrite app_nil_r. split; [reflexivity|].
    apply disciplined_nil.
  - destruct d as [fs ps fk slot dr tr0].
    cbn [get_poses]. rewrite bind_run.
    unfold pose_source_wait at 1 2. rewrite !bind_run.
    cbn [get fst snd pose_sources_].
    destruct (ps !! i) as [[sh up]|] eqn:Hi.
    + destruct up as [|x rest].
      * exists [EvWait (PoseSrc i) END]. simpl. split; [reflexivity|].
        apply disciplined_end.
      * dec_unfold.
        match goal with
        | |- context [get_poses n (S i) ?pp ?dd] =>
            destruct (IH (S i) pp dd) as (tr & Hio & Htr)
        end.
        exists ([EvWait (PoseSrc i) BOUND; EvRead (PoseSrc i);
                 EvPost (PoseSrc i)] ++ tr).
        split.
        -- rewrite Hio. simpl. rewrite <- !app_assoc. reflexivity.
        -- apply disciplined_app; [|exact Htr].
           apply disciplined_consume. reflexivity.
    + exists []. simpl. rewrite app_nil_r. split; [reflexivity|].
      apply disciplined_nil.
Qed.

Lemma process_disciplined (d : Decorator.t Frame Pose Drawing) :
  exists tr : list Event,
    io (snd (process decorate d)) = io d ++ tr /\ disciplined tr.
Proof.
  destruct d as [[sh up] ps fk slot dr tr0]. destruct up as [|x rest].
  - exists [EvWait FrameSrc END]. split; [reflexivity|].
    apply disciplined_end.
  - unfold process. dec_unfold.
    match goal with
    | |- context [get_poses ?n ?i ?pp ?dd] =>
        destruct (get_poses_disciplined n i pp dd) as (tr & Hio & Htr);
        destruct (get_poses n i pp dd) as [[poses|] d'] eqn:Hloop
    end.
    + simpl in Hio. destruct (decorate x poses (drawing d')) as [fr dr'].
      dec_unfold.
      exists ([EvWait FrameSrc BOUND; EvRead FrameSrc; EvPost FrameSrc]
              ++ tr
              ++ [EvWait FrameSnk BOUND; EvWrite FrameSnk; EvPost FrameSnk]).
      split.
      * rewrite Hio. rewrite <- !app_assoc. reflexivity.
      * apply disciplined_app; [apply disciplined_consume; reflexivity|].
        apply disciplined_app; [exact Htr|apply disciplined_publish].
    + simpl in Hio.
      exists ([EvWait FrameSrc BOUND; EvRead FrameSrc; EvPost FrameSrc]
              ++ tr).
      split.
      * simpl. rewrite Hio. rewrite <- !app_assoc. reflexivity.
      * apply disciplined_app; [apply disciplined_consume; reflexivity|].
        exact Htr.
Qed.

End DecoratorFacts.

Section BufferHandshake.

Context {Frame : Type}.
Variable BUFFSIZE : nat.
Variable NDEBUG : bool.

Import FrameBuffer.

Lemma disciplined_debug_trace (q : list Frame) :
  disciplined (debug_trace NDEBUG q).
Proof. unfold debug_trace. destruct NDEBUG; intros p; reflexivity. Qed.

Lemma push_disciplined (b : FrameBuffer.t Frame) :
  exists tr : list Event,
    io (snd (push BUFFSIZE NDEBUG b)) = io b ++ tr /\ disciplined tr.
Proof.
  destruct (Source.upcoming (source_ b)) as [|x rest] eqn:Hup.
  - rewrite (push_at_END BUFFSIZE NDEBUG b Hup).
    exists [EvWait FrameSrc END]. split; auto with handshake.
  - destruct (Nat.ltb_spec (length (buffer_ b)) BUFFSIZE) as [Hlt|Hge].
    + rewrite (push_with_room BUFFSIZE NDEBUG b x rest Hup Hlt).
      eexists. split; [reflexivity|].
      apply (disciplined_app [_; _; _] (_ :: _));
        [apply disciplined_consume; reflexivity|].
      apply disciplined_skip; [exact I|apply disciplined_debug_trace].
    + rewrite (push_when_full BUFFSIZE NDEBUG b x rest Hup Hge).
      eexists. split; [reflexivity|].
      intros p. pose proof (disciplined_debug_trace (buffer_ b) p) as Hd.
      simpl. destruct (bool_decide (FrameSrc = p)); exact Hd.
Qed.

Lemma pop_step_disciplined (cv : cv_status) (pc : PopPc)
  (b : FrameBuffer.t Frame) :
  exists tr : list Event,
    io (snd (pop_step cv pc b)) = io b ++ tr /\ disciplined tr.
Proof.
  destruct pc.
  - destruct (sink_running_ b) eqn:Hrun.
    + rewrite (pop_step_outer_running cv b Hrun).
      exists [EvWaitFor 10 cv]. split; [reflexivity|].
      intros p. reflexivity.
    + rewrite (pop_step_outer_stopped cv b Hrun).
      exists []. rewrite app_nil_r. split; auto with handshake.
  - destruct (buffer_ b) as [|x q] eqn:Hq.
    + rewrite (pop_step_inner_empty cv b Hq).
      exists []. rewrite app_nil_r. split; auto with handshake.
    + rewrite (pop_step_inner_publish cv b x q Hq).
      exists publish_trace. split; auto with handshake.
  - exists []. rewrite app_nil_r. split; auto with handshake.
Qed.

End BufferHandshake.

(** The checker and the counts: along a trace that keeps the discipline
    on [p], the posts on [p] are as many as the waits on [p] that did not
    return END, up to the one critical section that is open at either
    end. *)
Lemma port_check_counts (p : Port) (tr : list Event) :
  forall h0 h : bool,
    port_check p h0 tr = Some h ->
    count_ok_waits p tr + (if h0 then 1 else 0)
    = count_posts p tr + (if h then 1 else 0).
Proof.
  unfold count_ok_waits, count_posts.
  induction tr as [|e tr IH]; intros h0 h Hc.
  - simpl in Hc. injection Hc as <-. reflexivity.
  - destruct e as [q r|q|q|q| | | | |]; simpl in Hc |- *;
      try (destruct (bool_decide (q = p)); simpl);
      try (destruct h0; try discriminate);
      try (destruct r; simpl in *);
      apply IH in Hc; simpl in Hc; lia.
Qed.

Lemma disciplined_counts (tr : list Event) (p : Port) :
  disciplined tr -> count_ok_waits p tr = count_posts p tr.
Proof.
  intros H. pose proof (port_check_counts p tr false false (H p)). lia.
Qed.

Section MatclientFacts.

Context {Mat : Type}.

Import Matclient.

(** Unfolds the monadic code of the client down to record updates. *)
Ltac mc_unfold :=
  repeat progress
    (unfold bind, get, modify, ret, emit, loop_body, source_wait,
       clone_to_local, source_post, sigHandler, Source.wait, Source.clone,
       Source.post;
     simpl).

Lemma loop_body_trace (sig : bool) (m : Matclient.t Mat) :
  exists r : NodeState,
    io (snd (loop_body sig m)) = io m ++ pass_trace r
    /\ quit (snd (loop_body sig m)) = (if sig then 1%Z else quit m).
Proof.
  destruct m as [q [sh up] loc tr].
  destruct up as [|x rest]; [exists END|exists BOUND];
    destruct sig; mc_unfold; rewrite <- !app_assoc; split; reflexivity.
Qed.

Lemma loop_trace (sigs : list bool) :
  forall m : Matclient.t Mat,
  exists rs : list NodeState,
    io (snd (loop sigs m)) = io m ++ flat_map pass_trace rs
    /\ length rs <= length sigs
    /\ (fst (loop sigs m) = true -> quit (snd (loop sigs m)) <> 0%Z).
Proof.
  induction sigs as [|sig sigs IH]; intros m.
  - exists []. cbn [loop]. rewrite bind_run. cbn [get fst snd].
    destruct (quit m =? 0)%Z eqn:Hq; simpl; rewrite app_nil_r;
      repeat split; try lia; try discriminate.
  - cbn [loop]. rewrite bind_run. cbn [get fst snd].
    destruct (quit m =? 0)%Z eqn:Hq; cbn [negb].
    + rewrite bind_run.
      destruct (loop_body_trace sig m) as (r & Hio & _).
      destruct (IH (snd (loop_body sig m))) as (rs & Hio' & Hlen & Hquit).
      exists (r :: rs). rewrite Hio', Hio. simpl flat_map.
      rewrite <- app_assoc. repeat split; [simpl; lia|exact Hquit].
    + exists []. simpl. rewrite app_nil_r. repeat split; lia.
Qed.

Lemma main_trace (early : bool) (sigs : list bool) (m : Matclient.t Mat) :
  exists (r0 : NodeState) (rs : list NodeState),
    io (snd (main early sigs m))
    = io m ++ EvWait FrameSrc r0 :: flat_map pass_trace rs
    /\ length rs <= length sigs.
Proof.
  unfold main. rewrite !bind_run.
  set (m1 := snd ((if early then modify (sigHandler Driver.SIGINT)
                   else ret tt) m)).
  assert (Hm1 : io m1 = io m) by (subst m1; destruct early; reflexivity).
  set (m2 := snd (source_wait m1)).
  assert (Hm2 : exists r0, io m2 = io m ++ [EvWait FrameSrc r0]).
  { subst m2. rewrite <- Hm1. destruct m1 as [q [sh up] loc tr].
    destruct up as [|x rest]; [exists END|exists BOUND]; reflexivity. }
  destruct Hm2 as (r0 & Hm2).
  destruct (loop_trace sigs m2) as (rs & Hio & Hlen & _).
  exists r0, rs. cbn [ret fst snd]. rewrite Hio, Hm2, <- app_assoc.
  split; [reflexivity|exact Hlen].
Qed.

Lemma count_pass_traces (rs : list NodeState) :
  count_waits FrameSrc (flat_map pass_trace rs) = length rs
  /\ count_posts FrameSrc (flat_map pass_trace rs) = length rs.
Proof.
  unfold count_waits, count_posts.
  induction rs as [|r rs [IH1 IH2]]; [split; reflexivity|].
  simpl. rewrite IH1, IH2. split; reflexivity.
Qed.

End MatclientFacts.

(** C5 (amended).  In every call of Decorator::process and of
    FrameBuffer::push the shared payload is read (copyTo, clone) only
    between a source wait that did not return END and the post that
    matches it, with exactly one post for each such wait; the write to the
    shared frame of the sink (Decorator::process, FrameBuffer::pop) lies
    between the wait and the post of the sink.  In the matclient program
    every read lies between a wait and the post that follows it, but the
    result of the wait is not looked at, and the last wait (the one before
    the loop where the loop body never runs) has no post: the program
    waits once more than it posts. *)
Theorem consumers_handshake {Frame Pose Drawing Mat : Type}
  (decorate : Frame -> list Pose -> Drawing -> Frame * Drawing)
  (BUFFSIZE : nat) (NDEBUG : bool)
  (d : Decorator.t Frame Pose Drawing) (b : FrameBuffer.t Frame)
  (cv : cv_status) (pc : FrameBuffer.PopPc)
  (m : Matclient.t Mat) (early : bool) (sigs : list bool) :
  (exists tr : list Event,
     Decorator.io (snd (Decorator.process decorate d))
     = Decorator.io d ++ tr
     /\ disciplined tr
     /\ forall p : Port, count_ok_waits p tr = count_posts p tr)
  /\ (exists tr : list Event,
        FrameBuffer.io (snd (FrameBuffer.push BUFFSIZE NDEBUG b))
        = FrameBuffer.io b ++ tr
        /\ disciplined tr
        /\ forall p : Port, count_ok_waits p tr = count_posts p tr)
  /\ (exists tr : list Event,
        FrameBuffer.io (snd (FrameBuffer.pop_step cv pc b))
        = FrameBuffer.io b ++ tr
        /\ disciplined tr)
  /\ (exists (r0 : NodeState) (rs : list NodeState),
        Matclient.io (snd (Matclient.main early sigs m))
        = Matclient.io m
            ++ EvWait FrameSrc r0 :: flat_map Matclient.pass_trace rs
        /\ count_waits FrameSrc
             (EvWait FrameSrc r0 :: flat_map Matclient.pass_trace rs)
           = S (count_posts FrameSrc
                  (EvWait FrameSrc r0 :: flat_map Matclient.pass_trace rs))).
Proof.
  split; [|split; [|split]].
  - destruct (process_disciplined decorate d) as (tr & Hio & Htr).
    exists tr. repeat split; [exact Hio|exact Htr|].
    intros p. apply disciplined_counts. exact Htr.
  - destruct (push_disciplined BUFFSIZE NDEBUG b) as (tr & Hio & Htr).
    exists tr. repeat split; [exact Hio|exact Htr|].
    intros p. apply disciplined_counts. exact Htr.
  - apply pop_step_disciplined.
  - destruct (main_trace early sigs m) as (r0 & rs & Hio & _).
    exists r0, rs. split; [exact Hio|].
    destruct (count_pass_traces rs) as [Hw Hp].
    unfold count_waits, count_posts in *. simpl. rewrite Hw, Hp.
    reflexivity.
Qed.

(** C5 as stated fails in matclient: with three frames upstream and SIGINT
    arriving during the first pass through the loop, the program waits,
    clones, posts, waits again and returns 0.  Both waits were served, one
    post was made, and the program ends inside the critical section. *)
Lemma matclient_last_wait_unposted :
  let m := Matclient.mk 0 (Source.mk 0 [1; 2; 3]) 0 [] in
  fst (Matclient.main false [true] m) = Some 0%Z
  /\ Matclient.io (snd (Matclient.main false [true] m))
     = [EvWait FrameSrc BOUND; EvRead FrameSrc; EvPost FrameSrc; EvShow 0;
        EvWait FrameSrc BOUND]
  /\ count_ok_waits FrameSrc
       (Matclient.io (snd (Matclient.main false [true] m)))
     <> count_posts FrameSrc
          (Matclient.io (snd (Matclient.main false [true] m)))
  /\ port_check FrameSrc false
       (Matclient.io (snd (Matclient.main false [true] m)))
     <> Some false.
Proof. simpl. repeat split; discriminate. Qed.

(** ** The driver loops *)

Section DriverFacts.

Context {Component : Type}.
Variable process : Component -> Result Z * Component.

Import Driver.

Lemma run_exit (d : Disposition) (sigs : list bool) (calls : nat)
  (g : Globals) (c : Component) :
  quit g <> 0%Z \/ source_eof g <> 0%Z ->
  run process d sigs calls g c = Some (LoopExit calls g c).
Proof.
  intros H.
  assert (Hc : negb (quit g =? 0)%Z || negb (source_eof g =? 0)%Z = true).
  { destruct H as [H|H]; apply Z.eqb_neq in H; rewrite H;
      [reflexivity|apply orb_true_r]. }
  destruct sigs; simpl; rewrite Hc; reflexivity.
Qed.

Lemma run_call (d : Disposition) (sig : bool) (sigs : list bool) (calls : nat)
  (g g' : Globals) (c : Component) :
  quit g = 0%Z -> source_eof g = 0%Z ->
  (if sig then deliver_SIGINT d g else Some g) = Some g' ->
  run process d (sig :: sigs) calls g c
  = match process c with
    | (Normal v, c') => run process d sigs (S calls) (mkGlobals (quit g') v) c'
    | (Thrown e, _) => Some (Raised (S calls) e)
    end.
Proof.
  intros Hq He Hd. simpl. rewrite Hq, He, Hd. reflexivity.
Qed.

(** The loop runs as long as process returns 0 and no signal arrives. *)
Lemma run_quiet_prefix (d : Disposition) (k : nat) :
  forall (sigs : list bool) (calls : nat) (g : Globals) (c : Component),
    quit g = 0%Z -> source_eof g = 0%Z ->
    (forall i, i < k -> sigs !! i = Some false) ->
    (forall i, i < k -> fst (nth_call process i c) = Normal 0%Z) ->
    exists c' : Component,
      run process d sigs calls g c
      = run process d (drop k sigs) (k + calls) g c'
      /\ forall j, nth_call process (k + j) c = nth_call process j c'.
Proof.
  induction k as [|k IH]; intros sigs calls g c Hq He Hsig Hret.
  - exists c. rewrite drop_0. split; reflexivity.
  - destruct sigs as [|sig sigs].
    { specialize (Hsig 0 ltac:(lia)). discriminate. }
    pose proof (Hsig 0 ltac:(lia)) as H0. simpl in H0.
    injection H0 as ->.
    pose proof (Hret 0 ltac:(lia)) as R0. simpl in R0.
    rewrite (run_call d false sigs calls g g c Hq He eq_refl).
    destruct (process c) as [r c1] eqn:Hp. simpl in R0. subst r.
    destruct g as [q e]. simpl in Hq, He. subst q e. simpl.
    destruct (IH sigs (S calls) (mkGlobals 0 0) c1 eq_refl eq_refl)
      as (c' & Hrun & Hnth).
    + intros i Hi. apply (Hsig (S i)). lia.
    + intros i Hi. specialize (Hret (S i) ltac:(lia)). simpl in Hret.
      rewrite Hp in Hret. exact Hret.
    + exists c'. split.
      * rewrite Hrun. f_equal. lia.
      * intros j. simpl. rewrite Hp. apply Hnth.
Qed.

Lemma sigHandler_sets_quit (s : Z) (g : Globals) :
  quit (sigHandler s g) = 1%Z /\ source_eof (sigHandler s g) = source_eof g.
Proof. split; reflexivity. Qed.

(** The call during or after which the loop condition fails is the last. *)
Lemma run_last_call (k : nat) (sigs : list bool) (sig : bool) (c : Component)
  (v : Z) :
  sigs !! k = Some sig ->
  (forall i, i < k -> sigs !! i = Some false) ->
  (forall i, i < k -> fst (nth_call process i c) = Normal 0%Z) ->
  fst (nth_call process k c) = Normal v ->
  sig = true \/ v <> 0%Z ->
  exists c' : Component,
    run process (Handler sigHandler) sigs 0 initial_globals c
    = Some (LoopExit (S k) (mkGlobals (if sig then 1 else 0) v) c').
Proof.
  intros Hk Hsig Hret Hv Hstop.
  destruct (run_quiet_prefix (Handler sigHandler) k sigs 0 initial_globals c
              eq_refl eq_refl Hsig Hret) as (c1 & Hrun & Hnth).
  rewrite Hrun.
  assert (Hdrop : exists rest, drop k sigs = sig :: rest).
  { exists (drop (S k) sigs). apply drop_S. exact Hk. }
  destruct Hdrop as (rest & ->).
  specialize (Hnth 0). rewrite Nat.add_0_r in Hnth. simpl in Hnth.
  rewrite Hnth in Hv.
  rewrite (run_call (Handler sigHandler) sig rest (k + 0) initial_globals
             (if sig then sigHandler SIGINT initial_globals
              else initial_globals) c1 eq_refl eq_refl)
    by (destruct sig; reflexivity).
  destruct (process c1) as [r c2]. simpl in Hv. subst r.
  exists c2. rewrite run_exit.
  - rewrite Nat.add_0_r. destruct sig; reflexivity.
  - destruct Hstop as [-> | Hne]; [left; simpl; lia|right; exact Hne].
Qed.

Variable whoMessage : string -> string -> string.
Variable whoError : string -> string -> string.

(** C6.  In the driver loop of the recorder and of the position socket,
    the first call of process that returns the end-of-stream signal is the
    last call: the loop condition fails on it, the loop is left, main
    writes its exit message and returns 0. *)
Theorem end_of_stream_ends_the_loop
  (name : string) (sigs : list bool) (k : nat) (c : Component) (r : Z) :
  k < length sigs ->
  (forall i, i < k -> sigs !! i = Some false) ->
  (forall i, i < k -> fst (nth_call process i c) = Normal 0%Z) ->
  fst (nth_call process k c) = Normal r ->
  r <> 0%Z ->
  (exists (g : Globals) (c' : Component),
     run process (Handler sigHandler) sigs 0 initial_globals c
     = Some (LoopExit (S k) g c')
     /\ source_eof g = r)
  /\ main process whoMessage whoError name false sigs c
     = Some (0%Z, [EvStdout (whoMessage name ("Exiting." ++ nl)%string)]).
Proof.
  intros Hlen Hsig Hret Hr Hne.
  destruct (lookup_lt_is_Some_2 sigs k Hlen) as (sig & Hk).
  destruct (run_last_call k sigs sig c r Hk Hsig Hret Hr (or_intror Hne))
    as (c' & Hrun).
  split.
  - exists (mkGlobals (if sig then 1 else 0) r), c'. split; [exact Hrun|].
    reflexivity.
  - unfold main. cbn [deliver_SIGINT]. rewrite Hrun. reflexivity.
Qed.

End DriverFacts.

Section MatclientLoop.

Context {Mat : Type}.

Import Matclient.

Lemma loop_quit (sigs : list bool) (m : Matclient.t Mat) :
  quit m <> 0%Z -> loop sigs m = (true, m).
Proof.
  intros Hq. apply Z.eqb_neq in Hq.
  destruct sigs; cbn [loop]; rewrite bind_run; cbn [get fst snd];
    rewrite Hq; reflexivity.
Qed.

Lemma loop_cons (sig : bool) (sigs : list bool) (m : Matclient.t Mat) :
  quit m = 0%Z -> loop (sig :: sigs) m = loop sigs (snd (loop_body sig m)).
Proof.
  intros Hq. cbn [loop]. rewrite bind_run. cbn [get fst snd].
  rewrite Hq. cbn [Z.eqb negb]. rewrite bind_run. reflexivity.
Qed.

Lemma loop_stops_on_sigint (k : nat) :
  forall (sigs : list bool) (m : Matclient.t Mat),
    quit m = 0%Z ->
    sigs !! k = Some true ->
    (forall i, i < k -> sigs !! i = Some false) ->
    fst (loop sigs m) = true
    /\ quit (snd (loop sigs m)) = 1%Z
    /\ exists rs : list NodeState,
         length rs = S k
         /\ io (snd (loop sigs m)) = io m ++ flat_map pass_trace rs.
Proof.
  induction k as [|k IH]; intros sigs m Hq Hk Hsig.
  - destruct sigs as [|sig sigs]; [discriminate|].
    simpl in Hk. injection Hk as ->.
    rewrite (loop_cons true sigs m Hq).
    destruct (loop_body_trace true m) as (r & Hio & Hquit).
    rewrite loop_quit by (rewrite Hquit; discriminate).
    cbn [fst snd]. repeat split; [exact Hquit|].
    exists [r]. split; [reflexivity|]. rewrite Hio. reflexivity.
  - destruct sigs as [|sig sigs]; [discriminate|].
    pose proof (Hsig 0 ltac:(lia)) as H0. simpl in H0. injection H0 as ->.
    rewrite (loop_cons false sigs m Hq).
    destruct (loop_body_trace false m) as (r & Hio & Hquit).
    rewrite Hq in Hquit.
    destruct (IH sigs (snd (loop_body false m)) Hquit Hk)
      as (Hdone & Hq' & rs & Hlen & Hio').
    { intros i Hi. apply (Hsig (S i)). lia. }
    repeat split; [exact Hdone|exact Hq'|].
    exists (r :: rs). split; [simpl; lia|].
    rewrite Hio', Hio. simpl. rewrite <- app_assoc. reflexivity.
Qed.

End MatclientLoop.

(** C7.  The handler installed for SIGINT sets the global [quit] to 1 and
    touches nothing else.  In the recorder and in the position socket, a
    SIGINT delivered during call number k of process makes that call the
    last one: once it has returned, the loop is left, and main writes its
    exit message and returns 0; a SIGINT delivered before the loop is
    entered leaves no call at all.  In matclient, a SIGINT delivered during
    pass number k through the loop makes that pass the last one, and main
    returns 0. *)
Theorem sigint_stops_the_loops {Component Mat : Type}
  (process : Component -> Result Z * Component)
  (whoMessage whoError : string -> string -> string) (name : string)
  (sigs : list bool) (k : nat) (c : Component) (v : Z)
  (m : Matclient.t Mat) :
  sigs !! k = Some true ->
  (forall i, i < k -> sigs !! i = Some false) ->
  (forall i, i < k -> fst (Driver.nth_call process i c) = Normal 0%Z) ->
  fst (Driver.nth_call process k c) = Normal v ->
  Matclient.quit m = 0%Z ->
  (forall (s : Z) (g : Driver.Globals),
     Driver.sigHandler s g = Driver.mkGlobals 1 (Driver.source_eof g))
  /\ (exists c' : Component,
        Driver.run process (Driver.Handler Driver.sigHandler) sigs 0
          Driver.initial_globals c
        = Some (Driver.LoopExit (S k) (Driver.mkGlobals 1 v) c'))
  /\ Driver.main process whoMessage whoError name false sigs c
     = Some (0%Z, [EvStdout (whoMessage name ("Exiting." ++ nl)%string)])
  /\ Driver.run process (Driver.Handler Driver.sigHandler) sigs 0
       (Driver.sigHandler Driver.SIGINT Driver.initial_globals) c
     = Some (Driver.LoopExit 0 (Driver.mkGlobals 1 0) c)
  /\ Driver.main process whoMessage whoError name true sigs c
     = Some (0%Z, [EvStdout (whoMessage name ("Exiting." ++ nl)%string)])
  /\ fst (Matclient.main false sigs m) = Some 0%Z
  /\ Matclient.quit (snd (Matclient.main false sigs m)) = 1%Z
  /\ exists (r0 : NodeState) (rs : list NodeState),
       length rs = S k
       /\ Matclient.io (snd (Matclient.main false sigs m))
          = Matclient.io m
              ++ EvWait FrameSrc r0 :: flat_map Matclient.pass_trace rs.
Proof.
  intros Hk Hsig Hret Hv Hq.
  destruct (run_last_call process k sigs true c v Hk Hsig Hret Hv
              (or_introl eq_refl)) as (c' & Hrun).
  assert (Hearly :
            Driver.run process (Driver.Handler Driver.sigHandler) sigs 0
              (Driver.sigHandler Driver.SIGINT Driver.initial_globals) c
            = Some (Driver.LoopExit 0 (Driver.mkGlobals 1 0) c)).
  { apply run_exit. left. discriminate. }
  split; [reflexivity|]. split; [exists c'; exact Hrun|].
  split; [unfold Driver.main; cbn [Driver.deliver_SIGINT]; rewrite Hrun;
          reflexivity|].
  split; [exact Hearly|].
  split; [unfold Driver.main; cbn [Driver.deliver_SIGINT]; rewrite Hearly;
          reflexivity|].
  unfold Matclient.main. rewrite !bind_run. cbn [ret fst snd].
  set (m1 := snd (Matclient.source_wait m)).
  assert (Hm1 : Matclient.quit m1 = 0%Z
                /\ exists r0, Matclient.io m1
                              = Matclient.io m ++ [EvWait FrameSrc r0]).
  { subst m1. destruct m as [q [sh up] loc tr]. simpl in Hq. subst q.
    destruct up as [|x rest]; (split; [reflexivity|]);
      [exists END|exists BOUND]; reflexivity. }
  destruct Hm1 as (Hq1 & r0 & Hio1).
  destruct (loop_stops_on_sigint k sigs m1 Hq1 Hk Hsig)
    as (Hdone & Hquit & rs & Hlen & Hio).
  rewrite Hdone. repeat split; [exact Hquit|].
  exists r0, rs. split; [exact Hlen|].
  rewrite Hio, Hio1, <- app_assoc. reflexivity.
Qed.

(** A component for the witnesses: a counter that reports the end of the
    stream at its third call. *)
Lemma end_of_stream_ends_the_loop_witness :
  Driver.main (fun n : nat => (Normal (if n =? 2 then 1%Z else 0%Z), S n))
    (fun who msg => (who ++ ": " ++ msg)%string)
    (fun who msg => (who ++ ": " ++ msg)%string)
    "recorder" false [false; false; false; false] 0
  = Some (0%Z, [EvStdout ("recorder: Exiting." ++ nl)%string]).
Proof.
  refine (proj2 (end_of_stream_ends_the_loop
                   (fun n : nat => (Normal (if n =? 2 then 1%Z else 0%Z), S n))
                   (fun who msg => (who ++ ": " ++ msg)%string)
                   (fun who msg => (who ++ ": " ++ msg)%string)
                   "recorder" [false; false; false; false] 2 0 1%Z
                   _ _ _ _ _)).
  - simpl. lia.
  - intros [|[|i]] Hi; [reflexivity|reflexivity|lia].
  - intros [|[|i]] Hi; [reflexivity|reflexivity|lia].
  - reflexivity.
  - discriminate.
Defined.

Lemma sigint_stops_the_loops_witness :
  Driver.main (fun n : nat => (Normal 0%Z, S n))
    (fun who msg => (who ++ ": " ++ msg)%string)
    (fun who msg => (who ++ ": " ++ msg)%string)
    "posisock" false [false; true; false] 0
  = Some (0%Z, [EvStdout ("posisock: Exiting." ++ nl)%string])
  /\ fst (Matclient.main false [false; true; false]
            (Matclient.mk 0 (Source.mk 0 [1; 2; 3; 4]) 0 []))
     = Some 0%Z.
Proof.
  destruct (sigint_stops_the_loops
              (fun n : nat => (Normal 0%Z, S n))
              (fun who msg => (who ++ ": " ++ msg)%string)
              (fun who msg => (who ++ ": " ++ msg)%string)
              "posisock" [false; true; false] 1 0 0%Z
              (Matclient.mk 0 (Source.mk 0 [1; 2; 3; 4]) 0 []))
    as (_ & _ & H3 & _ & _ & H6 & _).
  - reflexivity.
  - intros [|i] Hi; [reflexivity|lia].
  - intros [|i] Hi; [reflexivity|lia].
  - reflexivity.
  - reflexivity.
  - exact (conj H3 H6).
Defined.

(** ** Position2D *)

Section Position2DFacts.

Context {Position float32 : Type}.
Variable PIXELS : Z.
Variable WORLD : Z.
Variable to_double : float32 -> float.
Variable transform32 : Position2D.Matx33 float32 -> Position2D.Point2D
                       -> Position2D.Point2D.
Variable transform64 : Position2D.Matx33 float -> Position2D.Point2D
                       -> Position2D.Point2D.

Import Position2D.

Lemma convert_keeps_this (p : Position2D.t Position float32) :
  snd (convertToWorldCoordinates PIXELS WORLD to_double transform32
         transform64 p) = p.
Proof.
  unfold convertToWorldCoordinates. rewrite bind_run. cbn [get fst snd].
  destruct ((coord_system p =? PIXELS)%Z && homography_valid p);
    reflexivity.
Qed.

Lemma convert_elsewhere (p : Position2D.t Position float32) :
  (coord_system p =? PIXELS)%Z && homography_valid p = false ->
  fst (convertToWorldCoordinates PIXELS WORLD to_double transform32
         transform64 p) = p.
Proof.
  intros H. unfold convertToWorldCoordinates. rewrite bind_run.
  cbn [get fst snd]. rewrite H. reflexivity.
Qed.

Lemma convert_pixels (p : Position2D.t Position float32) :
  (coord_system p =? PIXELS)%Z && homography_valid p = true ->
  fst (convertToWorldCoordinates PIXELS WORLD to_double transform32
         transform64 p)
  = mk (base p) WORLD (homography_valid p) (homography p)
       (position_valid p) (transform32 (homography p) (position p))
       (velocity_valid p)
       (transform64 (set_12 0%float (set_02 0%float
                                       (widen to_double (homography p))))
          (velocity p))
       (head_direction_valid p) (head_direction p).
Proof.
  intros H. unfold convertToWorldCoordinates. rewrite bind_run.
  cbn [get fst snd]. rewrite H. reflexivity.
Qed.

(** C8.  convertToWorldCoordinates leaves the position it is called on as
    it is.  Where the coordinate system is not PIXELS, or the homography
    is not valid, it returns a copy of the position.  Otherwise the
    result has WORLD as its coordinate system and the head direction of
    the position, and a second conversion returns the result as it is:
    the conversion is idempotent (PIXELS and WORLD being different
    enumerators). *)
Theorem convertToWorldCoordinates_idempotent
  (p : Position2D.t Position float32) :
  PIXELS <> WORLD ->
  snd (convertToWorldCoordinates PIXELS WORLD to_double transform32
         transform64 p) = p
  /\ (coord_system p <> PIXELS \/ homography_valid p = false ->
      fst (convertToWorldCoordinates PIXELS WORLD to_double transform32
             transform64 p) = p)
  /\ (coord_system p = PIXELS /\ homography_valid p = true ->
      coord_system
        (fst (convertToWorldCoordinates PIXELS WORLD to_double transform32
                transform64 p)) = WORLD
      /\ head_direction
           (fst (convertToWorldCoordinates PIXELS WORLD to_double transform32
                   transform64 p)) = head_direction p)
  /\ fst (convertToWorldCoordinates PIXELS WORLD to_double transform32
            transform64
            (fst (convertToWorldCoordinates PIXELS WORLD to_double transform32
                    transform64 p)))
     = fst (convertToWorldCoordinates PIXELS WORLD to_double transform32
              transform64 p).
Proof.
  intros Hne. split; [apply convert_keeps_this|]. split; [|split].
  - intros [Hc|Hh]; apply convert_elsewhere.
    + apply Z.eqb_neq in Hc. rewrite Hc. reflexivity.
    + rewrite Hh. apply andb_false_r.
  - intros [Hc Hh]. rewrite convert_pixels.
    + split; reflexivity.
    + rewrite Hc, Z.eqb_refl, Hh. reflexivity.
  - destruct ((coord_system p =? PIXELS)%Z && homography_valid p) eqn:Hcond.
    + rewrite (convert_pixels p Hcond). apply convert_elsewhere.
      cbn [coord_system]. apply not_eq_sym, Z.eqb_neq in Hne.
      rewrite Hne. reflexivity.
    + rewrite (convert_elsewhere p Hcond). apply convert_elsewhere.
      exact Hcond.
Qed.

End Position2DFacts.

(** A position in pixels with a valid homography; the transformation used
    for the witness shifts a point by the last column of the matrix. *)
Lemma convertToWorldCoordinates_idempotent_witness :
  let shift := fun (m : Position2D.Matx33 float) (pt : Position2D.Point2D) =>
                 (PrimFloat.add (fst pt) (Position2D.m02 m),
                  PrimFloat.add (snd pt) (Position2D.m12 m)) in
  let conv := Position2D.convertToWorldCoordinates (Position:=string)
                0 1 (fun x : float => x) shift shift in
  let p := Position2D.mk "default"%string 0 true
             (Position2D.mkMatx33 1 0 5 0 1 7 0 0 1)%float
             true (2, 3)%float true (1, 1)%float true (0, 1)%float in
  snd (conv p) = p
  /\ Position2D.coord_system (fst (conv p)) = 1%Z
  /\ Position2D.position (fst (conv p)) = (7, 10)%float
  /\ fst (conv (fst (conv p))) = fst (conv p).
Proof.
  intros shift conv p.
  destruct (convertToWorldCoordinates_idempotent 0 1 (fun x : float => x)
              shift shift p ltac:(discriminate))
    as (H1 & _ & H3 & H4).
  destruct (H3 (conj eq_refl eq_refl)) as [Hw _].
  split; [exact H1|]. split; [exact Hw|]. split; [reflexivity|exact H4].
Defined.

(** ** DifferenceDetector::applyConfiguration *)

Section DifferenceDetectorFacts.

Context {variables_map OptionTable : Type}.
Variable getNumericValue_int :
  variables_map -> OptionTable -> string -> Z -> DifferenceDetector.Lookup Z.
Variable getArray_double_2 :
  variables_map -> OptionTable -> string
  -> DifferenceDetector.Lookup (list float).
Variable getValue_bool :
  variables_map -> OptionTable -> string -> DifferenceDetector.Lookup bool.
Variable double_to_int : float -> Z.

Import DifferenceDetector.

Lemma configure_area_found (vm : variables_map) (tab : OptionTable)
  (d : DifferenceDetector.t) (a0 a1 : float) :
  getArray_double_2 vm tab "area" = Found [a0; a1] ->
  configure_area getArray_double_2 double_to_int vm tab d
  = (if double_ge a0 a1
     then Thrown (runtime_error "Max area should be larger than min area.")
     else Normal tt,
     set_dummies (double_to_int a0) (double_to_int a1) (set_areas a0 a1 d)).
Proof.
  intros H. unfold configure_area. rewrite H.
  rewrite !bind_run. cbn [get modify fst snd].
  cbn [set_dummies set_areas min_object_area_ max_object_area_ at_index nth].
  destruct (double_ge a0 a1); reflexivity.
Qed.

Lemma andthen_run {S A B : Type} (m : M S (Result A))
  (k : A -> M S (Result B)) (s : S) :
  andthen m k s
  = match fst (m s) with
    | Normal a => k a (snd (m s))
    | Thrown e => (Thrown e, snd (m s))
    end.
Proof.
  unfold andthen. rewrite bind_run. destruct (fst (m s)); reflexivity.
Qed.

(** The two blocks in front of the area block leave the areas alone. *)
Lemma configure_threshold_areas (vm : variables_map) (tab : OptionTable)
  (d : DifferenceDetector.t) :
  configure_threshold getNumericValue_int vm tab d
  = match getNumericValue_int vm tab "diff-threshold" 0%Z with
    | Found v => (Normal tt, set_threshold v d)
    | Absent => (Normal tt, d)
    | Fails e => (Thrown e, d)
    end.
Proof.
  unfold configure_threshold.
  destruct (getNumericValue_int vm tab "diff-threshold" 0%Z); reflexivity.
Qed.

Lemma configure_blur_areas (vm : variables_map) (tab : OptionTable)
  (d : DifferenceDetector.t) :
  fst (configure_blur getNumericValue_int vm tab d)
  = match getNumericValue_int vm tab "blur" 0%Z with
    | Fails e => Thrown e
    | _ => Normal tt
    end
  /\ min_object_area_ (snd (configure_blur getNumericValue_int vm tab d))
     = min_object_area_ d
  /\ max_object_area_ (snd (configure_blur getNumericValue_int vm tab d))
     = max_object_area_ d.
Proof.
  unfold configure_blur.
  destruct (getNumericValue_int vm tab "blur" 0%Z) as [v| |e];
    [|repeat split|repeat split].
  unfold set_blur_size. rewrite !bind_run. cbn [get fst snd].
  destruct (0 <? v)%Z; repeat split.
Qed.

Lemma configure_tune_areas (vm : variables_map) (tab : OptionTable)
  (d : DifferenceDetector.t) :
  fst (configure_tune getValue_bool vm tab d)
  = match getValue_bool vm tab "tune" with
    | Fails e => Thrown e
    | _ => Normal tt
    end
  /\ min_object_area_ (snd (configure_tune getValue_bool vm tab d))
     = min_object_area_ d
  /\ max_object_area_ (snd (configure_tune getValue_bool vm tab d))
     = max_object_area_ d.
Proof.
  unfold configure_tune.
  destruct (getValue_bool vm tab "tune"); repeat split.
Qed.

(** C9.  For a configuration whose "area" entry is the array [a0, a1],
    what applyConfiguration does is decided block by block.  An exception
    of the lookup of "diff-threshold" or of "blur" leaves the call before
    the area block: the call throws that exception and the areas are the
    old ones, whatever a0 and a1 are.  Otherwise min_object_area_ becomes
    a0 and max_object_area_ becomes a1, and the call throws its runtime
    error where a0 >= a1 as doubles; where a0 < a1 it goes on to the
    lookup of "tune" and throws what that lookup throws, if it throws.
    So the call throws whenever a0 >= a1, and a call that returns normally
    has a0 < a1 and the areas a0 and a1; where none of the three other
    lookups throws, the call throws, and what it throws is a runtime
    error, if and only if a0 >= a1. *)
Theorem applyConfiguration_area
  (vm : variables_map) (tab : OptionTable) (d : DifferenceDetector.t)
  (a0 a1 : float) :
  getArray_double_2 vm tab "area" = Found [a0; a1] ->
  fst (applyConfiguration getNumericValue_int getArray_double_2
         getValue_bool double_to_int vm tab d)
  = match getNumericValue_int vm tab "diff-threshold" 0%Z,
          getNumericValue_int vm tab "blur" 0%Z with
    | Fails e, _ => Thrown e
    | _, Fails e => Thrown e
    | _, _ =>
        if double_ge a0 a1
        then Thrown (runtime_error "Max area should be larger than min area.")
        else match getValue_bool vm tab "tune" with
             | Fails e => Thrown e
             | _ => Normal tt
             end
    end
  /\ (min_object_area_
        (snd (applyConfiguration getNumericValue_int getArray_double_2
                getValue_bool double_to_int vm tab d)),
      max_object_area_
        (snd (applyConfiguration getNumericValue_int getArray_double_2
                getValue_bool double_to_int vm tab d)))
     = match getNumericValue_int vm tab "diff-threshold" 0%Z,
             getNumericValue_int vm tab "blur" 0%Z with
       | Fails _, _ | _, Fails _ => (min_object_area_ d, max_object_area_ d)
       | _, _ => (a0, a1)
       end
  /\ (double_ge a0 a1 = true ->
      throws (fst (applyConfiguration getNumericValue_int getArray_double_2
                     getValue_bool double_to_int vm tab d)) = true)
  /\ (fst (applyConfiguration getNumericValue_int getArray_double_2
             getValue_bool double_to_int vm tab d) = Normal tt ->
      double_ge a0 a1 = false
      /\ min_object_area_
           (snd (applyConfiguration getNumericValue_int getArray_double_2
                   getValue_bool double_to_int vm tab d)) = a0
      /\ max_object_area_
           (snd (applyConfiguration getNumericValue_int getArray_double_2
                   getValue_bool double_to_int vm tab d)) = a1)
  /\ ((forall e, getNumericValue_int vm tab "diff-threshold" 0%Z <> Fails e) ->
      (forall e, getNumericValue_int vm tab "blur" 0%Z <> Fails e) ->
      (forall e, getValue_bool vm tab "tune" <> Fails e) ->
      throws (fst (applyConfiguration getNumericValue_int getArray_double_2
                     getValue_bool double_to_int vm tab d))
      = double_ge a0 a1
      /\ throws_runtime_error
           (fst (applyConfiguration getNumericValue_int getArray_double_2
                   getValue_bool double_to_int vm tab d))
         = double_ge a0 a1).
Proof.
  intros Harea.
  assert (Hrun :
    fst (applyConfiguration getNumericValue_int getArray_double_2
           getValue_bool double_to_int vm tab d)
    = match getNumericValue_int vm tab "diff-threshold" 0%Z,
            getNumericValue_int vm tab "blur" 0%Z with
      | Fails e, _ => Thrown e
      | _, Fails e => Thrown e
      | _, _ =>
          if double_ge a0 a1
          then Thrown
                 (runtime_error "Max area should be larger than min area.")
          else match getValue_bool vm tab "tune" with
               | Fails e => Thrown e
               | _ => Normal tt
               end
      end
    /\ (min_object_area_
          (snd (applyConfiguration getNumericValue_int getArray_double_2
                  getValue_bool double_to_int vm tab d)),
        max_object_area_
          (snd (applyConfiguration getNumericValue_int getArray_double_2
                  getValue_bool double_to_int vm tab d)))
       = match getNumericValue_int vm tab "diff-threshold" 0%Z,
               getNumericValue_int vm tab "blur" 0%Z with
         | Fails _, _ | _, Fails _ => (min_object_area_ d, max_object_area_ d)
         | _, _ => (a0, a1)
         end).
  { unfold applyConfiguration.
    rewrite andthen_run, configure_threshold_areas.
    set (d1 := snd match getNumericValue_int vm tab "diff-threshold" 0%Z with
                   | Found v => (Normal tt, set_threshold v d)
                   | Absent => (Normal tt, d)
                   | Fails e => (Thrown e, d)
                   end).
    assert (Hd1 : min_object_area_ d1 = min_object_area_ d
                  /\ max_object_area_ d1 = max_object_area_ d).
    { subst d1.
      destruct (getNumericValue_int vm tab "diff-threshold" 0%Z);
        split; reflexivity. }
    destruct Hd1 as [Hmin1 Hmax1].
    assert (Hf1 : fst match getNumericValue_int vm tab "diff-threshold" 0%Z with
                      | Found v => (Normal tt, set_threshold v d)
                      | Absent => (Normal tt, d)
                      | Fails e => (Thrown e, d)
                      end
                  = match getNumericValue_int vm tab "diff-threshold" 0%Z with
                    | Fails e => Thrown e
                    | _ => Normal tt
                    end).
    { destruct (getNumericValue_int vm tab "diff-threshold" 0%Z);
        reflexivity. }
    rewrite Hf1. clearbody d1.
    destruct (configure_blur_areas vm tab d1) as (Hb & Hmin2 & Hmax2).
    destruct (getNumericValue_int vm tab "diff-threshold" 0%Z) as [v| |e];
      try (cbn [fst snd]; rewrite Hmin1, Hmax1; split; reflexivity);
      rewrite andthen_run, Hb;
      (destruct (getNumericValue_int vm tab "blur" 0%Z) as [w| |e'];
       try (cbn [fst snd]; rewrite Hmin2, Hmax2, Hmin1, Hmax1;
            split; reflexivity));
      rewrite andthen_run, (configure_area_found vm tab _ a0 a1 Harea);
      cbn [fst snd];
      (destruct (double_ge a0 a1); [split; reflexivity|]);
      match goal with
      | |- context [configure_tune getValue_bool vm tab ?dd] =>
          destruct (configure_tune_areas vm tab dd) as (Ht & Hmin3 & Hmax3)
      end;
      rewrite Ht, Hmin3, Hmax3; split; reflexivity. }
  destruct Hrun as [Hres Hareas].
  split; [exact Hres|]. split; [exact Hareas|].
  rewrite Hres.
  apply (f_equal fst) in Hareas as Hmin. apply (f_equal snd) in Hareas as Hmax.
  cbn [fst snd] in Hmin, Hmax. rewrite Hmin, Hmax.
  destruct (getNumericValue_int vm tab "diff-threshold" 0%Z) as [v| |e];
    destruct (getNumericValue_int vm tab "blur" 0%Z) as [w| |e'];
    destruct (double_ge a0 a1);
    destruct (getValue_bool vm tab "tune") as [t| |e''];
    cbn [fst snd throws throws_runtime_error];
    repeat first [apply conj | intro];
    try reflexivity; try discriminate;
    match goal with
    | H : forall e, Fails ?x <> Fails e |- _ => destruct (H x eq_refl)
    end.
Qed.

End DifferenceDetectorFacts.

(** C9 as stated fails: the configuration supplies the area [10, 500],
    with 10 < 500, and a "diff-threshold" that its lookup refuses.  The
    call throws a runtime error, and the areas are not assigned. *)
Lemma area_unassigned_when_earlier_lookup_throws :
  let d := DifferenceDetector.mk 10 true (2, 2)%Z 0%float 0%float 0 0 false in
  let r :=
    DifferenceDetector.applyConfiguration
      (fun (_ _ : unit) key _ =>
         if String.eqb key "diff-threshold"
         then DifferenceDetector.Fails (runtime_error "diff-threshold")
         else DifferenceDetector.Absent)
      (fun (_ _ : unit) _ => DifferenceDetector.Found [10; 500]%float)
      (fun (_ _ : unit) _ => DifferenceDetector.Absent)
      (fun _ => 0%Z) tt tt d in
  DifferenceDetector.double_ge 10 500 = false
  /\ throws_runtime_error (fst r) = true
  /\ DifferenceDetector.min_object_area_ (snd r) = 0%float
  /\ DifferenceDetector.max_object_area_ (snd r) = 0%float.
Proof. vm_compute. repeat split. Qed.

(** A configuration over lookups that find the area [10, 500] and nothing
    else: the call returns normally with these areas. *)
Lemma applyConfiguration_area_witness :
  let d := DifferenceDetector.mk 10 true (2, 2)%Z 0%float 0%float 0 0 false in
  let r :=
    DifferenceDetector.applyConfiguration
      (fun (_ _ : unit) _ _ => DifferenceDetector.Absent)
      (fun (_ _ : unit) _ => DifferenceDetector.Found [10; 500]%float)
      (fun (_ _ : unit) _ => DifferenceDetector.Absent)
      (fun _ => 0%Z) tt tt d in
  fst r = Normal tt
  /\ (DifferenceDetector.min_object_area_ (snd r),
      DifferenceDetector.max_object_area_ (snd r)) = (10, 500)%float.
Proof.
  intros d r.
  destruct (applyConfiguration_area
              (fun (_ _ : unit) _ _ => DifferenceDetector.Absent)
              (fun (_ _ : unit) _ => DifferenceDetector.Found [10; 500]%float)
              (fun (_ _ : unit) _ => DifferenceDetector.Absent)
              (fun _ => 0%Z) tt tt d 10%float 500%float eq_refl)
    as (H1 & H2 & _).
  exact (conj H1 H2).
Defined.

(** ** extractConfigFileKey *)

Section ProgramOptionsFacts.

Import ProgramOptions.

(** C10.  extractConfigFileKey leaves the map it is given as it is.  It
    returns the empty vector where the "config" option is empty, the
    stored vector where the option holds exactly two strings, and throws a
    runtime error where it holds a vector of any other length. *)
Theorem extractConfigFileKey_cases
  (map : gmap string variable_value) (l : list string) :
  snd (extractConfigFileKey map) = map
  /\ (empty (at_key map "config") = true ->
      fst (extractConfigFileKey map) = Normal [])
  /\ (map !! "config"%string = Some (strings_value l) -> length l = 2 ->
      fst (extractConfigFileKey map) = Normal l)
  /\ (map !! "config"%string = Some (strings_value l) -> length l <> 2 ->
      fst (extractConfigFileKey map)
      = Thrown (runtime_error
                  ("Configuration must be supplied as file key pair." ++ nl))).
Proof.
  unfold extractConfigFileKey. rewrite bind_run. cbn [get fst snd].
  split; [|split; [|split]].
  - destruct (negb (empty (at_key map "config"))); [|reflexivity].
    destruct (as_strings (at_key map "config")) as [r|e]; [|reflexivity].
    destruct (negb (length r =? 2)); reflexivity.
  - intros He. rewrite He. reflexivity.
  - intros Hl Hlen. unfold at_key. rewrite Hl. cbn.
    apply Nat.eqb_eq in Hlen. rewrite Hlen. reflexivity.
  - intros Hl Hlen. unfold at_key. rewrite Hl. cbn.
    apply Nat.eqb_neq in Hlen. rewrite Hlen. reflexivity.
Qed.

End ProgramOptionsFacts.

Lemma extractConfigFileKey_cases_witness :
  fst (ProgramOptions.extractConfigFileKey ∅) = Normal []
  /\ fst (ProgramOptions.extractConfigFileKey
            {[ "config"%string :=
                 ProgramOptions.strings_value
                   ["oat.toml"; "detector"]%string ]})
     = Normal ["oat.toml"; "detector"]%string
  /\ fst (ProgramOptions.extractConfigFileKey
            {[ "config"%string :=
                 ProgramOptions.strings_value ["oat.toml"]%string ]})
     = Thrown (runtime_error
                 ("Configuration must be supplied as file key pair." ++ nl)).
Proof.
  split; [|split].
  - exact (proj1 (proj2 (extractConfigFileKey_cases ∅ [])) eq_refl).
  - refine (proj1 (proj2 (proj2 (extractConfigFileKey_cases
                                   _ ["oat.toml"; "detector"]%string)))
              _ eq_refl).
    apply lookup_singleton_eq.
  - refine (proj2 (proj2 (proj2 (extractConfigFileKey_cases
                                   _ ["oat.toml"]%string))) _ _).
    + apply lookup_singleton_eq.
    + discriminate.
Defined.

(** * Further properties of the code *)

(** ** FrameBuffer: the ring over runs *)

Section FrameBufferRuns.

Context {Frame : Type}.
Variable BUFFSIZE : nat.
Variable NDEBUG : bool.

Import FrameBuffer.

Lemma step_ring_length (a : Action) (s : PopPc * FrameBuffer.t Frame) :
  length (buffer_ (snd (step BUFFSIZE NDEBUG a s)))
  <= Nat.max (length (buffer_ (snd s)))
       (if length (buffer_ (snd s)) <? BUFFSIZE
        then S (length (buffer_ (snd s))) else 0).
Proof.
  destruct s as [pc b]. destruct a as [|cv|]; cbn [step fst snd].
  - destruct (Source.upcoming (source_ b)) as [|x rest] eqn:Hup.
    + rewrite (push_at_END BUFFSIZE NDEBUG b Hup). destruct b; simpl. lia.
    + destruct (Nat.ltb_spec (length (buffer_ b)) BUFFSIZE) as [Hlt|Hge].
      * rewrite (push_with_room BUFFSIZE NDEBUG b x rest Hup Hlt).
        cbn [snd buffer_]. rewrite length_app. simpl. lia.
      * rewrite (push_when_full BUFFSIZE NDEBUG b x rest Hup Hge).
        cbn [snd buffer_]. lia.
  - destruct pc.
    + destruct (sink_running_ b) eqn:Hrun.
      * rewrite (pop_step_outer_running cv b Hrun). destruct b; simpl. lia.
      * rewrite (pop_step_outer_stopped cv b Hrun). simpl. lia.
    + destruct (buffer_ b) as [|x q] eqn:Hq.
      * rewrite (pop_step_inner_empty cv b Hq). simpl. rewrite Hq. simpl. lia.
      * rewrite (pop_step_inner_publish cv b x q Hq). simpl. lia.
    + rewrite pop_step_returned. simpl. lia.
  - destruct b; simpl. lia.
Qed.

(** X1.  The ring never holds more than BUFFSIZE samples: a buffer whose
    ring is within its capacity stays within it over every run, whatever
    the interleaving of push calls, pop steps and the clearing of
    [sink_running_]. *)
Theorem ring_within_capacity
  (run : list Action) (s : PopPc * FrameBuffer.t Frame) :
  length (buffer_ (snd s)) <= BUFFSIZE ->
  length (buffer_ (snd (exec BUFFSIZE NDEBUG run s))) <= BUFFSIZE.
Proof.
  revert s. induction run as [|a run IH]; intros s Hs; [exact Hs|].
  rewrite exec_cons. apply IH.
  pose proof (step_ring_length a s) as Hstep.
  destruct (Nat.ltb_spec (length (buffer_ (snd s))) BUFFSIZE); lia.
Qed.

(** X2.  Over every run the calls of the two threads on their endpoints
    keep the handshake: in the trace the run adds, each read of the
    upstream payload lies between a wait on the source that did not
    return END and its post, each write to the shared frame lies between
    a wait and a post on the sink, and no critical section is left
    open. *)
Theorem run_keeps_handshake
  (run : list Action) (s : PopPc * FrameBuffer.t Frame) :
  exists tr : list Event,
    io (snd (exec BUFFSIZE NDEBUG run s)) = io (snd s) ++ tr
    /\ disciplined tr
    /\ count_ok_waits FrameSrc tr = count_posts FrameSrc tr
    /\ count_ok_waits FrameSnk tr = count_posts FrameSnk tr.
Proof.
  assert (H : exists tr : list Event,
             io (snd (exec BUFFSIZE NDEBUG run s)) = io (snd s) ++ tr
             /\ disciplined tr).
  { revert s. induction run as [|a run IH]; intros s.
    - exists []. rewrite app_nil_r. split; auto with handshake.
    - rewrite exec_cons.
      destruct (IH (step BUFFSIZE NDEBUG a s)) as (tr2 & Hio2 & Htr2).
      assert (Hstep : exists tr1 : list Event,
                 io (snd (step BUFFSIZE NDEBUG a s)) = io (snd s) ++ tr1
                 /\ disciplined tr1).
      { destruct s as [pc b]. destruct a as [|cv|]; cbn [step fst snd].
        - apply push_disciplined.
        - apply pop_step_disciplined.
        - exists []. rewrite app_nil_r. destruct b.
          split; auto with handshake. }
      destruct Hstep as (tr1 & Hio1 & Htr1).
      exists (tr1 ++ tr2). rewrite Hio2, Hio1, <- app_assoc.
      split; auto with handshake. }
  destruct H as (tr & Hio & Htr). exists tr.
  repeat split; [exact Hio|exact Htr| |]; apply disciplined_counts; exact Htr.
Qed.

Lemma no_drop_while_room (run : list Action) :
  forall s : PopPc * FrameBuffer.t Frame,
    length (buffer_ (snd s)) + length (Source.upcoming (source_ (snd s)))
    <= BUFFSIZE ->
    dropped BUFFSIZE NDEBUG run s = [].
Proof.
  induction run as [|a run IH]; intros s Hs; [reflexivity|].
  unfold dropped in *. cbn [offered].
  rewrite List.filter_app, map_app.
  rewrite IH.
  - rewrite app_nil_r. destruct s as [pc b]. destruct a; try reflexivity.
    cbn [offer snd] in *.
    destruct (Source.upcoming (source_ b)) as [|x rest]; [reflexivity|].
    simpl in Hs.
    destruct (Nat.ltb_spec (length (buffer_ b)) BUFFSIZE); [reflexivity|lia].
  - destruct s as [pc b]. destruct a as [|cv|]; cbn [step fst snd] in *.
    + destruct (Source.upcoming (source_ b)) as [|x rest] eqn:Hup.
      * rewrite (push_at_END BUFFSIZE NDEBUG b Hup). destruct b; simpl in *.
        rewrite Hup. simpl. lia.
      * simpl in Hs.
        rewrite (push_with_room BUFFSIZE NDEBUG b x rest Hup) by lia.
        cbn [snd buffer_ source_ Source.upcoming]. rewrite length_app.
        simpl. lia.
    + destruct pc.
      * destruct (sink_running_ b) eqn:Hrun.
        -- rewrite (pop_step_outer_running cv b Hrun). destruct b; simpl in *.
           lia.
        -- rewrite (pop_step_outer_stopped cv b Hrun). exact Hs.
      * destruct (buffer_ b) as [|x q] eqn:Hq.
        -- rewrite (pop_step_inner_empty cv b Hq). simpl. rewrite Hq. exact Hs.
        -- rewrite (pop_step_inner_publish cv b x q Hq). simpl in *. lia.
      * rewrite pop_step_returned. exact Hs.
    + destruct b; simpl in *. lia.
Qed.

(** X3.  A stream that fits the ring is never cut: where upstream has no
    more than BUFFSIZE samples to offer to a freshly connected buffer, no
    run drops a sample or reports an overrun, however slow the pop
    thread is. *)
Theorem no_overrun_when_stream_fits
  (up : Source.t Frame) (slot : Frame) (pc : PopPc) (run : list Action) :
  length (Source.upcoming up) <= BUFFSIZE ->
  dropped BUFFSIZE NDEBUG run (pc, connected up slot) = []
  /\ overruns_reported
       (io (snd (exec BUFFSIZE NDEBUG run (pc, connected up slot)))) = 0
  /\ Sink.published
       (sink_ (snd (exec BUFFSIZE NDEBUG run (pc, connected up slot))))
     ++ buffer_ (snd (exec BUFFSIZE NDEBUG run (pc, connected up slot)))
     = produced BUFFSIZE NDEBUG run (pc, connected up slot).
Proof.
  intros Hfit.
  assert (Hd : dropped BUFFSIZE NDEBUG run (pc, connected up slot) = []).
  { apply no_drop_while_room. simpl. exact Hfit. }
  destruct (exec_accounts BUFFSIZE NDEBUG run (pc, connected up slot))
    as (H1 & _ & H3).
  split; [exact Hd|]. split.
  - rewrite H3, Hd. reflexivity.
  - rewrite H1. simpl. unfold kept, produced.
    unfold dropped in Hd.
    induction (offered BUFFSIZE NDEBUG run (pc, connected up slot))
      as [|[x [|]] l IHl]; simpl in *; [reflexivity| |discriminate].
    f_equal. apply IHl. exact Hd.
Qed.

End FrameBufferRuns.

Lemma ring_within_capacity_witness :
  length (FrameBuffer.buffer_
            (snd (FrameBuffer.exec 2 true
                    [FrameBuffer.CallPush; FrameBuffer.CallPush;
                     FrameBuffer.CallPush]
                    (FrameBuffer.AtOuterTest,
                     FrameBuffer.connected (Source.mk 0 [1; 2; 3]) 0))))
  <= 2.
Proof.
  apply (ring_within_capacity 2 true). simpl. lia.
Defined.

Lemma no_overrun_when_stream_fits_witness :
  FrameBuffer.dropped 2 true
    [FrameBuffer.CallPush; FrameBuffer.CallPush; FrameBuffer.CallPush]
    (FrameBuffer.AtOuterTest, FrameBuffer.connected (Source.mk 0 [1; 2]) 0)
  = [].
Proof.
  refine (proj1 (no_overrun_when_stream_fits 2 true (Source.mk 0 [1; 2]) 0
                   FrameBuffer.AtOuterTest _ _)).
  simpl. lia.
Defined.

(** ** Decorator::process: what a call does *)

Section DecoratorProcess.

Context {Frame Pose Drawing : Type}.
Variable decorate : Frame -> list Pose -> Drawing -> Frame * Drawing.
Variable may_throw : list Pose -> M (Frame * Drawing) (Result unit).

Import Decorator.

(** Unfolds the monadic code of the decorator down to record updates. *)
Ltac dec_run :=
  repeat progress
    (unfold bind, get, modify, ret, emit, frame_source_wait,
       frame_source_copyTo, frame_source_post, pose_source_wait,
       pose_source_clone, pose_source_post, frame_sink_wait,
       copyTo_shared_frame_, frame_sink_post, call_decorate, Source.wait,
       Source.clone, Source.post, Sink.wait, Sink.post, set_io,
       set_frame_source_, set_pose_sources_, set_frame_sink_,
       set_shared_frame_, set_drawing;
     simpl).

(** The loop over the pose sources, with the sources [done] behind it and
    the sources [todo] ahead. *)
Lemma get_poses_run (todo : list (Source.t Pose)) :
  forall (done : list (Source.t Pose)) (poses : list Pose)
         (d : Decorator.t Frame Pose Drawing),
    pose_sources_ d = done ++ todo ->
    frame_source_ (snd (get_poses (length todo) (length done) poses d))
    = frame_source_ d
    /\ frame_sink_ (snd (get_poses (length todo) (length done) poses d))
       = frame_sink_ d
    /\ shared_frame_ (snd (get_poses (length todo) (length done) poses d))
       = shared_frame_ d
    /\ drawing (snd (get_poses (length todo) (length done) poses d))
       = drawing d
    /\ (Forall (fun s => Source.upcoming s <> []) todo ->
        fst (get_poses (length todo) (length done) poses d)
        = Some (poses
                  ++ map (fun s => Source.clone (snd (Source.wait s))) todo)
        /\ pose_sources_ (snd (get_poses (length todo) (length done) poses d))
           = done ++ map (fun s => snd (Source.wait s)) todo)
    /\ (Exists (fun s => Source.upcoming s = []) todo ->
        fst (get_poses (length todo) (length done) poses d) = None).
Proof.
  induction todo as [|s todo IH]; intros done poses d Hps.
  - simpl. repeat apply conj; try reflexivity.
    + intros _. rewrite app_nil_r, Hps. split; reflexivity.
    + intros H. inversion H.
  - destruct d as [fs ps fk slot dr tr0]. simpl in Hps. subst ps.
    assert (Hi : (done ++ s :: todo) !! length done = Some s)
      by (apply list_lookup_middle; reflexivity).
    cbn [length get_poses]. rewrite bind_run.
    destruct s as [sh [|p rest]].
    + assert (Hw : pose_source_wait (length done)
                     (mk fs (done ++ Source.mk sh [] :: todo) fk slot dr tr0)
                   = (END,
                      mk fs (<[length done := Source.mk sh []]>
                               (done ++ Source.mk sh [] :: todo))
                         fk slot dr (tr0 ++ [EvWait (PoseSrc (length done)) END]))).
      { unfold pose_source_wait. rewrite bind_run. cbn [get fst snd pose_sources_].
        rewrite Hi. reflexivity. }
      rewrite Hw. simpl. repeat apply conj; try reflexivity.
      intros H. inversion H as [|? ? Hs ?]. destruct Hs. reflexivity.
    + assert (Hw : pose_source_wait (length done)
                     (mk fs (done ++ Source.mk sh (p :: rest) :: todo)
                        fk slot dr tr0)
                   = (BOUND,
                      mk fs ((done ++ [Source.mk p rest]) ++ todo)
                         fk slot dr
                         (tr0 ++ [EvWait (PoseSrc (length done)) BOUND]))).
      { unfold pose_source_wait. rewrite bind_run. cbn [get fst snd pose_sources_].
        rewrite Hi. dec_run.
        rewrite <- (Nat.add_0_r (length done)) at 1.
        rewrite insert_app_r. simpl. rewrite <- app_assoc. reflexivity. }
      rewrite Hw. cbn [fst snd at_END].
      assert (Hj : ((done ++ [Source.mk p rest]) ++ todo) !! length done
                   = Some (Source.mk p rest)).
      { rewrite <- app_assoc. apply list_lookup_middle. reflexivity. }
      dec_run. rewrite Hj, list_alter_id by reflexivity.
      simpl option_list.
      match goal with
      | |- context [get_poses (length todo) (S (length done)) ?pp ?dd] =>
          replace (S (length done)) with (length (done ++ [Source.mk p rest]))
            by (rewrite length_app; simpl; lia);
          destruct (IH (done ++ [Source.mk p rest]) pp dd eq_refl)
            as (H1 & H2 & H3 & H4 & H5 & H6)
      end.
      rewrite H1, H2, H3, H4. simpl. repeat apply conj; try reflexivity.
      * intros H. inversion H as [|? ? _ Htl]. subst.
        destruct (H5 Htl) as [Hp Hq].
        rewrite Hp, Hq, <- !app_assoc. split; reflexivity.
      * intros H. apply H6. inversion H as [? ? Hs|]; [|assumption].
        discriminate.
Qed.

(** The model of process with a decorate that always returns is the
    model with the exceptions, at a decorate that never throws. *)
Lemma process_of_total_decorate (d : Decorator.t Frame Pose Drawing) :
  DecoratorThrowing.process
    (fun ps s => (Normal tt, decorate (fst s) ps (snd s))) d
  = (Normal (fst (process decorate d)), snd (process decorate d)).
Proof.
  unfold DecoratorThrowing.process, process. rewrite !bind_run.
  destruct (at_END (fst (frame_source_wait d))); [reflexivity|].
  rewrite !bind_run.
  match goal with
  | |- context [get_poses ?n 0 [] ?dd] =>
      destruct (get_poses n 0 [] dd) as [[poses|] d']
  end; [|reflexivity].
  cbn [fst snd]. rewrite !bind_run.
  unfold DecoratorThrowing.call_decorate, call_decorate.
  rewrite !bind_run. cbn [get fst snd].
  destruct (decorate _ poses (drawing d')) as [fr dr'].
  rewrite !bind_run. reflexivity.
Qed.

(** X4.  Where the frame source and every pose source have a sample,
    process takes one sample from each of them and calls decorate on the
    frame with the poses, in the order of the sources; the drawing members
    are as decorate leaves them.  Where decorate returns, process returns
    0 and publishes exactly one frame, the decorated one.  Where decorate
    throws, process throws the same exception and publishes nothing: the
    downstream sink and the shared frame are as before, and the samples
    taken are lost. *)
Theorem process_publishes_decorated_frame
  (d : Decorator.t Frame Pose Drawing) (x : Frame) (rest : list Frame) :
  Source.upcoming (frame_source_ d) = x :: rest ->
  Forall (fun s => Source.upcoming s <> []) (pose_sources_ d) ->
  let poses :=
    map (fun s => Source.clone (snd (Source.wait s))) (pose_sources_ d) in
  let out := may_throw poses (x, drawing d) in
  let r := DecoratorThrowing.process may_throw d in
  frame_source_ (snd r) = Source.mk x rest
  /\ pose_sources_ (snd r)
     = map (fun s => snd (Source.wait s)) (pose_sources_ d)
  /\ drawing (snd r) = snd (snd out)
  /\ match fst out with
     | Normal _ =>
         fst r = Normal 0%Z
         /\ shared_frame_ (snd r) = fst (snd out)
         /\ Sink.published (frame_sink_ (snd r))
            = Sink.published (frame_sink_ d) ++ [fst (snd out)]
     | Thrown e =>
         fst r = Thrown e
         /\ shared_frame_ (snd r) = shared_frame_ d
         /\ frame_sink_ (snd r) = frame_sink_ d
     end.
Proof.
  intros Hup Hall. destruct d as [[sh up] ps fk slot dr tr0].
  simpl in Hup, Hall. subst up. cbn zeta.
  unfold DecoratorThrowing.process, DecoratorThrowing.call_decorate. dec_run.
  match goal with
  | |- context [get_poses (length ps) 0 [] ?dd] =>
      destruct (get_poses_run ps [] [] dd eq_refl)
        as (H1 & H2 & H3 & H4 & H5 & _);
      destruct (H5 Hall) as [Hp Hq]; simpl in H1, H2, H3, H4, Hp, Hq;
      destruct (get_poses (length ps) 0 [] dd) as [got d'] eqn:Hloop
  end.
  simpl in *. subst got. rewrite H4.
  destruct (may_throw _ (x, dr)) as [[u|e] [fr dr']] eqn:Hdec; dec_run;
    rewrite ?H1, ?H2, ?H3, ?Hq; repeat split.
Qed.

(** X5.  Where the frame source has a sample but one of the pose sources
    is at END, process returns 1 and publishes nothing: the downstream
    sink, the shared frame and the drawing state are as before, while the
    frame has been taken from the frame source and is lost.  Where the
    frame source itself is at END, process returns 1 and nothing but the
    trace changes. *)
Theorem process_end_of_stream
  (d : Decorator.t Frame Pose Drawing) :
  (Source.upcoming (frame_source_ d) = []
   \/ Exists (fun s => Source.upcoming s = []) (pose_sources_ d)) ->
  fst (process decorate d) = 1%Z
  /\ frame_sink_ (snd (process decorate d)) = frame_sink_ d
  /\ shared_frame_ (snd (process decorate d)) = shared_frame_ d
  /\ drawing (snd (process decorate d)) = drawing d
  /\ frame_source_ (snd (process decorate d))
     = snd (Source.wait (frame_source_ d))
  /\ (Source.upcoming (frame_source_ d) = [] ->
      pose_sources_ (snd (process decorate d)) = pose_sources_ d).
Proof.
  intros Hend. destruct d as [[sh [|x rest]] ps fk slot dr tr0].
  - repeat split.
  - destruct Hend as [Hend|Hend]; [discriminate|]. simpl in Hend.
    unfold process. dec_run.
    match goal with
    | |- context [get_poses (length ps) 0 [] ?dd] =>
        destruct (get_poses_run ps [] [] dd eq_refl)
          as (H1 & H2 & H3 & H4 & _ & H6);
        pose proof (H6 Hend) as Hn; simpl in H1, H2, H3, H4, Hn;
        destruct (get_poses (length ps) 0 [] dd) as [got d'] eqn:Hloop
    end.
    simpl in *. subst got. simpl. repeat split; try assumption.
    intros; discriminate.
Qed.

End DecoratorProcess.

(** A frame of one row and 384 columns is too low for squares of side 2,
    and encodeSampleNumber throws; a frame of two rows is decorated and
    published. *)
Lemma process_publishes_decorated_frame_witness :
  let decorate :=
    SampleCode.decorate true false "range"
      (fun (_ : list nat) (s : SampleCode.Frame bool * unit) => s)
      (fun _ g => g) (fun _ g => g) (fun g => g)
      (SampleCode.mkFlags false false false false true 2) 0 in
  let low := SampleCode.mkFrame 1 384 9 (fun _ _ => false) in
  let high := SampleCode.mkFrame 2 384 9 (fun _ _ => false) in
  let d := fun f => Decorator.mk (Source.mk f [f]) [Source.mk 0 [1]]
                      (Sink.mk []) f tt [] in
  (fst (DecoratorThrowing.process decorate (d low))
   = Thrown (cv_Exception "range")
   /\ Decorator.frame_sink_ (snd (DecoratorThrowing.process decorate (d low)))
      = Sink.mk [])
  /\ (fst (DecoratorThrowing.process decorate (d high)) = Normal 0%Z
      /\ length (Sink.published
                   (Decorator.frame_sink_
                      (snd (DecoratorThrowing.process decorate (d high)))))
         = 1).
Proof.
  intros decorate low high d. split.
  - destruct (process_publishes_decorated_frame decorate (d low) low []
                eq_refl) as (_ & _ & _ & H).
    + repeat constructor; discriminate.
    + simpl in H. destruct H as (H1 & _ & H3). exact (conj H1 H3).
  - destruct (process_publishes_decorated_frame decorate (d high) high []
                eq_refl) as (_ & _ & _ & H).
    + repeat constructor; discriminate.
    + match type of H with
      | match ?out with Normal _ => _ | Thrown _ => _ end =>
          assert (E : out = Normal tt) by (vm_compute; reflexivity);
          rewrite E in H
      end.
      destruct H as (H1 & _ & H3). split; [exact H1|].
      rewrite H3. reflexivity.
Defined.

Lemma process_end_of_stream_witness :
  let d := Decorator.mk (Source.mk 0 [10; 11])
             [Source.mk 0 [1; 2]; Source.mk 0 []] (Sink.mk [7]) 7 tt [] in
  let decorate := fun (f : nat) (ps : list nat) (u : unit) =>
                    (f + list_sum ps, u) in
  fst (Decorator.process decorate d) = 1%Z
  /\ Decorator.frame_sink_ (snd (Decorator.process decorate d)) = Sink.mk [7]
  /\ Decorator.frame_source_ (snd (Decorator.process decorate d))
     = Source.mk 10 [11].
Proof.
  intros d decorate.
  destruct (process_end_of_stream decorate d) as (H1 & H2 & _ & _ & H5 & _).
  - right. apply Exists_cons_tl, Exists_cons_hd. reflexivity.
  - exact (conj H1 (conj H2 H5)).
Defined.

(** ** The driver loops: a call that throws *)

(** X6.  An exception thrown by process ends the program with status -1:
    where call number k throws a runtime error (the earlier calls having
    returned 0 with no signal), the loop makes no further call, main
    writes the message of the error to standard error, does not write its
    exit message, and returns -1. *)
Theorem exception_ends_main {Component : Type}
  (process : Component -> Result Z * Component)
  (whoMessage whoError : string -> string -> string) (name : string)
  (sigs : list bool) (k : nat) (c : Component) (what : string) :
  k < length sigs ->
  (forall i, i < k -> sigs !! i = Some false) ->
  (forall i, i < k -> fst (Driver.nth_call process i c) = Normal 0%Z) ->
  fst (Driver.nth_call process k c) = Thrown (runtime_error what) ->
  Driver.run process (Driver.Handler Driver.sigHandler) sigs 0
    Driver.initial_globals c
  = Some (Driver.Raised (S k) (runtime_error what))
  /\ Driver.main process whoMessage whoError name false sigs c
     = Some ((-1)%Z, [EvStderr (whoError name what ++ nl)%string]).
Proof.
  intros Hlen Hsig Hret Hthrow.
  destruct (lookup_lt_is_Some_2 sigs k Hlen) as (sig & Hk).
  destruct (run_quiet_prefix process (Driver.Handler Driver.sigHandler) k sigs
              0 Driver.initial_globals c eq_refl eq_refl Hsig Hret)
    as (c1 & Hrun & Hnth).
  assert (Hdrop : drop k sigs = sig :: drop (S k) sigs)
    by (apply drop_S; exact Hk).
  specialize (Hnth 0). rewrite Nat.add_0_r in Hnth. simpl in Hnth.
  rewrite Hnth in Hthrow.
  assert (Hgoal : Driver.run process (Driver.Handler Driver.sigHandler) sigs 0
                    Driver.initial_globals c
                  = Some (Driver.Raised (S k) (runtime_error what))).
  { rewrite Hrun, Hdrop.
    rewrite (run_call process (Driver.Handler Driver.sigHandler) sig
               (drop (S k) sigs) (k + 0) Driver.initial_globals
               (if sig then Driver.sigHandler Driver.SIGINT
                              Driver.initial_globals
                else Driver.initial_globals) c1 eq_refl eq_refl)
      by (destruct sig; reflexivity).
    destruct (process c1) as [r c2]. simpl in Hthrow. subst r.
    rewrite Nat.add_0_r. reflexivity. }
  split; [exact Hgoal|].
  unfold Driver.main. cbn [Driver.deliver_SIGINT]. rewrite Hgoal. reflexivity.
Qed.

Lemma exception_ends_main_witness :
  Driver.main
    (fun n : nat =>
       (if n =? 1 then Thrown (runtime_error "disk full") else Normal 0%Z,
        S n))
    (fun who msg => (who ++ ": " ++ msg)%string)
    (fun who msg => (who ++ ": " ++ msg)%string)
    "recorder" false [false; false; false] 0
  = Some ((-1)%Z, [EvStderr ("recorder: disk full" ++ nl)%string]).
Proof.
  refine (proj2 (exception_ends_main
                   (fun n : nat =>
                      (if n =? 1 then Thrown (runtime_error "disk full")
                       else Normal 0%Z, S n))
                   (fun who msg => (who ++ ": " ++ msg)%string)
                   (fun who msg => (who ++ ": " ++ msg)%string)
                   "recorder" [false; false; false] 1 0 "disk full"
                   _ _ _ _)).
  - simpl. lia.
  - intros [|i] Hi; [reflexivity|lia].
  - intros [|i] Hi; [reflexivity|lia].
  - reflexivity.
Defined.

(** ** The sample code *)

Section SampleCodeFacts.

Context {Pixel : Type} `{EqDecision Pixel}.
Variable white : Pixel.
Variable zero : Pixel.
Variable bad_range : string.

Import SampleCode.

Lemma sub_square_ok_true (column n : Z) (f : Frame Pixel) :
  (0 <= column)%Z -> (0 <= n <= rows f)%Z -> (column + n <= cols f)%Z ->
  sub_square_ok column n f = true.
Proof.
  intros Hc Hn Hcols. unfold sub_square_ok.
  repeat (apply andb_true_intro; split); apply Z.leb_le; lia.
Qed.

(** The loop on a strip that lies inside the frame: it ends normally,
    keeps the shape of the frame and writes inside the strip only. *)
Lemma encode_squares_inside (left : nat) :
  forall (sc column n : Z) (f : Frame Pixel),
    (0 <= column)%Z -> (0 <= n <= rows f)%Z ->
    (column + Z.of_nat left * n <= cols f)%Z ->
    fst (encode_squares white zero bad_range left sc column n f) = Normal tt
    /\ rows (snd (encode_squares white zero bad_range left sc column n f))
       = rows f
    /\ cols (snd (encode_squares white zero bad_range left sc column n f))
       = cols f
    /\ sample_count
         (snd (encode_squares white zero bad_range left sc column n f))
       = sample_count f
    /\ forall r c : Z,
         ~ ((0 <= r < n)%Z /\ (column <= c < column + Z.of_nat left * n)%Z) ->
         at_ (snd (encode_squares white zero bad_range left sc column n f)) r c
         = at_ f r c.
Proof.
  induction left as [|left IH]; intros sc column n f Hc Hn Hcols.
  - simpl. repeat apply conj; reflexivity.
  - cbn [encode_squares].
    rewrite sub_square_ok_true by nia.
    match goal with
    | |- context [encode_squares _ _ _ left ?sc' ?col' n ?f'] =>
        destruct (IH sc' col' n f') as (H1 & H2 & H3 & H4 & H5);
        [lia | exact Hn | simpl; nia |]
    end.
    rewrite H1, H2, H3, H4. repeat apply conj; try reflexivity.
    intros r c Hout. rewrite H5 by nia. simpl.
    destruct ((0 <=? r)%Z && (r <? n)%Z && (column <=? c)%Z
              && (c <? column + n)%Z) eqn:Hin; [|reflexivity].
    exfalso. apply Hout.
    repeat (apply andb_prop in Hin; destruct Hin as [Hin ?]).
    repeat match goal with
           | H : (_ <=? _)%Z = true |- _ => apply Z.leb_le in H
           | H : (_ <? _)%Z = true |- _ => apply Z.ltb_lt in H
           end.
    nia.
Qed.

Lemma low_bit (sc : Z) :
  (Z.land sc 1 =? 0)%Z = (sc mod 2 =? 0)%Z.
Proof.
  change 1%Z with (Z.ones 1). rewrite Z.land_ones by lia. reflexivity.
Qed.

(** What the loop writes can be read back. *)
Lemma read_back (left : nat) :
  forall (sc column n : Z) (f : Frame Pixel),
    white <> zero ->
    (0 <= column)%Z -> (0 < n <= rows f)%Z ->
    (column + Z.of_nat left * n <= cols f)%Z ->
    read_squares white left column n
      (snd (encode_squares white zero bad_range left sc column n f))
    = (sc mod 2 ^ Z.of_nat left)%Z.
Proof.
  induction left as [|left IH]; intros sc column n f Hwz Hc Hn Hcols.
  - simpl. rewrite Z.mod_1_r. reflexivity.
  - cbn [encode_squares read_squares].
    rewrite sub_square_ok_true by nia.
    set (v := if (Z.land sc 1 =? 0)%Z then zero else white).
    set (f1 := copy_to_square v column n f).
    destruct (encode_squares_inside left (Z.shiftr sc 1) (column + n) n f1)
      as (_ & _ & _ & _ & Hout); [lia|simpl; lia|simpl; nia|].
    rewrite IH; [|exact Hwz|lia|simpl; lia|simpl; nia].
    rewrite Hout by lia.
    assert (Hpix : at_ f1 0 column = v).
    { assert (Hin : (0 <=? 0)%Z && (0 <? n)%Z && (column <=? column)%Z
                    && (column <? column + n)%Z = true).
      { repeat (apply andb_true_intro; split);
          try apply Z.leb_le; try apply Z.ltb_lt; lia. }
      subst f1. cbn [copy_to_square at_]. rewrite Hin. reflexivity. }
    rewrite Hpix. subst v. rewrite low_bit.
    rewrite Z.shiftr_div_pow2 by lia. change (2 ^ 1)%Z with 2%Z.
    rewrite Nat2Z.inj_succ, Z.pow_succ_r by lia.
    rewrite Z.rem_mul_r by lia.
    pose proof (Z.mod_pos_bound sc 2 ltac:(lia)) as Hb.
    destruct (sc mod 2 =? 0)%Z eqn:Hbit.
    + apply Z.eqb_eq in Hbit. rewrite Hbit.
      rewrite bool_decide_eq_false_2 by (intros E; apply Hwz; symmetry; exact E).
      reflexivity.
    + apply Z.eqb_neq in Hbit.
      rewrite bool_decide_eq_true_2 by reflexivity.
      replace (sc mod 2)%Z with 1%Z by lia. reflexivity.
Qed.

(* The call, unfolded over the three cases of the sizes. *)
Lemma encodeSampleNumber_run (n : Z) (f : Frame Pixel) :
  encodeSampleNumber white zero bad_range n f
  = (if (cols f <? 64 * n)%Z then
       (Thrown (runtime_error
                  ("Binary counter is too large for frame. "
                   ++ "Use more x-dim pixels or turn binary counter off.")),
        f)
     else if (n <? 0)%Z || (rows f <? n)%Z then
       (Thrown (cv_Exception bad_range), f)
     else
       (Normal tt,
        snd (encode_squares white zero bad_range 64 (sample_count f)
               (cols f - 64 * n) n f))).
Proof.
  unfold encodeSampleNumber. rewrite bind_run.
  cbn [get fst snd].
  destruct (Z.ltb_spec (cols f) (64 * n)) as [Hsmall|Hfit].
  - replace (cols f - 64 * n <? 0)%Z with true
      by (symmetry; apply Z.ltb_lt; lia).
    reflexivity.
  - replace (cols f - 64 * n <? 0)%Z with false
      by (symmetry; apply Z.ltb_ge; lia).
    destruct (Z.ltb_spec n 0) as [Hneg|Hpos].
    + cbn [orb encode_squares].
      replace (sub_square_ok (cols f - 64 * n) n f) with false; [reflexivity|].
      symmetry. unfold sub_square_ok.
      replace (0 <=? n)%Z with false by (symmetry; apply Z.leb_gt; lia).
      rewrite andb_false_r. reflexivity.
    + destruct (Z.ltb_spec (rows f) n) as [Htall|Hrow].
      * cbn [orb encode_squares].
        replace (sub_square_ok (cols f - 64 * n) n f) with false;
          [reflexivity|].
        symmetry. unfold sub_square_ok.
        replace (n <=? rows f)%Z with false by (symmetry; apply Z.leb_gt; lia).
        apply andb_false_r.
      * cbn [orb].
        destruct (encode_squares_inside 64 (sample_count f)
                    (cols f - 64 * n) n f) as (H1 & _); [lia|lia|lia|].
        destruct (encode_squares white zero bad_range 64 (sample_count f)
                    (cols f - 64 * n) n f) as [r f'].
        simpl in H1. subst r. reflexivity.
Qed.

(** X7.  The outcome of encodeSampleNumber is decided by the sizes alone,
    as long as its arithmetic stays in the range of int: the number of
    columns, the product 64 n and the column cols - 64 n, with n the side
    of the squares.  If the frame has fewer than 64 n columns, the call
    throws a runtime error; otherwise, if n is negative or larger than the
    number of rows, the first square is refused by OpenCV; otherwise the
    call returns normally.  A call that throws leaves the frame as it
    was. *)
Theorem encodeSampleNumber_outcome (n : Z) (f : Frame Pixel) :
  int_range (cols f) ->
  int_range (64 * n) ->
  int_range (cols f - 64 * n) ->
  encodeSampleNumber white zero bad_range n f
  = (if (cols f <? 64 * n)%Z then
       (Thrown (runtime_error
                  ("Binary counter is too large for frame. "
                   ++ "Use more x-dim pixels or turn binary counter off.")),
        f)
     else if (n <? 0)%Z || (rows f <? n)%Z then
       (Thrown (cv_Exception bad_range), f)
     else
       (Normal tt,
        snd (encode_squares white zero bad_range 64 (sample_count f)
               (cols f - 64 * n) n f))).
Proof.
  intros _ _ _. exact (encodeSampleNumber_run n f).
Qed.

(** X8.  The code can be read back: where the squares have a positive
    side that fits the rows, the frame has 64 n columns or more, and white
    is not the zero pixel, encodeSampleNumber returns normally, and the 64
    squares of the resulting frame, read from their first column on, give
    the sample count of the frame bit by bit, least significant bit
    first. *)
Theorem sample_code_round_trip (n : Z) (f : Frame Pixel) :
  white <> zero ->
  (0 < n <= rows f)%Z ->
  (64 * n <= cols f)%Z ->
  (0 <= sample_count f < 2 ^ 64)%Z ->
  fst (encodeSampleNumber white zero bad_range n f) = Normal tt
  /\ decodeSampleNumber white n
       (snd (encodeSampleNumber white zero bad_range n f))
     = sample_count f
  /\ sample_count (snd (encodeSampleNumber white zero bad_range n f))
     = sample_count f.
Proof.
  intros Hwz Hn Hcols Hsc.
  rewrite encodeSampleNumber_run.
  replace (cols f <? 64 * n)%Z with false by (symmetry; apply Z.ltb_ge; lia).
  replace (n <? 0)%Z with false by (symmetry; apply Z.ltb_ge; lia).
  replace (rows f <? n)%Z with false by (symmetry; apply Z.ltb_ge; lia).
  cbn [orb fst snd].
  destruct (encode_squares_inside 64 (sample_count f) (cols f - 64 * n) n f)
    as (_ & _ & Hc & Hs & _); [lia|lia|lia|].
  split; [reflexivity|]. split; [|exact Hs].
  unfold decodeSampleNumber. rewrite Hc.
  rewrite read_back by (try assumption; lia).
  apply Z.mod_small. exact Hsc.
Qed.

(** X9.  The code stays in its corner: a call of encodeSampleNumber that
    returns normally keeps the number of rows and of columns, and changes
    no pixel outside the first n rows of the last 64 n columns. *)
Theorem sample_code_confined (n : Z) (f : Frame Pixel) (r c : Z) :
  (0 <= n <= rows f)%Z ->
  (64 * n <= cols f)%Z ->
  ~ ((0 <= r < n)%Z /\ (cols f - 64 * n <= c < cols f)%Z) ->
  rows (snd (encodeSampleNumber white zero bad_range n f)) = rows f
  /\ cols (snd (encodeSampleNumber white zero bad_range n f)) = cols f
  /\ at_ (snd (encodeSampleNumber white zero bad_range n f)) r c = at_ f r c.
Proof.
  intros Hn Hcols Hout.
  rewrite encodeSampleNumber_run.
  replace (cols f <? 64 * n)%Z with false by (symmetry; apply Z.ltb_ge; lia).
  replace (n <? 0)%Z with false by (symmetry; apply Z.ltb_ge; lia).
  replace (rows f <? n)%Z with false by (symmetry; apply Z.ltb_ge; lia).
  cbn [orb fst snd].
  destruct (encode_squares_inside 64 (sample_count f) (cols f - 64 * n) n f)
    as (_ & Hr & Hc & _ & Hpix); [lia|lia|lia|].
  repeat apply conj; [exact Hr|exact Hc|].
  apply Hpix. intros [H1 H2]. apply Hout. split; lia.
Qed.

Lemma encode_bit_size_bounds (cols : Z) :
  (0 <= cols)%Z ->
  (0 <= encode_bit_size cols)%Z /\ (192 * encode_bit_size cols <= cols)%Z
  /\ (cols < 192 -> encode_bit_size cols = 0)%Z.
Proof.
  intros Hc. unfold encode_bit_size.
  rewrite !Z.div_div by lia. change (3 * 8 * 8)%Z with 192%Z.
  repeat apply conj.
  - apply Z.div_pos; lia.
  - apply Z.mul_div_le. lia.
  - intros Hlt. apply Z.div_small. lia.
Qed.

(** X10.  With the side of the squares that connectToNode derives from
    the width of the frames, the code takes a third of the width at the
    most, so that encodeSampleNumber never throws its runtime error on a
    frame of that width; it returns normally unless the side exceeds the
    number of rows. *)
Theorem configured_code_fits (f : Frame Pixel) :
  (0 <= cols f)%Z ->
  (0 <= encode_bit_size (cols f))%Z
  /\ (3 * (64 * encode_bit_size (cols f)) <= cols f)%Z
  /\ throws_runtime_error
       (fst (encodeSampleNumber white zero bad_range
               (encode_bit_size (cols f)) f)) = false
  /\ throws (fst (encodeSampleNumber white zero bad_range
                    (encode_bit_size (cols f)) f))
     = (rows f <? encode_bit_size (cols f))%Z.
Proof.
  intros Hc.
  destruct (encode_bit_size_bounds (cols f) Hc) as (H0 & H192 & _).
  rewrite encodeSampleNumber_run.
  replace (cols f <? 64 * encode_bit_size (cols f))%Z with false
    by (symmetry; apply Z.ltb_ge; lia).
  replace (encode_bit_size (cols f) <? 0)%Z with false
    by (symmetry; apply Z.ltb_ge; lia).
  cbn [orb].
  repeat apply conj; [exact H0|lia| |];
    destruct (rows f <? encode_bit_size (cols f))%Z; reflexivity.
Qed.

(** X11.  Frames narrower than 192 columns get no code: the side of the
    squares is 0, encodeSampleNumber returns normally and the frame keeps
    every pixel. *)
Theorem narrow_frame_gets_no_code (f : Frame Pixel) (r c : Z) :
  (0 <= cols f < 192)%Z ->
  (0 <= rows f)%Z ->
  encode_bit_size (cols f) = 0%Z
  /\ fst (encodeSampleNumber white zero bad_range
            (encode_bit_size (cols f)) f) = Normal tt
  /\ at_ (snd (encodeSampleNumber white zero bad_range
                 (encode_bit_size (cols f)) f)) r c
     = at_ f r c.
Proof.
  intros Hc Hr.
  destruct (encode_bit_size_bounds (cols f) ltac:(lia)) as (_ & _ & Hz).
  rewrite (Hz ltac:(lia)). split; [reflexivity|].
  rewrite encodeSampleNumber_run.
  replace (cols f <? 64 * 0)%Z with false by (symmetry; apply Z.ltb_ge; lia).
  replace (rows f <? 0)%Z with false by (symmetry; apply Z.ltb_ge; lia).
  cbn [orb Z.ltb Z.compare fst snd]. split; [reflexivity|].
  destruct (encode_squares_inside 64 (sample_count f) (cols f - 64 * 0) 0 f)
    as (_ & _ & _ & _ & Hpix); [lia|lia|lia|].
  apply Hpix. lia.
Qed.

Section Decorate.

Context {Pose History : Type}.
Variable drawPose :
  list Pose -> Frame Pixel * History -> Frame Pixel * History.
Variable printRegion : list Pose -> Frame Pixel -> Frame Pixel.
Variable printTimeStamp : Z -> Frame Pixel -> Frame Pixel.
Variable printSampleNumber : Frame Pixel -> Frame Pixel.

Lemma same_shape_trans (f g h : Frame Pixel) :
  same_shape f g -> same_shape g h -> same_shape f h.
Proof.
  unfold same_shape. intros (A1 & A2 & A3) (B1 & B2 & B3).
  repeat apply conj; congruence.
Qed.

(** X12.  The code is drawn last, so nothing decorate draws can spoil it.
    Take drawing routines that keep the size and the sample count of the
    frame, the sample code switched on, a white that is not the zero
    pixel, a frame whose sample count is below 2^64, and squares of a
    side n that fits the frame: 0 < n, n no larger than the number of
    rows, and 64 n no larger than the number of columns.  Then decorate
    returns normally and the code read back from the decorated frame is
    the sample count of the frame that came in, whichever of the other
    decorations are switched on. *)
Theorem decorate_keeps_code_readable
  (fl : Flags) (raw_time : Z) (poses : list Pose)
  (f : Frame Pixel) (h : History) :
  (forall ps s, same_shape (fst (drawPose ps s)) (fst s)) ->
  (forall ps g, same_shape (printRegion ps g) g) ->
  (forall t g, same_shape (printTimeStamp t g) g) ->
  (forall g, same_shape (printSampleNumber g) g) ->
  encode_sample_number_ fl = true ->
  white <> zero ->
  (0 < encode_bit_size_ fl <= rows f)%Z ->
  (64 * encode_bit_size_ fl <= cols f)%Z ->
  (0 <= sample_count f < 2 ^ 64)%Z ->
  fst (decorate white zero bad_range drawPose printRegion printTimeStamp
         printSampleNumber fl raw_time poses (f, h)) = Normal tt
  /\ decodeSampleNumber white (encode_bit_size_ fl)
       (fst (snd (decorate white zero bad_range drawPose printRegion
                    printTimeStamp printSampleNumber fl raw_time poses
                    (f, h))))
     = sample_count f.
Proof.
  intros Hdraw Hregion Htime Hnumber Hon Hwz Hn Hcols Hsc.
  unfold decorate. rewrite Hon. rewrite !bind_run.
  set (s1 := snd ((if decorate_position_ fl then
                     modify (drawPose poses) ;;;
                     (if print_region_ fl
                      then on_frame (modify (printRegion poses))
                      else ret tt)
                   else ret tt) (f, h))).
  assert (H1 : same_shape (fst s1) f).
  { subst s1. destruct (decorate_position_ fl); [|repeat split].
    rewrite bind_run. cbn [modify fst snd].
    destruct (print_region_ fl); cbn [on_frame modify ret fst snd].
    - eapply same_shape_trans; [apply Hregion|apply (Hdraw poses (f, h))].
    - apply (Hdraw poses (f, h)). }
  set (s2 := snd ((if print_timestamp_ fl
                   then on_frame (modify (printTimeStamp raw_time))
                   else ret tt) s1)).
  assert (H2 : same_shape (fst s2) f).
  { subst s2. destruct (print_timestamp_ fl);
      cbn [on_frame modify ret fst snd]; [|exact H1].
    eapply same_shape_trans; [apply Htime|exact H1]. }
  set (s3 := snd ((if print_sample_number_ fl
                   then on_frame (modify printSampleNumber)
                   else ret tt) s2)).
  assert (H3 : same_shape (fst s3) f).
  { subst s3. destruct (print_sample_number_ fl);
      cbn [on_frame modify ret fst snd]; [|exact H2].
    eapply same_shape_trans; [apply Hnumber|exact H2]. }
  destruct H3 as (Hr & Hc & Hs).
  unfold on_frame. rewrite encodeSampleNumber_run.
  replace (cols (fst s3) <? 64 * encode_bit_size_ fl)%Z with false
    by (symmetry; apply Z.ltb_ge; lia).
  replace (encode_bit_size_ fl <? 0)%Z with false
    by (symmetry; apply Z.ltb_ge; lia).
  replace (rows (fst s3) <? encode_bit_size_ fl)%Z with false
    by (symmetry; apply Z.ltb_ge; lia).
  cbn [orb fst snd]. split; [reflexivity|].
  destruct (encode_squares_inside 64 (sample_count (fst s3))
              (cols (fst s3) - 64 * encode_bit_size_ fl)
              (encode_bit_size_ fl) (fst s3))
    as (_ & _ & Hc' & _ & _); [lia|lia|lia|].
  unfold decodeSampleNumber. rewrite Hc'.
  rewrite read_back by (try assumption; lia).
  rewrite Hs. apply Z.mod_small. exact Hsc.
Qed.

End Decorate.

End SampleCodeFacts.

(** Frames of booleans for the witnesses: two rows of 64 columns and
    squares of side 1 (a third row and 256 columns for the last one). *)
Lemma encodeSampleNumber_outcome_witness :
  fst (SampleCode.encodeSampleNumber true false "range" 2
         (SampleCode.mkFrame 1 384 9 (fun _ _ => false)))
  = Thrown (cv_Exception "range").
Proof.
  refine (eq_trans
            (f_equal fst
               (encodeSampleNumber_outcome true false "range" 2
                  (SampleCode.mkFrame 1 384 9 (fun _ _ => false)) _ _ _))
            _);
    [unfold SampleCode.int_range; simpl; lia ..|reflexivity].
Defined.

Lemma sample_code_round_trip_witness :
  SampleCode.decodeSampleNumber true 1
    (snd (SampleCode.encodeSampleNumber true false "range" 1
            (SampleCode.mkFrame 2 64 37 (fun _ _ => false))))
  = 37%Z.
Proof.
  refine (proj1 (proj2 (sample_code_round_trip true false "range" 1
                          (SampleCode.mkFrame 2 64 37 (fun _ _ => false))
                          _ _ _ _))); simpl; lia.
Defined.

Lemma sample_code_confined_witness :
  SampleCode.at_
    (snd (SampleCode.encodeSampleNumber true false "range" 1
            (SampleCode.mkFrame 2 70 63 (fun _ _ => true)))) 0 5
  = true.
Proof.
  refine (proj2 (proj2 (sample_code_confined true false "range" 1
                          (SampleCode.mkFrame 2 70 63 (fun _ _ => true))
                          0 5 _ _ _))); simpl; lia.
Defined.

Lemma configured_code_fits_witness :
  throws (fst (SampleCode.encodeSampleNumber true false "range"
                 (SampleCode.encode_bit_size 640)
                 (SampleCode.mkFrame 480 640 9 (fun _ _ => false))))
  = false.
Proof.
  refine (eq_trans
            (proj2 (proj2 (proj2 (configured_code_fits true false "range"
                     (SampleCode.mkFrame 480 640 9 (fun _ _ => false)) _))))
            _).
  - simpl. lia.
  - reflexivity.
Defined.

Lemma narrow_frame_gets_no_code_witness :
  SampleCode.encode_bit_size 160 = 0%Z
  /\ SampleCode.at_
       (snd (SampleCode.encodeSampleNumber true false "range"
               (SampleCode.encode_bit_size 160)
               (SampleCode.mkFrame 120 160 9 (fun _ _ => true)))) 0 159
     = true.
Proof.
  destruct (narrow_frame_gets_no_code true false "range"
              (SampleCode.mkFrame 120 160 9 (fun _ _ => true)) 0 159)
    as (H1 & _ & H3); [simpl; lia|simpl; lia|].
  exact (conj H1 H3).
Defined.

Lemma decorate_keeps_code_readable_witness :
  let invert := fun g : SampleCode.Frame bool =>
    SampleCode.mkFrame (SampleCode.rows g) (SampleCode.cols g)
      (SampleCode.sample_count g)
      (fun r c => negb (SampleCode.at_ g r c)) in
  SampleCode.decodeSampleNumber true 1
    (fst (snd (SampleCode.decorate true false "range"
                 (fun (_ : list nat) (s : SampleCode.Frame bool * unit) =>
                    (invert (fst s), snd s))
                 (fun _ g => g) (fun _ g => invert g) (fun g => g)
                 (SampleCode.mkFlags true true true false true 1) 0 [4; 5]
                 (SampleCode.mkFrame 2 64 200 (fun _ _ => false), tt))))
  = 200%Z.
Proof.
  intros invert.
  refine (proj2 (decorate_keeps_code_readable true false "range"
                   (fun (_ : list nat) (s : SampleCode.Frame bool * unit) =>
                      (invert (fst s), snd s))
                   (fun _ g => g) (fun _ g => invert g) (fun g => g)
                   (SampleCode.mkFlags true true true false true 1) 0 [4; 5]
                   (SampleCode.mkFrame 2 64 200 (fun _ _ => false)) tt
                   _ _ _ _ _ _ _ _ _));
    try (intros; repeat split); simpl; lia.
Defined.

(** ** Position2D: what the conversion uses and what it keeps *)

Section Position2DMore.

Context {Position float32 : Type}.
Variable PIXELS : Z.
Variable WORLD : Z.
Variable to_double : float32 -> float.
Variable transform32 : Position2D.Matx33 float32 -> Position2D.Point2D
                       -> Position2D.Point2D.
Variable transform64 : Position2D.Matx33 float -> Position2D.Point2D
                       -> Position2D.Point2D.

Import Position2D.

(** X13.  The offsets of the homography do not reach the velocity: for a
    position in pixels with a valid homography, the converted velocity is
    the same whatever the entries (0,2) and (1,2) of the homography are,
    while the conversion keeps the base part, the homography and the three
    validity flags of the position. *)
Theorem velocity_ignores_offsets
  (p : Position2D.t Position float32) (a b : float32) :
  coord_system p = PIXELS ->
  homography_valid p = true ->
  velocity
    (fst (convertToWorldCoordinates PIXELS WORLD to_double transform32
            transform64
            (mk (base p) (coord_system p) (homography_valid p)
                (set_12 b (set_02 a (homography p)))
                (position_valid p) (position p) (velocity_valid p)
                (velocity p) (head_direction_valid p) (head_direction p))))
  = velocity
      (fst (convertToWorldCoordinates PIXELS WORLD to_double transform32
              transform64 p))
  /\ base (fst (convertToWorldCoordinates PIXELS WORLD to_double transform32
                  transform64 p)) = base p
  /\ homography (fst (convertToWorldCoordinates PIXELS WORLD to_double
                        transform32 transform64 p)) = homography p
  /\ position_valid (fst (convertToWorldCoordinates PIXELS WORLD to_double
                            transform32 transform64 p)) = position_valid p
  /\ velocity_valid (fst (convertToWorldCoordinates PIXELS WORLD to_double
                            transform32 transform64 p)) = velocity_valid p
  /\ head_direction_valid
       (fst (convertToWorldCoordinates PIXELS WORLD to_double transform32
               transform64 p)) = head_direction_valid p.
Proof.
  intros Hc Hh.
  rewrite !convert_pixels
    by (cbn [coord_system homography_valid]; rewrite Hc, Z.eqb_refl, Hh;
        reflexivity).
  repeat apply conj; reflexivity.
Qed.

End Position2DMore.

Lemma velocity_ignores_offsets_witness :
  let shift := fun (m : Position2D.Matx33 float) (pt : Position2D.Point2D) =>
                 (PrimFloat.add (fst pt) (Position2D.m02 m),
                  PrimFloat.add (snd pt) (Position2D.m12 m)) in
  let conv := Position2D.convertToWorldCoordinates (Position:=string)
                0 1 (fun x : float => x) shift shift in
  let p := fun a b : float =>
             Position2D.mk "default"%string 0 true
               (Position2D.mkMatx33 1 0 a 0 1 b 0 0 1)%float
               true (2, 3)%float true (1, 1)%float true (0, 1)%float in
  Position2D.velocity (fst (conv (p 5 7)%float))
  = Position2D.velocity (fst (conv (p 0 0)%float)).
Proof.
  intros shift conv p.
  exact (proj1 (velocity_ignores_offsets 0 1 (fun x : float => x) shift shift
                  (p 0 0)%float 5%float 7%float eq_refl eq_refl)).
Defined.

(** ** extractConfigFileKey: what a caller gets *)

(** X14.  A vector returned by extractConfigFileKey is either empty, and
    then the "config" option was empty, or the pair of strings stored under
    "config"; the function never returns a vector of another length. *)
Theorem extractConfigFileKey_result
  (map : gmap string ProgramOptions.variable_value) (l : list string) :
  fst (ProgramOptions.extractConfigFileKey map) = Normal l ->
  (l = [] /\ ProgramOptions.empty (ProgramOptions.at_key map "config") = true)
  \/ (length l = 2
      /\ map !! "config"%string = Some (ProgramOptions.strings_value l)).
Proof.
  unfold ProgramOptions.extractConfigFileKey. rewrite bind_run.
  cbn [get fst snd]. unfold ProgramOptions.at_key.
  destruct (map !! "config"%string) as [[|v|]|] eqn:Hm; cbn.
  - intros [= <-]. left. split; reflexivity.
  - destruct (length v =? 2) eqn:Hlen; cbn; [|discriminate].
    intros [= <-]. right. apply Nat.eqb_eq in Hlen. split; [exact Hlen|].
    reflexivity.
  - discriminate.
  - intros [= <-]. left. split; reflexivity.
Qed.

Lemma extractConfigFileKey_result_witness :
  length ["oat.toml"; "detector"]%string = 2
  /\ ({[ "config"%string :=
           ProgramOptions.strings_value ["oat.toml"; "detector"]%string ]}
      : gmap string ProgramOptions.variable_value) !! "config"%string
     = Some (ProgramOptions.strings_value ["oat.toml"; "detector"]%string).
Proof.
  assert (H : fst (ProgramOptions.extractConfigFileKey
                     {[ "config"%string :=
                          ProgramOptions.strings_value
                            ["oat.toml"; "detector"]%string ]})
              = Normal ["oat.toml"; "detector"]%string).
  { unfold ProgramOptions.extractConfigFileKey. rewrite bind_run.
    cbn [get fst snd]. unfold ProgramOptions.at_key.
    rewrite lookup_singleton_eq. reflexivity. }
  destruct (extractConfigFileKey_result _ _ H) as [[H0 _]|H1].
  - discriminate H0.
  - exact H1.
Defined.

(** ** The difference detector: blur and images *)

Section BlurFacts.

Context {variables_map OptionTable : Type}.
Variable getNumericValue_int :
  variables_map -> OptionTable -> string -> Z -> DifferenceDetector.Lookup Z.
Variable getArray_double_2 :
  variables_map -> OptionTable -> string
  -> DifferenceDetector.Lookup (list float).
Variable getValue_bool :
  variables_map -> OptionTable -> string -> DifferenceDetector.Lookup bool.
Variable double_to_int : float -> Z.

Import DifferenceDetector.
Import DifferenceDetectorImages.

Lemma set_blur_size_run (value : Z) (d : DifferenceDetector.t) :
  set_blur_size value d
  = (tt, if (0 <? value)%Z then set_blur true (value, value) d
         else set_blur false (blur_size_ d) d).
Proof.
  unfold set_blur_size. rewrite bind_run. cbn [get fst snd].
  destruct (0 <? value)%Z; reflexivity.
Qed.

Lemma set_blur_size_consistent (value : Z) (d : DifferenceDetector.t) :
  blur_consistent (snd (set_blur_size value d)).
Proof.
  rewrite set_blur_size_run. cbn [snd].
  destruct (Z.ltb_spec 0 value); intros Hon; simpl in *;
    [split; exact H|discriminate].
Qed.

(** The blocks of applyConfiguration other than the blur keep the blur
    members. *)
Lemma configure_threshold_blur (vm : variables_map) (tab : OptionTable)
  (d : DifferenceDetector.t) :
  blur_on_ (snd (configure_threshold getNumericValue_int vm tab d))
  = blur_on_ d
  /\ blur_size_ (snd (configure_threshold getNumericValue_int vm tab d))
     = blur_size_ d.
Proof.
  unfold configure_threshold.
  destruct (getNumericValue_int vm tab "diff-threshold" 0%Z);
    split; reflexivity.
Qed.

Lemma configure_area_blur (vm : variables_map) (tab : OptionTable)
  (d : DifferenceDetector.t) :
  blur_on_ (snd (configure_area getArray_double_2 double_to_int vm tab d))
  = blur_on_ d
  /\ blur_size_ (snd (configure_area getArray_double_2 double_to_int vm tab d))
     = blur_size_ d.
Proof.
  unfold configure_area.
  destruct (getArray_double_2 vm tab "area") as [area| |e];
    [|split; reflexivity|split; reflexivity].
  rewrite !bind_run. cbn [get modify fst snd].
  match goal with
  | |- context [if ?c then _ else _] => destruct c
  end; split; reflexivity.
Qed.

Lemma configure_tune_blur (vm : variables_map) (tab : OptionTable)
  (d : DifferenceDetector.t) :
  blur_on_ (snd (configure_tune getValue_bool vm tab d)) = blur_on_ d
  /\ blur_size_ (snd (configure_tune getValue_bool vm tab d)) = blur_size_ d.
Proof.
  unfold configure_tune.
  destruct (getValue_bool vm tab "tune"); split; reflexivity.
Qed.

Lemma blur_consistent_ext (d d' : DifferenceDetector.t) :
  blur_on_ d' = blur_on_ d -> blur_size_ d' = blur_size_ d ->
  blur_consistent d -> blur_consistent d'.
Proof.
  unfold blur_consistent. intros -> ->. exact id.
Qed.

(** X15.  The blur is never switched on with an empty kernel: after
    set_blur_size, and so after the callback of the blur slider, the blur
    is off or its kernel has positive sides, whatever the value; and
    applyConfiguration keeps a detector in that condition, whatever the
    configuration holds and whether or not the call throws. *)
Theorem blur_kernel_stays_positive
  (vm : variables_map) (tab : OptionTable) (d : DifferenceDetector.t)
  (value : Z) :
  blur_consistent d ->
  blur_consistent (snd (set_blur_size value d))
  /\ blur_consistent (snd (diffDetectorBlurSliderChangedCallback value d))
  /\ blur_consistent
       (snd (applyConfiguration getNumericValue_int getArray_double_2
               getValue_bool double_to_int vm tab d)).
Proof.
  intros Hd. split; [apply set_blur_size_consistent|].
  split; [apply set_blur_size_consistent|].
  unfold applyConfiguration. rewrite andthen_run.
  set (d1 := snd (configure_threshold getNumericValue_int vm tab d)).
  assert (H1 : blur_consistent d1).
  { destruct (configure_threshold_blur vm tab d) as [Ha Hb].
    exact (blur_consistent_ext d d1 Ha Hb Hd). }
  destruct (fst (configure_threshold getNumericValue_int vm tab d));
    [|exact H1].
  rewrite andthen_run.
  set (d2 := snd (configure_blur getNumericValue_int vm tab d1)).
  assert (H2 : blur_consistent d2).
  { subst d2. unfold configure_blur.
    destruct (getNumericValue_int vm tab "blur" 0%Z) as [v| |e];
      [|exact H1|exact H1].
    rewrite bind_run. apply set_blur_size_consistent. }
  destruct (fst (configure_blur getNumericValue_int vm tab d1)); [|exact H2].
  rewrite andthen_run.
  set (d3 := snd (configure_area getArray_double_2 double_to_int vm tab d2)).
  assert (H3 : blur_consistent d3).
  { destruct (configure_area_blur vm tab d2) as [Ha Hb].
    exact (blur_consistent_ext d2 d3 Ha Hb H2). }
  destruct (fst (configure_area getArray_double_2 double_to_int vm tab d2));
    [|exact H3].
  destruct (configure_tune_blur vm tab d3) as [Ha Hb].
  exact (blur_consistent_ext d3 _ Ha Hb H3).
Qed.

End BlurFacts.

Lemma blur_kernel_stays_positive_witness :
  DifferenceDetectorImages.blur_consistent
    (snd (DifferenceDetector.applyConfiguration
            (fun (_ _ : unit) key _ =>
               if String.eqb key "blur" then DifferenceDetector.Found 0%Z
               else DifferenceDetector.Absent)
            (fun (_ _ : unit) _ => DifferenceDetector.Absent)
            (fun (_ _ : unit) _ => DifferenceDetector.Absent)
            (fun _ => 0%Z) tt tt
            (DifferenceDetector.mk 10 true (2, 2)%Z 0%float 0%float 0 0
               false))).
Proof.
  refine (proj2 (proj2 (blur_kernel_stays_positive _ _ _ _ tt tt _ 0%Z _))).
  intros _. simpl. lia.
Defined.

Section ThresholdFacts.

Context {Mat : Type}.
Variable absdiff : Mat -> Mat -> Mat.
Variable threshold_binary : Mat -> Z -> Z -> Mat.
Variable blur : Mat -> Z * Z -> Mat.

Import DifferenceDetectorImages.

Lemma applyThreshold_fresh (frame : Mat) (d : DifferenceDetectorImages.t Mat) :
  last_image_set_ d = false ->
  applyThreshold absdiff threshold_binary blur frame d
  = (tt, mk (params d) true frame frame).
Proof.
  intros Hset. destruct d as [p set_ last thr]. simpl in Hset. subst set_.
  reflexivity.
Qed.

Lemma applyThreshold_next (frame : Mat) (d : DifferenceDetectorImages.t Mat) :
  last_image_set_ d = true ->
  applyThreshold absdiff threshold_binary blur frame d
  = (tt,
     mk (params d) true frame
        (if DifferenceDetector.blur_on_ (params d)
         then blur (threshold_binary (absdiff frame (last_image_ d))
                      (DifferenceDetector.difference_intensity_threshold_
                         (params d)) 255)
                (DifferenceDetector.blur_size_ (params d))
         else threshold_binary (absdiff frame (last_image_ d))
                (DifferenceDetector.difference_intensity_threshold_
                   (params d)) 255)).
Proof.
  intros Hset. destruct d as [p set_ last thr]. simpl in Hset. subst set_.
  reflexivity.
Qed.

Lemma applyThreshold_remembers (frame : Mat)
  (d : DifferenceDetectorImages.t Mat) :
  last_image_set_ (snd (applyThreshold absdiff threshold_binary blur frame d))
  = true
  /\ last_image_ (snd (applyThreshold absdiff threshold_binary blur frame d))
     = frame
  /\ params (snd (applyThreshold absdiff threshold_binary blur frame d))
     = params d.
Proof.
  destruct (last_image_set_ d) eqn:Hset.
  - rewrite applyThreshold_next by exact Hset. repeat split.
  - rewrite applyThreshold_fresh by exact Hset. repeat split.
Qed.

Lemma applyThreshold_each_app (l1 l2 : list Mat)
  (d : DifferenceDetectorImages.t Mat) :
  snd (applyThreshold_each absdiff threshold_binary blur (l1 ++ l2) d)
  = snd (applyThreshold_each absdiff threshold_binary blur l2
           (snd (applyThreshold_each absdiff threshold_binary blur l1 d))).
Proof.
  revert d. induction l1 as [|g l1 IH]; intros d; [reflexivity|].
  simpl. rewrite !bind_run. apply IH.
Qed.

Lemma applyThreshold_each_remembers (l : list Mat) (g : Mat)
  (d : DifferenceDetectorImages.t Mat) :
  last_image_set_
    (snd (applyThreshold_each absdiff threshold_binary blur (l ++ [g]) d))
  = true
  /\ last_image_
       (snd (applyThreshold_each absdiff threshold_binary blur (l ++ [g]) d))
     = g
  /\ params
       (snd (applyThreshold_each absdiff threshold_binary blur (l ++ [g]) d))
     = params d.
Proof.
  revert d. induction l as [|h l IH]; intros d.
  - simpl. rewrite bind_run. cbn [ret snd]. apply applyThreshold_remembers.
  - simpl. rewrite bind_run.
    destruct (IH (snd (applyThreshold absdiff threshold_binary blur h d)))
      as (H1 & H2 & H3).
    destruct (applyThreshold_remembers h d) as (_ & _ & Hp).
    rewrite H1, H2, H3, Hp. repeat split.
Qed.

(** X16.  A detector that has seen no image passes its first frame on as
    the threshold frame, as it is.  From then on every frame is compared
    with the frame just before it and with no other: after any stream
    that ends with the frames [prev] and [frame], the threshold frame is
    the thresholded absolute difference of these two (blurred if the blur
    is on), and [frame] is the image kept for the next call. *)
Theorem applyThreshold_compares_with_predecessor
  (d : DifferenceDetectorImages.t Mat) (first : Mat) (frames : list Mat)
  (prev frame : Mat) :
  last_image_set_ d = false ->
  threshold_frame_
    (snd (applyThreshold absdiff threshold_binary blur first d)) = first
  /\ threshold_frame_
       (snd (applyThreshold_each absdiff threshold_binary blur
               (frames ++ [prev; frame]) d))
     = (if DifferenceDetector.blur_on_ (params d)
        then blur (threshold_binary (absdiff frame prev)
                     (DifferenceDetector.difference_intensity_threshold_
                        (params d)) 255)
               (DifferenceDetector.blur_size_ (params d))
        else threshold_binary (absdiff frame prev)
               (DifferenceDetector.difference_intensity_threshold_ (params d))
               255)
  /\ last_image_
       (snd (applyThreshold_each absdiff threshold_binary blur
               (frames ++ [prev; frame]) d))
     = frame.
Proof.
  intros Hfresh. split.
  - rewrite applyThreshold_fresh by exact Hfresh. reflexivity.
  - replace (frames ++ [prev; frame]) with ((frames ++ [prev]) ++ [frame])
      by (rewrite <- app_assoc; reflexivity).
    rewrite applyThreshold_each_app.
    destruct (applyThreshold_each_remembers frames prev d) as (H1 & H2 & H3).
    simpl. rewrite bind_run. cbn [ret snd].
    rewrite applyThreshold_next by exact H1.
    cbn [snd threshold_frame_ last_image_]. rewrite H2, H3.
    split; reflexivity.
Qed.

End ThresholdFacts.

(** Images as numbers for the witness: the absolute difference, a
    threshold that gives 255 above the level, and a blur that halves. *)
Lemma applyThreshold_compares_with_predecessor_witness :
  DifferenceDetectorImages.threshold_frame_
    (snd (DifferenceDetectorImages.applyThreshold_each
            (fun a b : Z => Z.abs (a - b))
            (fun (m level top : Z) => if (level <? m)%Z then top else 0%Z)
            (fun (m : Z) (_ : Z * Z) => (m / 2)%Z)
            [3; 100; 40; 90]%Z
            (DifferenceDetectorImages.mk
               (DifferenceDetector.mk 10 false (2, 2)%Z 0%float 0%float 0 0
                  false)
               false 0%Z 0%Z)))
  = 255%Z.
Proof.
  exact (proj1 (proj2 (applyThreshold_compares_with_predecessor
                  (fun a b : Z => Z.abs (a - b))
                  (fun (m level top : Z) =>
                     if (level <? m)%Z then top else 0%Z)
                  (fun (m : Z) (_ : Z * Z) => (m / 2)%Z)
                  (DifferenceDetectorImages.mk
                     (DifferenceDetector.mk 10 false (2, 2)%Z 0%float 0%float
                        0 0 false)
                     false 0%Z 0%Z)
                  3%Z [3; 100]%Z 40%Z 90%Z eq_refl))).
Defined.

(** ** Viewer<T>::process *)

Section ViewerFacts.

Context {T : Type}.
Variable to_milliseconds : Z -> Z.

Import Viewer.

Lemma process_at_END (now1 now2 : Z) (v : Viewer.t T) :
  Source.upcoming (source_ v) = [] ->
  process to_milliseconds now1 now2 v
  = (1%Z, mk (source_ v) (sample_ v) (tock_ v) (min_update_period_ms v)
             (display_complete_ v) (io v ++ [EvWait FrameSrc END])).
Proof.
  intros Hup. destruct v as [[sh up] smp tk per dc tr]. simpl in Hup.
  subst up. reflexivity.
Qed.

Lemma process_refresh (now1 now2 : Z) (v : Viewer.t T) (x : T)
  (rest : list T) :
  Source.upcoming (source_ v) = x :: rest ->
  refresh_needed to_milliseconds now1 v = true ->
  process to_milliseconds now1 now2 v
  = (0%Z, mk (Source.mk x rest) (Some x) now2 (min_update_period_ms v)
             (display_complete_ v)
             (io v ++ [EvWait FrameSrc BOUND; EvRead FrameSrc;
                       EvPost FrameSrc; EvNotify])).
Proof.
  intros Hup Href. destruct v as [[sh up] smp tk per dc tr]. simpl in Hup.
  subst up. unfold refresh_needed in Href. simpl in Href.
  unfold process, source_wait, bind, get, modify, emit, ret,
    retrieve_sample, source_post, set_tock_, refresh_needed; simpl.
  rewrite Href. simpl. rewrite <- !app_assoc. reflexivity.
Qed.

Lemma process_skip (now1 now2 : Z) (v : Viewer.t T) (x : T)
  (rest : list T) :
  Source.upcoming (source_ v) = x :: rest ->
  refresh_needed to_milliseconds now1 v = false ->
  process to_milliseconds now1 now2 v
  = (0%Z, mk (Source.mk x rest) (sample_ v) (tock_ v)
             (min_update_period_ms v) (display_complete_ v)
             (io v ++ [EvWait FrameSrc BOUND; EvPost FrameSrc])).
Proof.
  intros Hup Href. destruct v as [[sh up] smp tk per dc tr]. simpl in Hup.
  subst up. unfold refresh_needed in Href. simpl in Href.
  unfold process, source_wait, bind, get, modify, emit, ret,
    retrieve_sample, source_post, set_tock_, refresh_needed; simpl.
  rewrite Href. simpl. rewrite <- !app_assoc. reflexivity.
Qed.

(** X17.  The viewer never holds the sink up: every call of process keeps
    the handshake on its source, posting exactly once for each wait that
    did not return END, whether it takes the sample or skips it, and it
    returns 1 exactly when the source is at END. *)
Theorem viewer_process_handshake (now1 now2 : Z) (v : Viewer.t T) :
  exists tr : list Event,
    io (snd (process to_milliseconds now1 now2 v)) = io v ++ tr
    /\ disciplined tr
    /\ count_ok_waits FrameSrc tr = count_posts FrameSrc tr
    /\ count_posts FrameSrc tr
       = (if (fst (process to_milliseconds now1 now2 v) =? 0)%Z
          then 1 else 0)
    /\ fst (process to_milliseconds now1 now2 v)
       = match Source.upcoming (source_ v) with [] => 1%Z | _ => 0%Z end.
Proof.
  destruct (Source.upcoming (source_ v)) as [|x rest] eqn:Hup.
  - rewrite (process_at_END now1 now2 v Hup).
    exists [EvWait FrameSrc END]. repeat apply conj; try reflexivity.
    apply disciplined_end.
  - destruct (refresh_needed to_milliseconds now1 v) eqn:Href.
    + rewrite (process_refresh now1 now2 v x rest Hup Href).
      exists [EvWait FrameSrc BOUND; EvRead FrameSrc; EvPost FrameSrc;
              EvNotify].
      repeat apply conj; try reflexivity.
      intros p. simpl. destruct (bool_decide (FrameSrc = p)); reflexivity.
    + rewrite (process_skip now1 now2 v x rest Hup Href).
      exists [EvWait FrameSrc BOUND; EvPost FrameSrc].
      repeat apply conj; try reflexivity.
      intros p. simpl. destruct (bool_decide (FrameSrc = p)); reflexivity.
Qed.

(** X18.  A sample that comes before the minimum update period has passed
    since the last refresh, or while the display is not complete, is
    skipped: process releases it upstream without reading it, keeps the
    sample it holds and the time of the last refresh, and does not wake
    the display thread.  Otherwise it takes the sample, wakes the display
    thread and restarts the period. *)
Theorem viewer_skips_when_busy_or_early
  (now1 now2 : Z) (v : Viewer.t T) (x : T) (rest : list T) :
  Source.upcoming (source_ v) = x :: rest ->
  source_ (snd (process to_milliseconds now1 now2 v)) = Source.mk x rest
  /\ sample_ (snd (process to_milliseconds now1 now2 v))
     = (if (min_update_period_ms v <? to_milliseconds (now1 - tock_ v))%Z
           && display_complete_ v
        then Some x else sample_ v)
  /\ tock_ (snd (process to_milliseconds now1 now2 v))
     = (if (min_update_period_ms v <? to_milliseconds (now1 - tock_ v))%Z
           && display_complete_ v
        then now2 else tock_ v)
  /\ io (snd (process to_milliseconds now1 now2 v))
     = io v ++ (if (min_update_period_ms v
                    <? to_milliseconds (now1 - tock_ v))%Z
                   && display_complete_ v
                then [EvWait FrameSrc BOUND; EvRead FrameSrc;
                      EvPost FrameSrc; EvNotify]
                else [EvWait FrameSrc BOUND; EvPost FrameSrc]).
Proof.
  intros Hup.
  destruct (refresh_needed to_milliseconds now1 v) eqn:Href.
  - rewrite (process_refresh now1 now2 v x rest Hup Href).
    unfold refresh_needed in Href. rewrite Href. repeat split.
  - rewrite (process_skip now1 now2 v x rest Hup Href).
    unfold refresh_needed in Href. rewrite Href. repeat split.
Qed.

End ViewerFacts.

Lemma viewer_skips_when_busy_or_early_witness :
  let v := Viewer.mk (Source.mk 0 [8; 9]) (Some 7) 1000 33 false [] in
  Viewer.sample_ (snd (Viewer.process (fun d => d) 2000 2001 v)) = Some 7
  /\ Viewer.source_ (snd (Viewer.process (fun d => d) 2000 2001 v))
     = Source.mk 8 [9].
Proof.
  intros v.
  destruct (viewer_skips_when_busy_or_early (fun d => d) 2000 2001 v 8 [9]
              eq_refl) as (H1 & H2 & _).
  exact (conj H2 H1).
Defined.

(** ** The command line of the recorder *)

Section RecorderMainFacts.

Import RecorderMain.

Lemma neighbours_single (x : string) : no_equal_neighbours [x].
Proof. intros [|i] a b Ha Hb; discriminate. Qed.

Lemma neighbours_cons (x y : string) (l : list string) :
  no_equal_neighbours (x :: y :: l)
  <-> x <> y /\ no_equal_neighbours (y :: l).
Proof.
  split.
  - intros H. split.
    + apply (H 0); reflexivity.
    + intros i a b Ha Hb. apply (H (S i)); assumption.
  - intros [Hxy H] [|i] a b Ha Hb.
    + injection Ha as <-. injection Hb as <-. exact Hxy.
    + apply (H i); assumption.
Qed.

(** What std::unique leaves of a list that starts with [x]. *)
Lemma unique_after_spec (l : list string) :
  forall x : string,
  exists t : list string,
    unique_after x l = x :: t
    /\ no_equal_neighbours (x :: t)
    /\ sublist (x :: t) (x :: l)
    /\ (forall z, z ∈ x :: t <-> z ∈ x :: l)
    /\ ((t = l /\ no_equal_neighbours (x :: l))
        \/ (length t < length l /\ ~ no_equal_neighbours (x :: l))).
Proof.
  induction l as [|y l IH]; intros x.
  - exists []. simpl. repeat apply conj; try reflexivity.
    + apply neighbours_single.
    + left. split; [reflexivity|apply neighbours_single].
  - simpl. destruct (String.eqb_spec x y) as [<-|Hne].
    + destruct (IH x) as (t & Hu & Hn & Hs & Hm & Hcase).
      exists t. repeat apply conj; try assumption.
      * apply sublist_cons. exact Hs.
      * intros z. rewrite Hm. rewrite !elem_of_cons. tauto.
      * right. split.
        -- apply sublist_length in Hs. simpl in *. lia.
        -- intros Hnn. apply neighbours_cons in Hnn. destruct Hnn as [Hxx _].
           apply Hxx. reflexivity.
    + destruct (IH y) as (t & Hu & Hn & Hs & Hm & Hcase).
      exists (y :: t). rewrite Hu. repeat apply conj; try reflexivity.
      * apply neighbours_cons. split; assumption.
      * apply sublist_skip. exact Hs.
      * intros z. rewrite (elem_of_cons (y :: t)), (elem_of_cons (y :: l)).
        rewrite Hm. reflexivity.
      * destruct Hcase as [[-> Hnn]|[Hlen Hnn]].
        -- left. split; [reflexivity|]. apply neighbours_cons.
           split; assumption.
        -- right. split; [simpl; lia|]. intros H. apply Hnn.
           apply neighbours_cons in H. apply H.
Qed.

Lemma unique_spec (l : list string) :
  no_equal_neighbours (unique l)
  /\ sublist (unique l) l
  /\ (forall z, z ∈ unique l <-> z ∈ l)
  /\ ((unique l = l /\ no_equal_neighbours l)
      \/ (length (unique l) < length l /\ ~ no_equal_neighbours l)).
Proof.
  destruct l as [|x l].
  - simpl. repeat apply conj; try reflexivity.
    + intros i a b Ha. discriminate.
    + left. split; [reflexivity|]. intros i a b Ha. discriminate.
  - simpl. destruct (unique_after_spec l x) as (t & Hu & Hn & Hs & Hm & Hcase).
    rewrite Hu. repeat apply conj; try assumption.
    destruct Hcase as [[-> Hnn]|[Hlen Hnn]].
    + left. split; [reflexivity|exact Hnn].
    + right. split; [simpl; lia|exact Hnn].
Qed.

Variable Error : string -> string.
Variable Warn : string -> string.
Variable usage : string.
Variable version_text : string.

(** X19.  The removal of duplicate sources works on neighbours only.  The
    list it gives has no two equal neighbours, keeps the order of the
    sources and names the same sources.  A list without equal neighbours
    comes back as it is, with no warning, even where a name occurs twice
    in it; any other list comes back shorter, with the warning written
    once. *)
Theorem remove_duplicates_neighbours
  (warning : string) (sources : list string) (out : list Event) :
  no_equal_neighbours (fst (remove_duplicates Warn warning sources out))
  /\ sublist (fst (remove_duplicates Warn warning sources out)) sources
  /\ (forall z, z ∈ fst (remove_duplicates Warn warning sources out)
                <-> z ∈ sources)
  /\ ((no_equal_neighbours sources
       /\ remove_duplicates Warn warning sources out = (sources, out))
      \/ (~ no_equal_neighbours sources
          /\ length (fst (remove_duplicates Warn warning sources out))
             < length sources
          /\ snd (remove_duplicates Warn warning sources out)
             = out ++ [EvStderr (Warn warning)])).
Proof.
  destruct (unique_spec sources) as (Hn & Hs & Hm & Hcase).
  unfold remove_duplicates.
  destruct Hcase as [[Heq Hnn]|[Hlen Hnn]].
  - rewrite Heq, Nat.ltb_irrefl. cbn [ret fst snd].
    repeat apply conj; try assumption; try reflexivity.
    left. split; [exact Hnn|reflexivity].
  - apply Nat.ltb_lt in Hlen. rewrite Hlen. apply Nat.ltb_lt in Hlen.
    rewrite bind_run. cbn [say modify ret fst snd].
    repeat apply conj; try assumption.
    right. repeat apply conj; [exact Hnn|exact Hlen|reflexivity].
Qed.

Lemma remove_duplicates_out (warning : string) (sources : list string)
  (out : list Event) :
  no_equal_neighbours (fst (remove_duplicates Warn warning sources out))
  /\ (sources = [] -> fst (remove_duplicates Warn warning sources out) = []).
Proof.
  destruct (unique_spec sources) as (Hn & _ & _ & Hcase).
  split; [|intros ->; reflexivity].
  unfold remove_duplicates.
  destruct Hcase as [[Heq Hnn]|[Hlen Hnn]].
  - rewrite Heq, Nat.ltb_irrefl. exact Hnn.
  - apply Nat.ltb_lt in Hlen. rewrite Hlen, bind_run. exact Hn.
Qed.

(** What main does with options that were parsed. *)
Lemma configure_outcome (o : Options) (out : list Event) :
  match fst (configure Error Warn usage version_text o out) with
  | inl status =>
      (status = 0%Z /\ (opt_help o = true \/ opt_version o = true))
      \/ (status = (-1)%Z /\ opt_help o = false /\ opt_version o = false
          /\ opt_position_sources o = None /\ opt_image_sources o = None)
  | inr s =>
      opt_help o = false /\ opt_version o = false
      /\ (opt_position_sources o <> None \/ opt_image_sources o <> None)
      /\ no_equal_neighbours (position_sources s)
      /\ no_equal_neighbours (frame_sources s)
      /\ (fps s = None -> frame_sources s = [])
      /\ save_path s = default "."%string (opt_folder o)
      /\ file_name s = default ""%string (opt_filename o)
  end.
Proof.
  unfold configure.
  destruct (opt_help o) eqn:Hh; [left; split; [reflexivity|left; reflexivity]|].
  destruct (opt_version o) eqn:Hv;
    [left; split; [reflexivity|right; reflexivity]|].
  destruct (opt_position_sources o) as [ps|] eqn:Hp;
    destruct (opt_image_sources o) as [fs|] eqn:Hf; cbn [is_Some_bool negb andb].
  4:{ right. repeat apply conj; reflexivity. }
  all: rewrite !bind_run; cbn [fst snd ret].
  all: repeat apply conj; try reflexivity;
    try (left; discriminate); try (right; discriminate);
    try apply remove_duplicates_out;
    try (intros i a b Ha; discriminate);
    try (destruct (opt_folder o); reflexivity);
    try (destruct (opt_filename o); reflexivity).
  all: destruct (opt_frames_per_second o); cbn; try discriminate;
    try reflexivity.
Qed.

(** X20.  main of the recorder returns before it builds a recorder in
    these cases only: with status 0 where the command line was parsed and
    help or the version is asked for; with status -1 where the parser
    threw, whatever the command line names, the message of the exception
    going to standard error; and with status -1 where the command line was
    parsed, neither help nor the version is asked for and no source option
    is given.  A recorder is built only from a command line that was
    parsed; it gets source lists without equal neighbours, and it gets an
    uninitialised frame rate only together with an empty list of frame
    sources. *)
Theorem recorder_configure_outcome (p : Parsed) (out : list Event) :
  match fst (main_to_recorder Error Warn usage version_text p out) with
  | inl status =>
      (status = 0%Z
       /\ exists o, p = ParsedOptions o
                    /\ (opt_help o = true \/ opt_version o = true))
      \/ (status = (-1)%Z
          /\ ((exists o, p = ParsedOptions o
                         /\ opt_help o = false /\ opt_version o = false
                         /\ opt_position_sources o = None
                         /\ opt_image_sources o = None)
              \/ (exists what,
                    p = ParserThrew what
                    /\ snd (main_to_recorder Error Warn usage version_text
                              p out)
                       = out ++ [EvStderr (Error what ++ nl)%string])
              \/ (p = ParserThrewUnknown
                  /\ snd (main_to_recorder Error Warn usage version_text
                            p out)
                     = out ++ [EvStderr
                                 (Error ("Exception of unknown type." ++ nl))])))
  | inr s =>
      exists o, p = ParsedOptions o
      /\ opt_help o = false /\ opt_version o = false
      /\ (opt_position_sources o <> None \/ opt_image_sources o <> None)
      /\ no_equal_neighbours (position_sources s)
      /\ no_equal_neighbours (frame_sources s)
      /\ (fps s = None -> frame_sources s = [])
      /\ save_path s = default "."%string (opt_folder o)
      /\ file_name s = default ""%string (opt_filename o)
  end.
Proof.
  destruct p as [o|what|].
  - cbn [main_to_recorder]. pose proof (configure_outcome o out) as H.
    destruct (fst (configure Error Warn usage version_text o out))
      as [status|s].
    + destruct H as [[H0 Hask]|(H1 & Hh & Hv & Hp & Hf)].
      * left. split; [exact H0|]. exists o. split; [reflexivity|exact Hask].
      * right. split; [exact H1|]. left. exists o.
        repeat apply conj; try reflexivity; assumption.
    + exists o. split; [reflexivity|exact H].
  - cbn [main_to_recorder]. rewrite bind_run. cbn [say modify ret fst snd].
    right. split; [reflexivity|]. right. left. exists what.
    split; reflexivity.
  - cbn [main_to_recorder]. rewrite bind_run. cbn [say modify ret fst snd].
    right. split; [reflexivity|]. right. right. split; reflexivity.
Qed.

End RecorderMainFacts.

(** ** The command line of the position socket *)

Section PositionSocketMainFacts.

Import PositionSocketMain.

Variable Error : string -> string.
Variable Warn : string -> string.
Variable usage : string.
Variable version_text : string.

(** X21.  main of the position socket creates a socket exactly when
    neither help nor the version is asked for, the type is "udp", a
    position source is named, and the configuration file and key are
    given both or not at all.  The socket is a server exactly when the
    server switch is set, and it listens to the source that was named;
    in every other case main returns, with status 0 for help and version
    and -1 otherwise. *)
Theorem position_socket_configure_outcome (o : Options) (out : list Event) :
  match fst (configure Error Warn usage version_text o out) with
  | inr (UDPServer source port) =>
      opt_help o = false /\ opt_version o = false
      /\ opt_type o = Some "udp"%string
      /\ opt_positionsource o = Some source
      /\ is_Some_bool (opt_config_file o) = is_Some_bool (opt_config_key o)
      /\ opt_server o = true /\ port = opt_port o
  | inr (UDPClient source host port) =>
      opt_help o = false /\ opt_version o = false
      /\ opt_type o = Some "udp"%string
      /\ opt_positionsource o = Some source
      /\ is_Some_bool (opt_config_file o) = is_Some_bool (opt_config_key o)
      /\ opt_server o = false /\ port = opt_port o
      /\ host = default ""%string (opt_host o)
  | inl status =>
      (status = 0%Z /\ (opt_help o = true \/ opt_version o = true))
      \/ (status = (-1)%Z /\ opt_help o = false /\ opt_version o = false
          /\ (opt_type o <> Some "udp"%string
              \/ opt_positionsource o = None
              \/ is_Some_bool (opt_config_file o)
                 <> is_Some_bool (opt_config_key o)))
  end.
Proof.
  unfold configure.
  destruct (opt_help o) eqn:Hh; [left; split; [reflexivity|left; reflexivity]|].
  destruct (opt_version o) eqn:Hv;
    [left; split; [reflexivity|right; reflexivity]|].
  destruct (opt_type o) as [type|] eqn:Ht.
  2:{ right. repeat apply conj; try reflexivity. left. discriminate. }
  destruct (opt_positionsource o) as [source|] eqn:Hs.
  2:{ right. repeat apply conj; try reflexivity. right. left. reflexivity. }
  rewrite bind_run.
  destruct (xorb (is_Some_bool (opt_config_file o))
              (is_Some_bool (opt_config_key o))) eqn:Hx.
  { right. repeat apply conj; try reflexivity. right. right.
    destruct (is_Some_bool (opt_config_file o)),
      (is_Some_bool (opt_config_key o)); discriminate. }
  assert (Hc : is_Some_bool (opt_config_file o)
               = is_Some_bool (opt_config_key o)).
  { destruct (is_Some_bool (opt_config_file o)),
      (is_Some_bool (opt_config_key o)); try reflexivity; discriminate. }
  unfold type_hash. destruct (String.eqb_spec type "udp") as [->|Hne].
  - cbn [Z.eqb Pos.eqb]. destruct (opt_server o) eqn:Hserver; cbn [ret fst];
      repeat apply conj; try reflexivity; exact Hc.
  - cbn. right. repeat apply conj; try reflexivity. left.
    intros [= E]. apply Hne. exact E.
Qed.

End PositionSocketMainFacts.

(** ** Decorator::applyConfiguration *)

Section DecoratorConfigFacts.

Context {PoseSource OptionTable : Type}.
Variable new_source : PoseSource.
Variable getValue_bool :
  gmap string ProgramOptions.variable_value -> OptionTable -> string
  -> DifferenceDetector.Lookup bool.
Variable getNumericValue_double :
  gmap string ProgramOptions.variable_value -> OptionTable -> string -> float
  -> DifferenceDetector.Lookup float.
Variable getArray_double_9 :
  gmap string ProgramOptions.variable_value -> OptionTable -> string
  -> DifferenceDetector.Lookup (list float).
Variable getArray_double :
  gmap string ProgramOptions.variable_value -> OptionTable -> string
  -> DifferenceDetector.Lookup (list float).

Import DecoratorConfig.

Lemma preserves_apply_lookup {S A B : Type} (f : S -> B)
  (l : DifferenceDetector.Lookup A) (set : A -> S -> S) :
  (forall v s, f (set v s) = f s) -> preserves f (apply_lookup l set).
Proof.
  intros Hset s. unfold apply_lookup. destruct l; [|reflexivity|reflexivity].
  rewrite bind_run. apply Hset.
Qed.

Lemma preserves_run_all {S B : Type} (f : S -> B)
  (steps : list (M S (Result unit))) :
  Forall (preserves f) steps -> preserves f (run_all steps).
Proof.
  induction steps as [|m steps IH]; intros Hall s; [reflexivity|].
  inversion Hall as [|? ? Hm Hrest]; subst.
  cbn [run_all]. rewrite andthen_run.
  destruct (fst (m s)); [|apply Hm].
  rewrite (IH Hrest). apply Hm.
Qed.

Lemma run_all_cons {S : Type} (m : M S (Result unit))
  (rest : list (M S (Result unit))) (s : S) :
  run_all (m :: rest) s
  = match fst (m s) with
    | Normal _ => run_all rest (snd (m s))
    | Thrown e => (Thrown e, snd (m s))
    end.
Proof.
  cbn [run_all]. rewrite andthen_run. destruct (fst (m s)); reflexivity.
Qed.

Lemma run_all_app {S : Type} (l1 l2 : list (M S (Result unit))) (s : S) :
  run_all (l1 ++ l2) s
  = match fst (run_all l1 s) with
    | Normal _ => run_all l2 (snd (run_all l1 s))
    | Thrown e => (Thrown e, snd (run_all l1 s))
    end.
Proof.
  revert s. induction l1 as [|m l1 IH]; intros s; [reflexivity|].
  cbn [app run_all]. rewrite !andthen_run.
  destruct (fst (m s)); [apply IH|reflexivity].
Qed.

Lemma preserves_pose_sources {B : Type}
  (f : DecoratorConfig.t -> B)
  (vm : gmap string ProgramOptions.variable_value) :
  (forall x d, f (set_pose_sources_ (PoseSource:=PoseSource) x d) = f d) ->
  (forall x d, f (set_decorate_position_ x d) = f d) ->
  preserves f (configure_pose_sources new_source vm).
Proof.
  intros H1 H2 s. unfold configure_pose_sources.
  destruct (vm !! "pose-sources"%string) as [value|]; [|reflexivity].
  destruct (ProgramOptions.as_strings value) as [addrs|e]; [|reflexivity].
  rewrite bind_run. cbn [ret snd].
  destruct (negb (length addrs =? 0)); cbn [modify snd];
    [apply H1|apply H2].
Qed.

Lemma preserves_distortion {B : Type}
  (f : DecoratorConfig.t -> B)
  (vm : gmap string ProgramOptions.variable_value) (tab : OptionTable) :
  (forall x d, f (set_dist_coeff_ (PoseSource:=PoseSource) x d) = f d) ->
  preserves f (configure_distortion getArray_double vm tab).
Proof.
  intros H1 s. unfold configure_distortion.
  destruct (getArray_double vm tab "distortion-coeffs") as [l| |e];
    [|reflexivity|reflexivity].
  rewrite !bind_run. cbn [modify get fst snd].
  match goal with |- context [if ?c then _ else _] => destruct c end;
    apply H1.
Qed.

(** Closes the goals that say that a statement of applyConfiguration
    leaves a member alone. *)
Ltac leaves_alone :=
  repeat first
    [ apply preserves_apply_lookup; intros; reflexivity
    | apply preserves_pose_sources; intros; reflexivity
    | apply preserves_distortion; intros; reflexivity
    | apply List.Forall_cons
    | apply List.Forall_nil ].

(** X22.  The pose sources come from the command line: for every address
    given with the option "pose-sources", applyConfiguration appends one
    source of that name, in the order given, after the sources that are
    there already; an empty list of addresses switches the drawing of
    positions off instead.  This holds whatever the rest of the
    configuration is, also where a later entry makes the call throw. *)
Theorem pose_sources_from_command_line
  (vm : gmap string ProgramOptions.variable_value) (tab : OptionTable)
  (d : DecoratorConfig.t) (addrs : list string) :
  vm !! "pose-sources"%string = Some (ProgramOptions.strings_value addrs) ->
  pose_sources_
    (snd (applyConfiguration new_source getValue_bool getNumericValue_double
            getArray_double_9 getArray_double vm tab d))
  = pose_sources_ d ++ map (fun addr => (addr, new_source)) addrs
  /\ decorate_position_
       (snd (applyConfiguration new_source getValue_bool
               getNumericValue_double getArray_double_9 getArray_double
               vm tab d))
     = (if length addrs =? 0 then false else decorate_position_ d).
Proof.
  intros Hvm. unfold applyConfiguration, statements.
  rewrite run_all_cons.
  assert (H1 : configure_pose_sources new_source vm d
               = (Normal tt,
                  if negb (length addrs =? 0)
                  then push_back_sources new_source addrs d
                  else set_decorate_position_ false d)).
  { unfold configure_pose_sources. rewrite Hvm. cbn [ProgramOptions.as_strings].
    rewrite bind_run. destruct (negb (length addrs =? 0)); reflexivity. }
  rewrite H1. cbn [fst snd].
  match goal with
  | |- context [run_all ?steps ?s] =>
      assert (Hp : preserves pose_sources_ (run_all steps))
        by (apply preserves_run_all; leaves_alone);
      assert (Hd : preserves decorate_position_ (run_all steps))
        by (apply preserves_run_all; leaves_alone)
  end.
  rewrite Hp, Hd.
  destruct (length addrs =? 0) eqn:Hlen; cbn [negb]; split; try reflexivity.
  apply Nat.eqb_eq in Hlen. destruct addrs; [|discriminate].
  simpl. rewrite app_nil_r. reflexivity.
Qed.

(** X23.  A call of applyConfiguration that returns normally has checked
    the distortion coefficients: where the configuration supplies them,
    there are five to eight of them and they are the ones the decorator
    holds; where it does not, the decorator keeps the ones it had. *)
Theorem distortion_coefficients_checked
  (vm : gmap string ProgramOptions.variable_value) (tab : OptionTable)
  (d : DecoratorConfig.t) :
  fst (applyConfiguration new_source getValue_bool getNumericValue_double
         getArray_double_9 getArray_double vm tab d) = Normal tt ->
  match getArray_double vm tab "distortion-coeffs" with
  | DifferenceDetector.Found coeffs =>
      5 <= length coeffs <= 8
      /\ dist_coeff_
           (snd (applyConfiguration new_source getValue_bool
                   getNumericValue_double getArray_double_9 getArray_double
                   vm tab d)) = coeffs
  | DifferenceDetector.Absent =>
      dist_coeff_
        (snd (applyConfiguration new_source getValue_bool
                getNumericValue_double getArray_double_9 getArray_double
                vm tab d)) = dist_coeff_ d
  | DifferenceDetector.Fails _ => False
  end.
Proof.
  unfold applyConfiguration, statements.
  match goal with
  | |- context [run_all [?a1; ?a2; ?a3; ?a4; ?a5; ?a6; ?a7; ?a8; ?a9; ?a10;
                         ?a11] d] =>
      change [a1; a2; a3; a4; a5; a6; a7; a8; a9; a10; a11]
        with ([a1; a2; a3; a4; a5; a6; a7; a8; a9; a10] ++ [a11]);
      assert (Hp : preserves dist_coeff_
                     (run_all [a1; a2; a3; a4; a5; a6; a7; a8; a9; a10]))
        by (apply preserves_run_all; leaves_alone);
      specialize (Hp d);
      rewrite run_all_app;
      destruct (run_all [a1; a2; a3; a4; a5; a6; a7; a8; a9; a10] d)
        as [[[]|e] s10]
  end; cbn [fst snd] in *; [|discriminate].
  rewrite run_all_cons. unfold configure_distortion.
  destruct (getArray_double vm tab "distortion-coeffs") as [coeffs| |e].
  - rewrite !bind_run. cbn [modify get fst snd set_dist_coeff_ dist_coeff_].
    destruct (Nat.ltb_spec (length coeffs) 5) as [H5|H5]; [discriminate|].
    destruct (Nat.ltb_spec 8 (length coeffs)) as [H8|H8]; [discriminate|].
    intros _. split; [lia|reflexivity].
  - intros _. exact Hp.
  - discriminate.
Qed.

(** X24.  The font colour is inverted whenever the option "invert-font" is
    supplied, whatever its value: after a call that returns normally the
    colour is 255 minus the old colour in each of the first three channels
    where the lookup finds the option, also with the value false, and the
    old colour otherwise. *)
Theorem invert_font_ignores_value
  (vm : gmap string ProgramOptions.variable_value) (tab : OptionTable)
  (d : DecoratorConfig.t) :
  fst (applyConfiguration new_source getValue_bool getNumericValue_double
         getArray_double_9 getArray_double vm tab d) = Normal tt ->
  font_color_
    (snd (applyConfiguration new_source getValue_bool getNumericValue_double
            getArray_double_9 getArray_double vm tab d))
  = match getValue_bool vm tab "invert-font" with
    | DifferenceDetector.Found _ =>
        subtract (255, 255, 255, 0)%float (font_color_ d)
    | _ => font_color_ d
    end.
Proof.
  unfold applyConfiguration, statements.
  match goal with
  | |- context [run_all [?a1; ?a2; ?a3; ?a4; ?a5; ?a6; ?a7; ?a8; ?a9; ?a10;
                         ?a11] d] =>
      change [a1; a2; a3; a4; a5; a6; a7; a8; a9; a10; a11]
        with ([a1; a2; a3; a4; a5; a6; a7] ++ a8 :: [a9; a10; a11]);
      assert (Hp : preserves font_color_
                     (run_all [a1; a2; a3; a4; a5; a6; a7]))
        by (apply preserves_run_all; leaves_alone);
      assert (Hq : preserves font_color_ (run_all [a9; a10; a11]))
        by (apply preserves_run_all; leaves_alone);
      specialize (Hp d);
      rewrite run_all_app;
      destruct (run_all [a1; a2; a3; a4; a5; a6; a7] d) as [[[]|e] s7]
  end; cbn [fst snd] in *; [|discriminate].
  rewrite run_all_cons.
  destruct (getValue_bool vm tab "invert-font") as [b| |e];
    cbn [apply_lookup].
  - rewrite bind_run. cbn [modify ret fst snd]. intros _.
    rewrite Hq. unfold invert_font_color. cbn [font_color_ set_font_color_].
    rewrite Hp. reflexivity.
  - cbn [ret fst snd]. intros _. rewrite Hq. exact Hp.
  - discriminate.
Qed.

End DecoratorConfigFacts.

(** Configurations for the witnesses: lookups that find what the list
    [found] holds for the key, over an empty table. *)
Lemma pose_sources_from_command_line_witness :
  DecoratorConfig.pose_sources_
    (snd (DecoratorConfig.applyConfiguration 0
            (fun _ (_ : unit) _ => DifferenceDetector.Absent)
            (fun _ (_ : unit) _ _ => DifferenceDetector.Absent)
            (fun _ (_ : unit) _ => DifferenceDetector.Absent)
            (fun _ (_ : unit) _ => DifferenceDetector.Found [1; 2]%float)
            {[ "pose-sources"%string :=
                 ProgramOptions.strings_value ["a"; "b"]%string ]} tt
            (DecoratorConfig.mk [("z"%string, 0)] true false false false
               false false 1%float (0, 0, 0, 0)%float 1%float
               (Position2D.mkMatx33 0 0 0 0 0 0 0 0 0)%float [])))
  = [("z"%string, 0); ("a"%string, 0); ("b"%string, 0)].
Proof.
  refine (proj1 (pose_sources_from_command_line 0 _ _ _ _ _ tt _
                   ["a"; "b"]%string _)).
  apply lookup_singleton_eq.
Defined.

Lemma distortion_coefficients_checked_witness :
  5 <= length [1; 2; 3; 4; 5]%float <= 8
  /\ DecoratorConfig.dist_coeff_
       (snd (DecoratorConfig.applyConfiguration 0
               (fun _ (_ : unit) _ => DifferenceDetector.Absent)
               (fun _ (_ : unit) _ _ => DifferenceDetector.Absent)
               (fun _ (_ : unit) _ => DifferenceDetector.Absent)
               (fun _ (_ : unit) _ =>
                  DifferenceDetector.Found [1; 2; 3; 4; 5]%float)
               ∅ tt
               (DecoratorConfig.mk [] true false false false false false
                  1%float (0, 0, 0, 0)%float 1%float
                  (Position2D.mkMatx33 0 0 0 0 0 0 0 0 0)%float [])))
     = [1; 2; 3; 4; 5]%float.
Proof.
  exact (distortion_coefficients_checked 0
           (fun _ (_ : unit) _ => DifferenceDetector.Absent)
           (fun _ (_ : unit) _ _ => DifferenceDetector.Absent)
           (fun _ (_ : unit) _ => DifferenceDetector.Absent)
           (fun _ (_ : unit) _ =>
              DifferenceDetector.Found [1; 2; 3; 4; 5]%float)
           ∅ tt
           (DecoratorConfig.mk [] true false false false false false
              1%float (0, 0, 0, 0)%float 1%float
              (Position2D.mkMatx33 0 0 0 0 0 0 0 0 0)%float [])
           eq_refl).
Defined.

Lemma invert_font_ignores_value_witness :
  DecoratorConfig.font_color_
    (snd (DecoratorConfig.applyConfiguration 0
            (fun _ (_ : unit) key =>
               if String.eqb key "invert-font"
               then DifferenceDetector.Found false
               else DifferenceDetector.Absent)
            (fun _ (_ : unit) _ _ => DifferenceDetector.Absent)
            (fun _ (_ : unit) _ => DifferenceDetector.Absent)
            (fun _ (_ : unit) _ => DifferenceDetector.Absent)
            ∅ tt
            (DecoratorConfig.mk [] true false false false false false
               1%float (255, 255, 255, 0)%float 1%float
               (Position2D.mkMatx33 0 0 0 0 0 0 0 0 0)%float [])))
  = (0, 0, 0, 0)%float.
Proof.
  exact (invert_font_ignores_value 0
           (fun _ (_ : unit) key =>
              if String.eqb key "invert-font"
              then DifferenceDetector.Found false
              else DifferenceDetector.Absent)
           (fun _ (_ : unit) _ _ => DifferenceDetector.Absent)
           (fun _ (_ : unit) _ => DifferenceDetector.Absent)
           (fun _ (_ : unit) _ => DifferenceDetector.Absent)
           ∅ tt
           (DecoratorConfig.mk [] true false false false false false
              1%float (255, 255, 255, 0)%float 1%float
              (Position2D.mkMatx33 0 0 0 0 0 0 0 0 0)%float [])
           eq_refl).
Defined.
